(** * Porta fontium link crawler: the crawl engine of [src/main.py]

    A shallow embedding of the crawl engine (URL normalisation, link
    extraction, the paginated crawl loop and the periodical expansion pass)
    together with the properties the specification states about it.

    Conventions.
    - Python [str] values are sequences of Unicode code points: [list N].
    - Python sets of strings are [gset (list N)]; lists are lists.
    - Calls into [urllib.parse], BeautifulSoup, [json] and the network are
      calls into an explicit interface ([Lib] for the libraries, [World]
      for the network and the stop flag); a reference instance of [Lib] is
      given for evaluation on concrete inputs.
    - Effects (HTTP requests, polling the stop flag, sleeping, log lines,
      exceptions) are threaded through the monad [M]. *)

From Stdlib Require Import ZArith QArith List Ascii String Decimal Lia.
From stdpp Require Import base decidable option list gmap.

Set Warnings "-register-all,-clear-no-such-hyp".

Close Scope Q_scope.
Close Scope Z_scope.
Open Scope nat_scope.
Open Scope list_scope.

(* ================================================================== *)
(** * Text *)
(* ================================================================== *)

Abbreviation char := N (only parsing).
Abbreviation str := (list N) (only parsing).

(** A literal of the source, as code points (the literals are ASCII). *)
Definition py (s : string) : str :=
  List.map N_of_ascii (list_ascii_of_string s).
Arguments py : simpl never.

(** [s.startswith(pre)] *)
Fixpoint startswith (s pre : str) {struct pre} : bool :=
  match pre, s with
  | [], _ => true
  | _ :: _, [] => false
  | p :: pre', c :: s' => (p =? c)%N && startswith s' pre'
  end.

(** [s.endswith(suf)] *)
Definition endswith (s suf : str) : bool :=
  startswith (rev s) (rev suf).

(** [sub in s] *)
Fixpoint contains (sub s : str) : bool :=
  startswith s sub ||
  match s with
  | [] => false
  | _ :: s' => contains sub s'
  end.

(** The rest of [s] after the prefix [pre], when [s] starts with it. *)
Fixpoint strip_prefix (pre s : str) {struct pre} : option str :=
  match pre, s with
  | [], _ => Some s
  | _ :: _, [] => None
  | p :: pre', c :: s' => if (p =? c)%N then strip_prefix pre' s' else None
  end.

(** [str.lower()].  The program compares lowered strings only against the
    literals "language", "all", "alle" and "vše"; the case pairs that can
    produce a letter of these are A-Z and U+0160/U+0161, and they are the ones
    mapped here.  Every other code point is left as it is. *)
Definition lower_char (c : N) : N :=
  if ((65 <=? c) && (c <=? 90))%N then (c + 32)%N
  else if (c =? 352)%N then 353%N
  else c.

Definition lower (s : str) : str := List.map lower_char s.

(** The characters [str.strip()] removes: [str.isspace()]. *)
Definition isspace (c : N) : bool :=
  (((9 <=? c) && (c <=? 13)) || ((28 <=? c) && (c <=? 32)) ||
   (c =? 133) || (c =? 160) || (c =? 5760) ||
   ((8192 <=? c) && (c <=? 8202)) || (c =? 8232) || (c =? 8233) ||
   (c =? 8239) || (c =? 8287) || (c =? 12288))%N.

Fixpoint lstrip (s : str) : str :=
  match s with
  | c :: s' => if isspace c then lstrip s' else s
  | [] => []
  end.

(** [s.strip()] *)
Definition strip (s : str) : str := rev (lstrip (rev (lstrip s))).

(** [str(n)] for a non-negative integer. *)
Fixpoint digits_of_uint (u : Decimal.uint) : str :=
  match u with
  | Decimal.Nil => []
  | Decimal.D0 u' => 48%N :: digits_of_uint u'
  | Decimal.D1 u' => 49%N :: digits_of_uint u'
  | Decimal.D2 u' => 50%N :: digits_of_uint u'
  | Decimal.D3 u' => 51%N :: digits_of_uint u'
  | Decimal.D4 u' => 52%N :: digits_of_uint u'
  | Decimal.D5 u' => 53%N :: digits_of_uint u'
  | Decimal.D6 u' => 54%N :: digits_of_uint u'
  | Decimal.D7 u' => 55%N :: digits_of_uint u'
  | Decimal.D8 u' => 56%N :: digits_of_uint u'
  | Decimal.D9 u' => 57%N :: digits_of_uint u'
  end.

Definition str_of_nat (n : nat) : str := digits_of_uint (Nat.to_uint n).

(** Truthiness of a Python string: the empty string is falsy. *)
Definition nonempty {A} (l : list A) : bool :=
  match l with [] => false | _ :: _ => true end.

(* ================================================================== *)
(** * Configuration (lines 26, 119-138) *)
(* ================================================================== *)

Definition BASE : str := py "https://www.portafontium.eu".

Record TabDef := mkTab {
  key : str;
  path : str;
  allowed_prefixes : list str;
  prefer_iipimage_root : bool;
  prefer_iipimage_only_if_present : bool
}.

(** The dataclass defaults both flags to [True]. *)
Definition tabdef (k p : string) (prefixes : list string) : TabDef :=
  mkTab (py k) (py p) (List.map py prefixes) true true.

Definition tab_register := tabdef "register" "/searching/register" ["/register/"; "/iipimage/"]%string.
Definition tab_chronicle := tabdef "chronicle" "/searching/chronicle" ["/chronicle/"; "/iipimage/"]%string.
Definition tab_charter := tabdef "charter" "/searching/charter" ["/charter/"; "/iipimage/"]%string.
Definition tab_photo := tabdef "photo" "/searching/photo" ["/photo/"; "/iipimage/"]%string.
Definition tab_census := tabdef "census" "/searching/census" ["/census/"; "/iipimage/"]%string.
Definition tab_map := tabdef "map" "/searching/map" ["/map/"; "/iipimage/"]%string.
Definition tab_periodical :=
  mkTab (py "periodical") (py "/searching/periodical")
        [py "/iipimage/"; py "/periodical/"] true false.
Definition tab_amtsbuch := tabdef "amtsbuch" "/searching/amtsbuch" ["/amtsbuch/"; "/iipimage/"]%string.

Definition TABS : list TabDef :=
  [tab_register; tab_chronicle; tab_charter; tab_photo; tab_census;
   tab_map; tab_periodical; tab_amtsbuch].

Definition is_periodical (tab : TabDef) : bool :=
  bool_decide (key tab = py "periodical").

(* ================================================================== *)
(** * Default option of a choice widget (lines 202-218) *)
(* ================================================================== *)

(** One [for lab, val in opts: if test: return val] loop. *)
Fixpoint first_value (test : str -> str -> bool) (opts : list (str * str)) : option str :=
  match opts with
  | [] => None
  | (lab, val) :: rest => if test lab val then Some val else first_value test rest
  end.

Definition value_is_empty (lab val : str) : bool := bool_decide (val = []).

Definition value_means_all (lab val : str) : bool :=
  bool_decide (lower val = py "all").

(** "vše" *)
Definition vse : str := [118; 353; 101]%N.

Definition label_means_all (lab val : str) : bool :=
  let low := lower (strip lab) in
  contains (py "alle") low || contains vse low || bool_decide (low = py "all").

Definition pick_default_option (opts : list (str * str)) : str :=
  match opts with
  | [] => []
  | (_, v0) :: _ =>
      match first_value value_is_empty opts with
      | Some v => v
      | None =>
          match first_value value_means_all opts with
          | Some v => v
          | None =>
              match first_value label_means_all opts with
              | Some v => v
              | None => v0
              end
          end
      end
  end.

(* ================================================================== *)
(** * Library interface *)
(* ================================================================== *)

(** [urllib.parse.ParseResult] *)
Record ParseResult := mkParse {
  u_scheme : str;
  u_netloc : str;
  u_path : str;
  u_params : str;
  u_query : str;
  u_fragment : str
}.

(** [p._replace(fragment=f)] and [p._replace(query=q)] *)
Definition replace_fragment (p : ParseResult) (f : str) : ParseResult :=
  mkParse (u_scheme p) (u_netloc p) (u_path p) (u_params p) (u_query p) f.


(** A decoded JSON document ([json] module), as far as
    [drupal_views_ajax_fetch] inspects it. *)
Inductive json :=
| JStr (s : str)
| JList (items : list json)
| JDict (fields : list (str * json))
| JOther.

(** The library functions the crawl engine calls.  The engine is verified
    against this interface; [reference_lib] below is an executable instance.
    - [urlparse], [urlunparse], [urljoin]: [urllib.parse];
    - [parse_qsl] is [parse_qsl(q, keep_blank_values=True)];
    - [urlencode] is [urlencode(items, doseq=True)];
    - [unicode_digit]: the decimal digits beyond ASCII that [\d] matches;
    - [anchor_hrefs html]: the [href] attributes of the [a[href]] elements
      that BeautifulSoup finds in the most specific result container of
      [html] (lines 640-647), in document order, or [None] when parsing
      raises;
    - [json_loads]: [Response.json()], [None] when it raises;
    - [parse_drupal_view_info] (lines 158-183), used by the crawl only to
      complete missing view metadata.
    The functions of [urllib.parse] are taken to return on every string. *)
Class Lib := {
  urlparse : str -> ParseResult;
  urlunparse : ParseResult -> str;
  urljoin : str -> str -> str;
  parse_qsl : str -> list (str * str);
  urlencode : list (str * str) -> str;
  unicode_digit : N -> bool;
  anchor_hrefs : str -> option (list str);
  json_loads : str -> option json;
  parse_drupal_view_info : str -> gmap str str
}.

(* ================================================================== *)
(** * Remembering what was seen *)
(* ================================================================== *)

(** The loop
<<
    for x in xs:
        if x not in seen:
            seen.add(x)
            out.append(x)
>>
    which the source uses wherever it collects links or identifiers. *)
Fixpoint add_unseen (xs : list str) (seen : gset str) (out : list str)
  : gset str * list str :=
  match xs with
  | [] => (seen, out)
  | x :: xs' =>
      if decide (x ∈ seen) then add_unseen xs' seen out
      else add_unseen xs' ({[x]} ∪ seen) (out ++ [x])
  end.


(* ================================================================== *)
(** * Effects *)
(* ================================================================== *)

(** The exceptions that reach the crawl: a failed request ([requests]
    raising, or [raise_for_status] on a non-2xx answer) and the
    [RuntimeError]s of [crawl_tab_links]. *)
Inductive exn :=
| FetchError
| RuntimeError (msg : str).

(** The lines passed to [log_cb], by the statement that writes them.  The
    crawl is modelled with a [log_cb] given, as [CrawlWorker.run] calls it;
    without one the same run happens with these events left out. *)
Inductive log_msg :=
| LogDebugView (view_name view_display_id view_dom_id : str)
| LogSearch (page : nat) (visible_url : str)
| LogGetFailed
| LogUseAjax
| LogEmptyPage (streak : nat)
| LogHits (hits new_cnt total : nat)
| LogNoNew (streak : nat)
| LogPeriodicalOpen (n : nat)
| LogPeriodicalFailed (idx n : nat) (purl : str)
| LogPeriodicalProgress (idx n new_cnt total : nat).

(** What a run does to the outside, in the order it does it. *)
Inductive event :=
| EvStopFlag (stop : bool)
| EvGet (url : str) (response : option str)
| EvPost (url : str) (data headers : list (str * str)) (response : option str)
| EvSleep (seconds : Q)
| EvLog (m : log_msg).

(** The outside: what a request answers ([None]: it raises) and what the
    stop flag says, each as a function of everything that happened so far. *)
Record World := mkWorld {
  http_get : list event -> str -> option str;
  http_post : list event -> str -> list (str * str) -> list (str * str) -> option str;
  stop_requested : list event -> bool
}.

Inductive result (A : Type) :=
| Ok (a : A)
| Raise (e : exn).
Arguments Ok {A} a.
Arguments Raise {A} e.

(** A computation reads the history so far and gives its outcome with the
    events it added. *)
Definition M (A : Type) : Type := list event -> result A * list event.

Definition ret {A} (a : A) : M A := fun _ => (Ok a, []).

#[export] Instance M_ret : MRet M := @ret.

#[export] Instance M_bind : MBind M := fun A B f m h =>
  match m h with
  | (Ok a, t1) => let '(r, t2) := f a (h ++ t1) in (r, t1 ++ t2)
  | (Raise e, t1) => (Raise e, t1)
  end.

Definition raise {A} (e : exn) : M A := fun _ => (Raise e, []).

(** [try: m except Exception: handler] *)
Definition try_except {A} (m : M A) (handler : exn -> M A) : M A := fun h =>
  match m h with
  | (Ok a, t1) => (Ok a, t1)
  | (Raise e, t1) => let '(r, t2) := handler e (h ++ t1) in (r, t1 ++ t2)
  end.

Definition log_cb (m : log_msg) : M unit := fun _ => (Ok tt, [EvLog m]).

(** [delay_s > 0] *)
Definition positive_delay (d : Q) : bool := (0 <? Qnum d)%Z.

(** [if delay_s > 0: time.sleep(delay_s)] *)
Definition sleep_if_positive (d : Q) : M unit := fun _ =>
  (Ok tt, if positive_delay d then [EvSleep d] else []).

(** How an iteration of a [for] loop ends: it goes on to the next element
    ([continue], or the end of the body) or leaves the loop ([break]). *)
Inductive flow (S : Type) :=
| Next (s : S)
| Break (s : S).
Arguments Next {S} s.
Arguments Break {S} s.

Section Engine.
Context `{L : Lib} (W : World).

(* ================================================================== *)
(** * URL helpers (lines 144-152) *)
(* ================================================================== *)

Definition is_language_key (k : str) : bool :=
  bool_decide (lower k = py "language").

Definition strip_language_param (url : str) : str :=
  if nonempty url then
    let p := urlparse url in
    if nonempty (u_query p) then
      let qs := List.filter (fun kv => negb (is_language_key (fst kv)))
                            (parse_qsl (u_query p)) in
      let new_query := urlencode qs in
      urlunparse (mkParse (u_scheme p) (u_netloc p) (u_path p) (u_params p) new_query [])
    else
      urlunparse (mkParse (u_scheme p) (u_netloc p) (u_path p) (u_params p) [] [])
  else url.

(* ================================================================== *)
(** * Link extraction (lines 593-666) *)
(* ================================================================== *)

(** [\d] on a [str] pattern. *)
Definition re_digit (c : N) : bool :=
  ((48 <=? c) && (c <=? 57))%N || ((127 <? c)%N && unicode_digit c).

(** The longest run of digits at the head of [s] (a greedy run of [\d]). *)
Fixpoint take_digits (s : str) : str :=
  match s with
  | c :: s' => if re_digit c then c :: take_digits s' else []
  | [] => []
  end.

(** [re.match] of the pattern "^/iipimage/" followed by a group of one or
    more [\d]: the group, when there is a match. *)
Definition match_iipimage (s : str) : option str :=
  match strip_prefix (py "/iipimage/") s with
  | Some rest =>
      match take_digits rest with
      | [] => None
      | ds => Some ds
      end
  | None => None
  end.

(** [re.findall] of the pattern "/iipimage/" followed by a group of one or
    more [\d].  The scan tries a match at every
    position from left to right and resumes after the end of a match;
    [skip] is the number of characters of the last match still to pass. *)
Fixpoint findall_iipimage (skip : nat) (s : str) : list str :=
  match s with
  | [] => []
  | _ :: s' =>
      match skip with
      | S k => findall_iipimage k s'
      | O =>
          match match_iipimage s with
          | Some ds => ds :: findall_iipimage (9 + length ds) s'
          | None => findall_iipimage 0 s'
          end
      end
  end.

Definition extract_iipimage_ids_anywhere (text : str) : list str :=
  snd (add_unseen (findall_iipimage 0 text) ∅ []).

(** f"{BASE}/iipimage/{pid}" *)
Definition viewer_link (pid : str) : str := BASE ++ py "/iipimage/" ++ pid.

Definition normalize_pf_link (tab : TabDef) (href : str) : option str :=
  if nonempty href then
    let full := urljoin BASE href in
    let p := urlparse full in
    if endswith (u_netloc p) (py "portafontium.eu") then
      let path := u_path p in
      if existsb (startswith path) (allowed_prefixes tab) then
        match (if prefer_iipimage_root tab && startswith path (py "/iipimage/")
               then match_iipimage path else None) with
        | Some pid => Some (viewer_link pid)
        | None => Some (strip_language_param (urlunparse (replace_fragment p [])))
        end
      else None
    else None
  else None.

(** The links of the anchors, in document order: [normalize_pf_link] of each
    [href], those it rejects ([None] or an empty string) left out. *)
Definition anchor_links (tab : TabDef) (hrefs : list str) : list str :=
  omap (fun href =>
          match normalize_pf_link tab href with
          | Some u => if nonempty u then Some u else None
          | None => None
          end) hrefs.

Definition extract_links_from_html (tab : TabDef) (html : str) : list str :=
  let ids := extract_iipimage_ids_anywhere html in
  if negb (is_periodical tab) && nonempty ids && prefer_iipimage_only_if_present tab then
    snd (add_unseen (List.map viewer_link ids) ∅ [])
  else
    let '(seen, out) :=
      match anchor_hrefs html with
      | Some hrefs => add_unseen (anchor_links tab hrefs) ∅ []
      | None => (∅, [])
      end in
    if is_periodical tab then
      snd (add_unseen (List.map (fun pid => strip_language_param (viewer_link pid)) ids) seen out)
    else out.

(* ================================================================== *)
(** * Requests (lines 42-45, 672-736) *)
(* ================================================================== *)

Definition stop_flag : M bool := fun h =>
  let b := stop_requested W h in (Ok b, [EvStopFlag b]).

Definition fetch_html (url : str) : M str := fun h =>
  match http_get W h url with
  | Some text => (Ok text, [EvGet url (Some text)])
  | None => (Raise FetchError, [EvGet url None])
  end.

(** [session.post(...)] followed by [r.raise_for_status()]. *)
Definition post_form (url : str) (data headers : list (str * str)) : M str := fun h =>
  match http_post W h url data headers with
  | Some text => (Ok text, [EvPost url data headers (Some text)])
  | None => (Raise FetchError, [EvPost url data headers None])
  end.

(** Truthiness of an [Optional[str]]. *)
Definition truthy (o : option str) : bool :=
  match o with Some s => nonempty s | None => false end.

(** [a or b] on [Optional[str]] values. *)
Definition py_or (a b : option str) : option str := if truthy a then a else b.

Definition str_of (o : option str) : str := default [] o.

(** [cmd.get(k)] on a decoded JSON object. *)
Fixpoint dict_get (fields : list (str * json)) (k : str) : option json :=
  match fields with
  | [] => None
  | (k', v) :: rest => if decide (k' = k) then Some v else dict_get rest k
  end.

(** Lines 718-725: the markup fragments of the command list. *)
Definition html_parts (cmds : json) : list str :=
  match cmds with
  | JList items =>
      flat_map (fun cmd =>
        match cmd with
        | JDict fields =>
            flat_map (fun k =>
              match dict_get fields k with
              | Some (JStr v) => if contains (py "<") v then [v] else []
              | _ => []
              end) [py "data"; py "markup"]
        | _ => []
        end) items
  | _ => []
  end.

(** [sep.join(parts)] *)
Fixpoint join (sep : str) (parts : list str) : str :=
  match parts with
  | [] => []
  | [x] => x
  | x :: rest => x ++ sep ++ join sep rest
  end.

(** Lines 713-726: the markup of an answer of the endpoint; an answer that
    is not JSON is taken as it is. *)
Definition ajax_fragment (text : str) : str :=
  match json_loads text with
  | None => text
  | Some cmds => join [10%N] (html_parts cmds)
  end.

Definition ajax_data_items (view_name view_display_id view_dom_id view_path : str)
    (page : nat) (exposed_items : list (str * str)) (theme theme_token : option str)
  : list (str * str) :=
  let base_items :=
    [(py "view_name", view_name);
     (py "view_display_id", view_display_id);
     (py "view_args", []);
     (py "view_path", view_path);
     (py "view_base_path", view_path);
     (py "view_dom_id", view_dom_id);
     (py "pager_element", py "0");
     (py "page", str_of_nat page)]
    ++ (if truthy theme then [(py "ajax_page_state[theme]", str_of theme)] else [])
    ++ (if truthy theme_token then [(py "ajax_page_state[theme_token]", str_of theme_token)] else []) in
  base_items ++ exposed_items.

Definition ajax_headers (view_path referer_lang : str) : list (str * str) :=
  [(py "X-Requested-With", py "XMLHttpRequest");
   (py "Accept", py "application/json, text/javascript, */*; q=0.01");
   (py "Content-Type", py "application/x-www-form-urlencoded; charset=UTF-8");
   (py "Referer", BASE ++ py "/" ++ view_path ++ py "?language=" ++ referer_lang)].

Definition drupal_views_ajax_fetch (view_name view_display_id view_dom_id view_path : str)
    (page : nat) (exposed_items : list (str * str)) (theme theme_token : option str)
    (referer_lang : str) : M str :=
  let ajax_url := BASE ++ py "/views/ajax" in
  let data_items := ajax_data_items view_name view_display_id view_dom_id view_path
                                    page exposed_items theme theme_token in
  text ← post_form ajax_url data_items (ajax_headers view_path referer_lang);
  ret (ajax_fragment text).

Definition build_visible_url (action_url lang : str) (exposed_items : list (str * str))
    (page : nat) : str :=
  let items :=
    exposed_items
    ++ (if existsb (fun kv => bool_decide (fst kv = py "language")) exposed_items
        then [] else [(py "language", lang)])
    ++ [(py "page", str_of_nat page)] in
  let qs := urlencode items in
  let sep := if contains (py "?") action_url then py "&" else py "?" in
  action_url ++ sep ++ qs.

(* ================================================================== *)
(** * Periodical expansion (lines 742-794) *)
(* ================================================================== *)

Definition is_container (u : str) : bool := contains (py "/periodical/") u.
Definition is_viewer (u : str) : bool := contains (py "/iipimage/") u.

(** Line 778: the first, every tenth and the last page report progress. *)
Definition progress_due (idx n : nat) : bool :=
  (idx =? 1) || (idx mod 10 =? 0) || (idx =? n).
Arguments progress_due : simpl never.

(** One iteration of the loop over the container pages (lines 759-782);
    [n] is [len(periodical_pages)] and [idx] counts from 1. *)
Definition expand_page (delay_s : Q) (n idx : nat) (purl : str)
    (acc : gset str * list str) : M (flow (gset str * list str)) :=
  stop ← stop_flag;
  if (stop : bool) then ret (Break acc) else
  fetched ← try_except (A := option str) (html ← fetch_html purl; ret (Some html))
                       (fun _ => log_cb (LogPeriodicalFailed idx n purl);; ret None);
  match fetched with
  | None => ret (Next acc)
  | Some html =>
      let ids := extract_iipimage_ids_anywhere html in
      let '(out_set, out_list) := acc in
      let acc' := add_unseen (List.map (fun pid => strip_language_param (viewer_link pid)) ids)
                             out_set out_list in
      let new_cnt := length (snd acc') - length out_list in
      (if progress_due idx n
       then log_cb (LogPeriodicalProgress idx n new_cnt (length (snd acc')))
       else ret tt);;
      sleep_if_positive delay_s;;
      ret (Next acc')
  end.

Fixpoint expand_pages (delay_s : Q) (n idx : nat) (pages : list str)
    (acc : gset str * list str) : M (gset str * list str) :=
  match pages with
  | [] => ret acc
  | purl :: rest =>
      f ← expand_page delay_s n idx purl acc;
      match f with
      | Break acc' => ret acc'
      | Next acc' => expand_pages delay_s n (S idx) rest acc'
      end
  end.

(** Lines 785-794: only the viewer links are kept, normalised once more. *)
Definition only_viewer_links (out_list : list str) : list str :=
  snd (add_unseen (List.filter is_viewer (List.map strip_language_param out_list)) ∅ []).

Definition expand_periodicals_via_periodical_pages (links : list str) (delay_s : Q)
  : M (list str) :=
  let periodical_pages := List.filter is_container links in
  if nonempty periodical_pages then
    log_cb (LogPeriodicalOpen (length periodical_pages));;
    acc ← expand_pages delay_s (length periodical_pages) 1 periodical_pages
                       (list_to_set links, links);
    ret (only_viewer_links (snd acc))
  else ret links.

(* ================================================================== *)
(** * The crawl (lines 800-926) *)
(* ================================================================== *)

(** The variables the page loop carries from one page to the next. *)
Record CrawlState := mkState {
  all_links : list str;
  seen : gset str;
  empty_streak : nat;
  no_new_streak : nat
}.

(** The view metadata the page loop uses (lines 813-832). *)
Record ViewInfo := mkView {
  view_name : str;
  view_display_id : str;
  view_dom_id : str;
  theme : option str;
  theme_token : option str
}.

(** [s.lstrip("/")] *)
Fixpoint lstrip_slash (s : str) : str :=
  match s with
  | c :: s' => if (c =? 47)%N then lstrip_slash s' else s
  | [] => []
  end.

(** Lines 813-835: the view metadata, completed from the bare category page
    when the display id or the DOM id is missing. *)
Definition resolve_view_info (tab : TabDef) (lang : str) (view_info : gmap str str)
  : M ViewInfo :=
  let name := py_or (view_info !! py "view_name") (Some (py "solr_searching")) in
  let display_id := py_or (view_info !! py "view_display_id") (Some []) in
  let dom_id := view_info !! py "view_dom_id" in
  let th := view_info !! py "theme" in
  let token := view_info !! py "theme_token" in
  v ← (if negb (truthy dom_id) || negb (truthy display_id) then
         boot ← fetch_html (BASE ++ path tab ++ py "?language=" ++ lang);
         let boot_info := parse_drupal_view_info boot in
         ret (mkView
           (str_of (py_or (py_or name (boot_info !! py "view_name"))
                          (Some (py "solr_searching"))))
           (str_of (py_or (py_or display_id (boot_info !! py "view_display_id"))
                          (Some [])))
           (str_of (py_or dom_id (boot_info !! py "view_dom_id")))
           (py_or th (boot_info !! py "theme"))
           (py_or token (boot_info !! py "theme_token")))
       else
         ret (mkView (str_of name) (str_of display_id) (str_of dom_id) th token));
  if negb (nonempty (view_dom_id v)) then
    raise (RuntimeError (py "Konnte view_dom_id nicht ermitteln."))
  else if negb (nonempty (view_display_id v)) then
    raise (RuntimeError (py "Konnte view_display_id nicht ermitteln."))
  else
    log_cb (LogDebugView (view_name v) (view_display_id v) (view_dom_id v));;
    ret v.

Section Pages.
Variables (tab : TabDef) (lang action_url : str) (exposed_items : list (str * str))
          (v : ViewInfo) (delay_s : Q).

(** Lines 850-874: the links of one page, by the direct GET, or by the
    asynchronous endpoint when the GET fails or gives no link. *)
Definition fetch_page_links (page : nat) (visible_url : str) : M (list str) :=
  page_links ← try_except (A := list str)
      (html ← fetch_html visible_url; ret (extract_links_from_html tab html))
      (fun _ => log_cb LogGetFailed;; ret []);
  if nonempty page_links then ret page_links
  else
    log_cb LogUseAjax;;
    frag ← drupal_views_ajax_fetch (view_name v) (view_display_id v) (view_dom_id v)
             (lstrip_slash (path tab)) page exposed_items (theme v) (theme_token v) lang;
    ret (extract_links_from_html tab frag).

(** Lines 876-907: what the links of a page do to the state of the loop. *)
Definition account_page (st : CrawlState) (page_links : list str) : M (flow CrawlState) :=
  if nonempty page_links then
    let '(seen', all_links') :=
      add_unseen (List.map strip_language_param page_links) (seen st) (all_links st) in
    let new_cnt := length all_links' - length (all_links st) in
    log_cb (LogHits (length page_links) new_cnt (length all_links'));;
    if new_cnt =? 0 then
      let no_new := S (no_new_streak st) in
      log_cb (LogNoNew no_new);;
      if 2 <=? no_new then ret (Break (mkState all_links' seen' 0 no_new))
      else
        sleep_if_positive delay_s;;
        ret (Next (mkState all_links' seen' 0 no_new))
    else
      sleep_if_positive delay_s;;
      ret (Next (mkState all_links' seen' 0 0))
  else
    let empty := S (empty_streak st) in
    log_cb (LogEmptyPage empty);;
    let st' := mkState (all_links st) (seen st) empty (no_new_streak st) in
    if 2 <=? empty then ret (Break st') else ret (Next st').

(** One iteration of [for page in range(max_pages)] (lines 843-907). *)
Definition crawl_page (page : nat) (st : CrawlState) : M (flow CrawlState) :=
  stop ← stop_flag;
  if (stop : bool) then ret (Break st) else
  let visible_url := build_visible_url action_url lang exposed_items page in
  log_cb (LogSearch page visible_url);;
  page_links ← fetch_page_links page visible_url;
  account_page st page_links.

Fixpoint crawl_pages (pages : list nat) (st : CrawlState) : M CrawlState :=
  match pages with
  | [] => ret st
  | page :: rest =>
      f ← crawl_page page st;
      match f with
      | Break st' => ret st'
      | Next st' => crawl_pages rest st'
      end
  end.

End Pages.

(** Lines 918-926. *)
Definition final_links (all_links : list str) : list str :=
  snd (add_unseen (List.map strip_language_param all_links) ∅ []).

Definition crawl_tab_links (tab : TabDef) (lang action_url : str)
    (exposed_items : list (str * str)) (view_info : gmap str str)
    (max_pages : Z) (delay_s : Q) : M (list str) :=
  v ← resolve_view_info tab lang view_info;
  st ← crawl_pages tab lang action_url exposed_items v delay_s
                   (seq 0 (Z.to_nat max_pages)) (mkState [] ∅ 0 0);
  links ← (if is_periodical tab
           then expand_periodicals_via_periodical_pages (all_links st) delay_s
           else ret (all_links st));
  ret (final_links links).

End Engine.

(* ================================================================== *)
(** * A reference instance of the library interface *)
(* ================================================================== *)

(** An executable instance of [Lib], used to run the engine on concrete
    inputs.  It follows CPython's [urllib.parse] ([urlsplit], [urlunsplit],
    [urljoin], [parse_qsl], [urlencode] with [quote_plus]) on URLs without
    leading blanks or control characters and without bracketed hosts; a
    percent-escape that is not well-formed UTF-8 decodes to U+FFFD byte by
    byte.  Anchors are read where they are written [<a href="...">] and the
    whole document is the result container; answers are taken not to be JSON
    and to carry no view metadata. *)
Module Reference.

(** [s.split(c, 1)] when [c] occurs in [s]. *)
Fixpoint split_first (c : N) (s : str) : option (str * str) :=
  match s with
  | [] => None
  | x :: s' =>
      if (x =? c)%N then Some ([], s')
      else match split_first c s' with
           | Some (a, b) => Some (x :: a, b)
           | None => None
           end
  end.

(** [s.split(c)] *)
Fixpoint split_on (c : N) (s : str) : list str :=
  match s with
  | [] => [[]]
  | x :: s' =>
      match split_on c s' with
      | first :: others => if (x =? c)%N then [] :: first :: others else (x :: first) :: others
      | [] => [[x]]
      end
  end.

(** The longest prefix without a character of [stop], and the rest. *)
Fixpoint break_at (stop : N → bool) (s : str) : str * str :=
  match s with
  | [] => ([], [])
  | x :: s' => if stop x then ([], s) else let '(a, b) := break_at stop s' in (x :: a, b)
  end.

Definition is_alpha (c : N) : bool :=
  (((65 <=? c) && (c <=? 90)) || ((97 <=? c) && (c <=? 122)))%N.
Definition is_digit (c : N) : bool := ((48 <=? c) && (c <=? 57))%N.
Definition scheme_char (c : N) : bool :=
  is_alpha c || is_digit c || (c =? 43)%N || (c =? 45)%N || (c =? 46)%N.

Definition uses_relative : list str :=
  List.map py ["";"ftp";"http";"gopher";"nntp";"imap";"wais";"file";"https";"shttp";
               "mms";"prospero";"rtsp";"rtspu";"sftp";"svn";"svn+ssh";"ws";"wss"]%string.
Definition uses_netloc : list str :=
  List.map py ["";"ftp";"http";"gopher";"nntp";"telnet";"imap";"wais";"file";"mms";
               "https";"shttp";"snews";"prospero";"rtsp";"rtspu";"rsync";"svn";
               "svn+ssh";"sftp";"nfs";"git";"git+ssh";"ws";"wss";"itms-services"]%string.
Definition uses_params : list str :=
  List.map py ["";"ftp";"hdl";"prospero";"http";"imap";"https";"shttp";"rtsp";
               "rtspu";"sip";"sips";"mms";"sftp";"tel"]%string.

Definition mem (x : str) (l : list str) : bool := bool_decide (x ∈ l).

(** [_splitparams] *)
Definition splitparams (url : str) : str * str :=
  match List.rev (split_on 47 url) with
  | last :: (_ :: _) as dirs =>
      match split_first 59 last with
      | Some (a, b) =>
          (List.fold_right (fun seg acc => seg ++ [47%N] ++ acc) a (List.rev dirs), b)
      | None => (url, [])
      end
  | _ =>
      match split_first 59 url with
      | Some (a, b) => (a, b)
      | None => (url, [])
      end
  end.

(** [urlparse(url, scheme)] *)
Definition urlparse_with (default_scheme url : str) : ParseResult :=
  let '(scheme, url) :=
    match split_first 58 url with
    | Some (pre, rest) =>
        match pre with
        | c :: _ => if is_alpha c && forallb scheme_char pre then (lower pre, rest)
                    else (default_scheme, url)
        | [] => (default_scheme, url)
        end
    | None => (default_scheme, url)
    end in
  let '(netloc, url) :=
    match url with
    | 47%N :: 47%N :: rest =>
        break_at (fun c => (c =? 47)%N || (c =? 63)%N || (c =? 35)%N) rest
    | _ => ([], url)
    end in
  let '(url, fragment) :=
    match split_first 35 url with Some (a, b) => (a, b) | None => (url, []) end in
  let '(url, query) :=
    match split_first 63 url with Some (a, b) => (a, b) | None => (url, []) end in
  let '(url, params) :=
    if mem scheme uses_params && contains [59%N] url then splitparams url else (url, []) in
  mkParse scheme netloc url params query fragment.

Definition urlparse (url : str) : ParseResult := urlparse_with [] url.

Definition urlunparse (p : ParseResult) : str :=
  let url := if nonempty (u_params p) then u_path p ++ [59%N] ++ u_params p else u_path p in
  let url :=
    if nonempty (u_netloc p) ||
       (nonempty (u_scheme p) && mem (u_scheme p) uses_netloc && negb (startswith url (py "//")))
    then py "//" ++ u_netloc p ++
         (if nonempty url && negb (startswith url (py "/")) then [47%N] ++ url else url)
    else url in
  let url := if nonempty (u_scheme p) then u_scheme p ++ [58%N] ++ url else url in
  let url := if nonempty (u_query p) then url ++ [63%N] ++ u_query p else url in
  if nonempty (u_fragment p) then url ++ [35%N] ++ u_fragment p else url.

(** The dot segments of [segments] resolved, as [urljoin] does. *)
Definition resolve_segments (segments : list str) : list str :=
  let resolved :=
    List.fold_left (fun acc seg =>
      if bool_decide (seg = py "..") then removelast acc
      else if bool_decide (seg = py ".") then acc
      else acc ++ [seg]) segments [] in
  match List.rev segments with
  | last :: _ => if bool_decide (last = py ".") || bool_decide (last = py "..")
                 then resolved ++ [[]] else resolved
  | [] => resolved
  end.

Fixpoint join_slash (parts : list str) : str :=
  match parts with
  | [] => []
  | [x] => x
  | x :: rest => x ++ [47%N] ++ join_slash rest
  end.

(** segments[1:-1] = filter(None, segments[1:-1]) *)
Definition drop_inner_empty (segments : list str) : list str :=
  match segments with
  | first :: rest =>
      match List.rev rest with
      | last :: inner => first :: List.filter nonempty (List.rev inner) ++ [last]
      | [] => segments
      end
  | [] => []
  end.

Definition urljoin (base url : str) : str :=
  if negb (nonempty base) then url
  else if negb (nonempty url) then base
  else
    let b := urlparse base in
    let u := urlparse_with (u_scheme b) url in
    if negb (bool_decide (u_scheme u = u_scheme b)) || negb (mem (u_scheme u) uses_relative)
    then url
    else if mem (u_scheme u) uses_netloc && nonempty (u_netloc u) then urlunparse u
    else
      let netloc := if mem (u_scheme u) uses_netloc then u_netloc b else u_netloc u in
      if negb (nonempty (u_path u)) && negb (nonempty (u_params u)) then
        urlunparse (mkParse (u_scheme u) netloc (u_path b) (u_params b)
                            (if nonempty (u_query u) then u_query u else u_query b)
                            (u_fragment u))
      else
        let base_parts :=
          match List.rev (split_on 47 (u_path b)) with
          | last :: before => if nonempty last then List.rev before else List.rev (last :: before)
          | [] => []
          end in
        let segments :=
          if startswith (u_path u) (py "/") then split_on 47 (u_path u)
          else drop_inner_empty (base_parts ++ split_on 47 (u_path u)) in
        let joined := join_slash (resolve_segments segments) in
        urlunparse (mkParse (u_scheme u) netloc (if nonempty joined then joined else [47%N])
                            (u_params u) (u_query u) (u_fragment u)).

(** Hexadecimal digits. *)
Definition hex_value (c : N) : option N :=
  if is_digit c then Some (c - 48)%N
  else if ((65 <=? c) && (c <=? 70))%N then Some (c - 55)%N
  else if ((97 <=? c) && (c <=? 102))%N then Some (c - 87)%N
  else None.

Definition hex_digit (n : N) : N := if (n <? 10)%N then (48 + n)%N else (55 + n)%N.

(** The bytes an ASCII run stands for ([unquote_to_bytes]). *)
Fixpoint unquote_to_bytes (s : str) : list N :=
  match s with
  | 37%N :: ((h :: (l :: rest)) as s') =>
      match hex_value h, hex_value l with
      | Some a, Some b => (16 * a + b)%N :: unquote_to_bytes rest
      | _, _ => 37%N :: unquote_to_bytes s'
      end
  | c :: s' => c :: unquote_to_bytes s'
  | [] => []
  end.

Definition is_cont (b : N) : bool := ((128 <=? b) && (b <=? 191))%N.

Definition valid_scalar (least cp : N) : bool :=
  ((least <=? cp) && (cp <=? 1114111) && negb ((55296 <=? cp) && (cp <=? 57343)))%N.

(** [bytes.decode("utf-8", "replace")] *)
Fixpoint utf8_decode (bs : list N) : str :=
  match bs with
  | [] => []
  | b0 :: r0 =>
      if (b0 <? 128)%N then b0 :: utf8_decode r0
      else
        let bad := 65533%N :: utf8_decode r0 in
        match r0 with
        | b1 :: r1 =>
            if negb (is_cont b1) then bad
            else if ((194 <=? b0) && (b0 <=? 223))%N then
              ((b0 - 192) * 64 + (b1 - 128))%N :: utf8_decode r1
            else
              match r1 with
              | b2 :: r2 =>
                  if negb (is_cont b2) then bad
                  else if ((224 <=? b0) && (b0 <=? 239))%N then
                    let cp := ((b0 - 224) * 4096 + (b1 - 128) * 64 + (b2 - 128))%N in
                    if valid_scalar 2048 cp then cp :: utf8_decode r2 else bad
                  else
                    match r2 with
                    | b3 :: r3 =>
                        if is_cont b3 && ((240 <=? b0) && (b0 <=? 244))%N then
                          let cp := ((b0 - 240) * 262144 + (b1 - 128) * 4096
                                     + (b2 - 128) * 64 + (b3 - 128))%N in
                          if valid_scalar 65536 cp then cp :: utf8_decode r3 else bad
                        else bad
                    | [] => bad
                    end
              | [] => bad
              end
        | [] => bad
        end
  end.

Definition utf8_encode (cp : N) : list N :=
  if (cp <? 128)%N then [cp]
  else if (cp <? 2048)%N then [192 + cp / 64; 128 + cp mod 64]%N
  else if (cp <? 65536)%N then [224 + cp / 4096; 128 + (cp / 64) mod 64; 128 + cp mod 64]%N
  else [240 + cp / 262144; 128 + (cp / 4096) mod 64; 128 + (cp / 64) mod 64; 128 + cp mod 64]%N.

(** The maximal ASCII run at the head of [s], and the rest. *)
Definition ascii_run (s : str) : str * str := break_at (fun c => (127 <? c)%N) s.

(** [unquote]: the ASCII runs are decoded, the other characters kept.
    [fuel] bounds the number of runs. *)
Fixpoint unquote_runs (fuel : nat) (s : str) : str :=
  match fuel with
  | O => s
  | S fuel' =>
      match s with
      | [] => []
      | c :: s' =>
          if (127 <? c)%N then c :: unquote_runs fuel' s'
          else let '(run, rest) := ascii_run s in
               utf8_decode (unquote_to_bytes run) ++ unquote_runs fuel' rest
      end
  end.

Definition unquote (s : str) : str :=
  if contains [37%N] s then unquote_runs (length s) s else s.

Definition plus_to_space (s : str) : str :=
  List.map (fun c => if (c =? 43)%N then 32%N else c) s.

Definition parse_qsl (qs : str) : list (str * str) :=
  omap (fun name_value =>
          if nonempty name_value then
            let '(name, value) :=
              match split_first 61 name_value with
              | Some (a, b) => (a, b)
              | None => (name_value, [])
              end in
            Some (unquote (plus_to_space name), unquote (plus_to_space value))
          else None)
       (split_on 38 qs).

Definition always_safe (c : N) : bool :=
  is_alpha c || is_digit c || (c =? 95)%N || (c =? 46)%N || (c =? 45)%N || (c =? 126)%N.

Definition quote_plus (s : str) : str :=
  flat_map (fun c =>
    if always_safe c then [c]
    else if (c =? 32)%N then [43%N]
    else flat_map (fun b => [37%N; hex_digit (b / 16); hex_digit (b mod 16)]) (utf8_encode c)) s.

Fixpoint join_amp (parts : list str) : str :=
  match parts with
  | [] => []
  | [x] => x
  | x :: rest => x ++ [38%N] ++ join_amp rest
  end.

Definition urlencode (items : list (str * str)) : str :=
  join_amp (List.map (fun kv => quote_plus (fst kv) ++ [61%N] ++ quote_plus (snd kv)) items).

(** A few of the decimal digits beyond ASCII: Arabic-Indic, extended
    Arabic-Indic, Devanagari and fullwidth. *)
Definition unicode_digit (c : N) : bool :=
  (((1632 <=? c) && (c <=? 1641)) || ((1776 <=? c) && (c <=? 1785)) ||
   ((2406 <=? c) && (c <=? 2415)) || ((65296 <=? c) && (c <=? 65305)))%N.

(** The value of each [<a href="...">], in document order. *)
Fixpoint anchor_hrefs_of (s : str) : list str :=
  match s with
  | [] => []
  | _ :: s' =>
      match strip_prefix (py "<a href=" ++ [34%N]) s with
      | Some rest => fst (break_at (fun c => (c =? 34)%N) rest) :: anchor_hrefs_of s'
      | None => anchor_hrefs_of s'
      end
  end.

#[export] Instance lib : Lib :=
  Build_Lib urlparse urlunparse urljoin parse_qsl urlencode unicode_digit
            (fun html => Some (anchor_hrefs_of html))
            (fun _ => None)
            (fun _ => ∅).

End Reference.

(* ================================================================== *)
(** * Vocabulary of the properties *)
(* ================================================================== *)

(** The items of [xs] that are not in [seen], each kept where it first
    occurs. *)
Fixpoint new_items (xs : list str) (seen : gset str) : list str :=
  match xs with
  | [] => []
  | x :: xs' =>
      if decide (x ∈ seen) then new_items xs' seen
      else x :: new_items xs' ({[x]} ∪ seen)
  end.

(** The position of the first occurrence of [x] in [xs]. *)
Fixpoint index_of (x : str) (xs : list str) : nat :=
  match xs with
  | [] => 0
  | y :: ys => if decide (x = y) then 0 else S (index_of x ys)
  end.

(** [l] lists the items of the stream [xs] without repetition, in the order
    in which the stream first shows them. *)
Definition first_seen_order (l xs : list str) : Prop :=
  NoDup l ∧
  (∀ x, x ∈ l ↔ x ∈ xs) ∧
  (∀ i j x y, l !! i = Some x → l !! j = Some y → i < j →
              index_of x xs < index_of y xs).


(** The state an iteration leaves. *)
Definition state_of {S} (f : flow S) : S :=
  match f with Next s => s | Break s => s end.

Definition is_break {S} (f : flow S) : bool :=
  match f with Break _ => true | Next _ => false end.

(** The page iterations a run went through: each one that passes the stop
    flag announces its GET once. *)
Definition searches (tr : list event) : list nat :=
  omap (fun e => match e with EvLog (LogSearch page _) => Some page | _ => None end) tr.

(** For each page a run accounted for, in order, the number of links it
    added: 0 for a page without links and for a page without new links. *)
Definition new_counts (tr : list event) : list nat :=
  omap (fun e => match e with
                 | EvLog (LogEmptyPage _) => Some 0
                 | EvLog (LogHits _ new_cnt _) => Some new_cnt
                 | _ => None
                 end) tr.

(** The delays a run took. *)
Definition sleeps (tr : list event) : list Q :=
  omap (fun e => match e with EvSleep d => Some d | _ => None end) tr.

(** The links found in the answers a run of the page loop received, in the
    order of the answers. *)
Definition discovered `{L : Lib} (tab : TabDef) (tr : list event) : list str :=
  flat_map (fun e => match e with
                     | EvGet _ (Some html) => extract_links_from_html tab html
                     | EvPost _ _ _ (Some text) => extract_links_from_html tab (ajax_fragment text)
                     | _ => []
                     end) tr.

(** ** What is asked of the URL library

    [strip_language_param] and [normalize_pf_link] take a URL apart with
    [urlparse] and [parse_qsl] and put it together again with [urlunparse]
    and [urlencode].  Their algebraic properties rest on the library giving
    back what it was given, at the URL in question. *)
Section Laws.
Context `{L : Lib}.









End Laws.

(** Closing goals about concrete inputs by evaluation. *)
Ltac run := vm_compute; reflexivity.

(* ================================================================== *)
(** * Properties of [add_unseen] *)
(* ================================================================== *)

Lemma add_unseen_eq xs : ∀ seen out,
  add_unseen xs seen out = (list_to_set xs ∪ seen, out ++ new_items xs seen).
Proof.
  induction xs as [|x xs IH]; intros seen out; simpl.
  - f_equal; [set_solver | by rewrite app_nil_r].
  - destruct (decide (x ∈ seen)) as [Hin|Hin]; rewrite IH.
    + f_equal. set_solver.
    + rewrite <- app_assoc. f_equal. set_solver.
Qed.

Lemma elem_of_new_items xs : ∀ seen x,
  x ∈ new_items xs seen ↔ x ∈ xs ∧ x ∉ seen.
Proof.
  induction xs as [|a xs IH]; intros seen x; simpl.
  - set_solver.
  - destruct (decide (a ∈ seen)).
    + rewrite IH. set_solver.
    + rewrite elem_of_cons, IH. destruct (decide (x = a)); set_solver.
Qed.

Lemma NoDup_new_items xs : ∀ seen, NoDup (new_items xs seen).
Proof.
  induction xs as [|a xs IH]; intros seen; simpl; [constructor|].
  destruct (decide (a ∈ seen)); [apply IH|].
  constructor; [|apply IH].
  rewrite elem_of_new_items. set_solver.
Qed.

Lemma new_items_app xs ys seen :
  new_items (xs ++ ys) seen = new_items xs seen ++ new_items ys (list_to_set xs ∪ seen).
Proof.
  revert seen. induction xs as [|a xs IH]; intros seen; simpl.
  - f_equal. set_solver.
  - destruct (decide (a ∈ seen)) as [Ha|Ha]; rewrite IH.
    + replace ({[a]} ∪ list_to_set xs ∪ seen) with (list_to_set xs ∪ seen :> gset _)
        by set_solver. done.
    + replace ({[a]} ∪ list_to_set xs ∪ seen)
        with (list_to_set xs ∪ ({[a]} ∪ seen) :> gset _) by set_solver. done.
Qed.

Lemma new_items_none xs seen :
  (∀ x, x ∈ xs → x ∈ seen) → new_items xs seen = [].
Proof.
  revert seen. induction xs as [|a xs IH]; intros seen H; simpl; [done|].
  destruct (decide (a ∈ seen)) as [|Hn]; [apply IH; set_solver|].
  destruct Hn. apply H. set_solver.
Qed.

Lemma new_items_nil_inv xs seen :
  new_items xs seen = [] → ∀ x, x ∈ xs → x ∈ seen.
Proof.
  intros H x Hx. destruct (decide (x ∈ seen)) as [|Hn]; [done|].
  assert (x ∈ new_items xs seen) as Hin by (apply elem_of_new_items; done).
  rewrite H in Hin. set_solver.
Qed.


Lemma NoDup_app_new_items out xs seen :
  NoDup out → (∀ x, x ∈ out → x ∈ seen) → NoDup (out ++ new_items xs seen).
Proof.
  intros Hnd Hsub. apply NoDup_app. split; [done|]. split; [|apply NoDup_new_items].
  intros x Hx Hx'. apply elem_of_new_items in Hx'. destruct Hx' as [_ Hx']. auto.
Qed.

Lemma index_of_cons_ne x a xs : x ≠ a → index_of x (a :: xs) = S (index_of x xs).
Proof. intros H. simpl. by destruct (decide (x = a)). Qed.

Lemma new_items_order xs : ∀ seen i j x y,
  new_items xs seen !! i = Some x → new_items xs seen !! j = Some y → i < j →
  index_of x xs < index_of y xs.
Proof.
  induction xs as [|a xs IH]; intros seen i j x y Hi Hj Hij; simpl in Hi, Hj; [done|].
  assert (Hne : ∀ k z S, a ∈ S → new_items xs S !! k = Some z → z ≠ a).
  { intros k z S HaS Hk Heq. subst z.
    apply list_elem_of_lookup_2 in Hk. apply elem_of_new_items in Hk. tauto. }
  destruct (decide (a ∈ seen)) as [HaS|HaS].
  - rewrite !index_of_cons_ne by eauto. apply -> Nat.succ_lt_mono. eauto.
  - destruct j as [|j]; [lia|]. simpl in Hj.
    assert (y ≠ a) by (eapply Hne; [|exact Hj]; set_solver).
    rewrite (index_of_cons_ne y) by done.
    destruct i as [|i]; simpl in Hi.
    + injection Hi as <-. simpl. destruct (decide (a = a)); [lia|done].
    + assert (x ≠ a) by (eapply Hne; [|exact Hi]; set_solver).
      rewrite index_of_cons_ne by done. apply -> Nat.succ_lt_mono.
      eapply IH; eauto. lia.
Qed.

Lemma first_seen_order_new_items xs : first_seen_order (new_items xs ∅) xs.
Proof.
  split; [apply NoDup_new_items|]. split.
  - intros x. rewrite elem_of_new_items. set_solver.
  - apply new_items_order.
Qed.

(* ================================================================== *)
(** * The default option *)
(* ================================================================== *)

Lemma first_value_none test opts :
  (∀ o, o ∈ opts → test o.1 o.2 = false) → first_value test opts = None.
Proof.
  induction opts as [|[lab val] opts IH]; intros H; simpl; [done|].
  assert (test lab val = false) as -> by (apply (H (lab, val)); set_solver).
  apply IH. intros o Ho. apply H. set_solver.
Qed.

Lemma first_value_first test pre lab val post :
  test lab val = true → (∀ o, o ∈ pre → test o.1 o.2 = false) →
  first_value test (pre ++ (lab, val) :: post) = Some val.
Proof.
  intros Ht. induction pre as [|[l v] pre IH]; intros H; simpl.
  - by rewrite Ht.
  - assert (test l v = false) as -> by (apply (H (l, v)); set_solver).
    apply IH. intros o Ho. apply H. set_solver.
Qed.

Lemma first_value_empty opts :
  (∃ o, o ∈ opts ∧ o.2 = []) → first_value value_is_empty opts = Some [].
Proof.
  intros (o & Ho & He). induction opts as [|[l v] opts IH]; [set_solver|]. simpl.
  unfold value_is_empty at 1. case_bool_decide as Hv; [by subst|].
  apply IH. apply elem_of_cons in Ho as [->|Ho]; [done|done].
Qed.

Lemma pick_default_option_cons l0 v0 rest :
  pick_default_option ((l0, v0) :: rest) =
  match first_value value_is_empty ((l0, v0) :: rest) with
  | Some v => v
  | None =>
      match first_value value_means_all ((l0, v0) :: rest) with
      | Some v => v
      | None =>
          match first_value label_means_all ((l0, v0) :: rest) with
          | Some v => v
          | None => v0
          end
      end
  end.
Proof. reflexivity. Qed.

(** C8.  The default of a non-empty option list follows a fixed precedence:
    an option with an empty value wins; else the first option whose value is
    "all" (in any case); else the first option whose label means "all"
    (contains "alle" or "vše", or is "all", in any case); else the first
    option.  The two lists of the specification give "" and "all". *)
Theorem pick_default_option_precedence :
  (∀ opts : list (str * str), opts ≠ [] →
     ((∃ o, o ∈ opts ∧ o.2 = []) → pick_default_option opts = []) ∧
     ((∀ o, o ∈ opts → o.2 ≠ []) →
        (∀ pre lab val post, opts = pre ++ (lab, val) :: post →
           value_means_all lab val = true →
           (∀ o, o ∈ pre → value_means_all o.1 o.2 = false) →
           pick_default_option opts = val) ∧
        ((∀ o, o ∈ opts → value_means_all o.1 o.2 = false) →
           (∀ pre lab val post, opts = pre ++ (lab, val) :: post →
              label_means_all lab val = true →
              (∀ o, o ∈ pre → label_means_all o.1 o.2 = false) →
              pick_default_option opts = val) ∧
           ((∀ o, o ∈ opts → label_means_all o.1 o.2 = false) →
              ∃ lab val rest, opts = (lab, val) :: rest ∧
                              pick_default_option opts = val)))) ∧
  pick_default_option [([], []); (py "All", py "all"); (py "Foo", py "1")] = [] ∧
  pick_default_option [([86; 353; 101]%N, py "all"); (py "Foo", py "1")] = py "all".
Proof.
  split; [|split; reflexivity].
  intros opts Hne. destruct opts as [|[l0 v0] rest]; [done|]. clear Hne.
  rewrite pick_default_option_cons.
  remember ((l0, v0) :: rest) as opts eqn:Eo.
  split.
  { intros He. by rewrite first_value_empty. }
  intros Hnoempty.
  assert (first_value value_is_empty opts = None) as ->.
  { apply first_value_none. intros o Ho. unfold value_is_empty.
    case_bool_decide; [|done]. by destruct (Hnoempty o Ho). }
  split.
  { intros pre lab val post Hsplit Hv Hpre.
    rewrite Hsplit. by rewrite first_value_first. }
  intros Hnoall.
  assert (first_value value_means_all opts = None) as -> by by apply first_value_none.
  split.
  { intros pre lab val post Hsplit Hv Hpre.
    rewrite Hsplit. by rewrite first_value_first. }
  intros Hnolab. exists l0, v0, rest. split; [done|].
  by rewrite first_value_none.
Qed.

Lemma pick_default_option_precedence_witness :
  pick_default_option [(py "Foo", py "1"); (py " Alle Orte", py "7")] = py "7".
Proof.
  destruct pick_default_option_precedence as [H _].
  destruct (H [(py "Foo", py "1"); (py " Alle Orte", py "7")]) as [_ H1]; [done|].
  destruct H1 as [_ H2].
  { intros o Ho. apply list_elem_of_In in Ho. simpl in Ho.
    destruct Ho as [<-|[<-|[]]]; done. }
  destruct H2 as [H3 _].
  { intros o Ho. apply list_elem_of_In in Ho. simpl in Ho.
    destruct Ho as [<-|[<-|[]]]; reflexivity. }
  apply (H3 [(py "Foo", py "1")] (py " Alle Orte") (py "7") []); [done|reflexivity|].
  intros o Ho. apply list_elem_of_In in Ho. simpl in Ho.
  destruct Ho as [<-|[]]; reflexivity.
Defined.

(* ================================================================== *)
(** * Text *)
(* ================================================================== *)

Lemma startswith_app pre s : startswith (pre ++ s) pre = true.
Proof. induction pre as [|c pre IH]; simpl; [done|]. by rewrite N.eqb_refl, IH. Qed.

Lemma startswith_inv s pre : startswith s pre = true → ∃ r, s = pre ++ r.
Proof.
  revert s. induction pre as [|c pre IH]; intros s H; simpl in *; [by exists s|].
  destruct s as [|x s]; [done|].
  apply andb_true_iff in H as [Hc Hs]. apply N.eqb_eq in Hc as ->.
  destruct (IH _ Hs) as [r ->]. by exists r.
Qed.

Lemma contains_startswith sub s : startswith s sub = true → contains sub s = true.
Proof. intros H. destruct s; simpl; by rewrite H. Qed.

Lemma contains_app sub a b : contains sub (a ++ sub ++ b) = true.
Proof.
  induction a as [|c a IH].
  - rewrite app_nil_l. apply contains_startswith, startswith_app.
  - simpl. rewrite IH. apply orb_true_r.
Qed.

Lemma strip_prefix_app pre s : strip_prefix pre (pre ++ s) = Some s.
Proof. induction pre as [|c pre IH]; simpl; [done|]. by rewrite N.eqb_refl. Qed.

Lemma strip_prefix_inv pre s r : strip_prefix pre s = Some r → s = pre ++ r.
Proof.
  revert s. induction pre as [|c pre IH]; intros s H; simpl in *; [congruence|].
  destruct s as [|x s]; [done|].
  destruct (N.eqb_spec c x) as [->|]; [|done]. f_equal. by apply IH.
Qed.

Lemma nonempty_true {A} (l : list A) : nonempty l = true ↔ l ≠ [].
Proof. by destruct l. Qed.

Lemma nonempty_false {A} (l : list A) : nonempty l = false ↔ l = [].
Proof. by destruct l. Qed.

(* ================================================================== *)
(** * Link extraction *)
(* ================================================================== *)

Section Extraction.
Context `{L : Lib}.

Lemma viewer_link_inj a b : viewer_link a = viewer_link b → a = b.
Proof. unfold viewer_link. intros H. by do 2 apply app_inv_head in H. Qed.


Lemma take_digits_all s : Forall (λ c, re_digit c = true) (take_digits s).
Proof.
  induction s as [|c s IH]; simpl; [constructor|].
  destruct (re_digit c) eqn:E; by constructor.
Qed.

Lemma take_digits_prefix s : ∃ r, s = take_digits s ++ r.
Proof.
  induction s as [|c s [r IH]]; simpl; [by exists []|].
  destruct (re_digit c); [|by eexists]. exists r. simpl. by f_equal.
Qed.


Lemma match_iipimage_inv s pid :
  match_iipimage s = Some pid →
  pid ≠ [] ∧ Forall (λ c, re_digit c = true) pid ∧ ∃ r, s = py "/iipimage/" ++ pid ++ r.
Proof.
  unfold match_iipimage. destruct (strip_prefix _ s) as [rest|] eqn:E; [|done].
  apply strip_prefix_inv in E as ->.
  pose proof (take_digits_all rest) as Hall.
  destruct (take_digits_prefix rest) as [r Hr].
  destruct (take_digits rest) as [|d ds] eqn:Ed; [done|].
  intros [= <-]. split; [done|]. split; [done|]. exists r. by rewrite Hr at 1.
Qed.


Lemma match_iipimage_occurrence d rest :
  re_digit d = true → match_iipimage (py "/iipimage/" ++ d :: rest) ≠ None.
Proof.
  intros Hd. unfold match_iipimage. rewrite strip_prefix_app. simpl. by rewrite Hd.
Qed.

(** An identifier is found exactly when the text shows "/iipimage/" followed
    by a digit. *)
Lemma findall_iipimage_occurrence s : ∀ skip,
  (∃ pre d rest, s = pre ++ py "/iipimage/" ++ d :: rest ∧ re_digit d = true ∧
                 skip ≤ length pre) →
  findall_iipimage skip s ≠ [].
Proof.
  induction s as [|c s IH]; intros skip (pre & d & rest & Hs & Hd & Hk).
  - by destruct pre.
  - destruct skip as [|k]; simpl findall_iipimage.
    + destruct (match_iipimage (c :: s)) eqn:E; [done|].
      destruct pre as [|x pre].
      * exfalso. revert E. rewrite Hs. by apply match_iipimage_occurrence.
      * apply IH. exists pre, d, rest. injection Hs as _ ->. split; [done|].
        split; [done|]. lia.
    + destruct pre as [|x pre]; [simpl in Hk; lia|].
      apply IH. exists pre, d, rest. injection Hs as _ ->. split; [done|].
      split; [done|]. simpl in Hk. lia.
Qed.

Lemma findall_iipimage_sound s : ∀ skip pid,
  pid ∈ findall_iipimage skip s →
  pid ≠ [] ∧ Forall (λ c, re_digit c = true) pid ∧
  ∃ pre rest, s = pre ++ py "/iipimage/" ++ pid ++ rest.
Proof.
  induction s as [|c s IH]; intros skip pid Hin; [by apply elem_of_nil in Hin|].
  assert (Hlater : ∀ k, pid ∈ findall_iipimage k s →
            pid ≠ [] ∧ Forall (λ c, re_digit c = true) pid ∧
            ∃ pre rest, c :: s = pre ++ py "/iipimage/" ++ pid ++ rest).
  { intros k Hk. destruct (IH _ _ Hk) as (? & ? & pre & rest & ->).
    split; [done|]. split; [done|]. by exists (c :: pre), rest. }
  destruct skip as [|k]; simpl findall_iipimage in Hin; [|eauto].
  destruct (match_iipimage (c :: s)) as [ds|] eqn:E; [|eauto].
  apply elem_of_cons in Hin as [->|Hin]; [|eauto].
  destruct (match_iipimage_inv _ _ E) as (? & ? & r & Hr).
  split; [done|]. split; [done|]. by exists [], r.
Qed.

Lemma extract_iipimage_ids_anywhere_eq text :
  extract_iipimage_ids_anywhere text = new_items (findall_iipimage 0 text) ∅.
Proof. unfold extract_iipimage_ids_anywhere. by rewrite add_unseen_eq. Qed.

Lemma extract_iipimage_ids_nonempty text :
  nonempty (extract_iipimage_ids_anywhere text) = nonempty (findall_iipimage 0 text).
Proof.
  rewrite extract_iipimage_ids_anywhere_eq.
  destruct (findall_iipimage 0 text) as [|x xs]; [done|]. simpl.
  by destruct (decide (x ∈ (∅ : gset str))) as [Hx|]; [apply not_elem_of_empty in Hx|].
Qed.


Lemma new_items_NoDup_id xs seen :
  NoDup xs → (∀ x, x ∈ xs → x ∉ seen) → new_items xs seen = xs.
Proof.
  revert seen. induction xs as [|a xs IH]; intros seen Hnd Hsub; simpl; [done|].
  apply NoDup_cons in Hnd as [Ha Hnd].
  destruct (decide (a ∈ seen)) as [Hin|_]; [destruct (Hsub a); set_solver|].
  f_equal. apply IH; [done|]. intros x Hx. specialize (Hsub x). set_solver.
Qed.

End Extraction.

Lemma findall_iipimage_ext (L L' : Lib) :
  (∀ c, @unicode_digit L' c = @unicode_digit L c) →
  ∀ s skip, @findall_iipimage L' skip s = @findall_iipimage L skip s.
Proof.
  intros Hd.
  assert (Ht : ∀ s, @take_digits L' s = @take_digits L s).
  { induction s as [|c s IH]; simpl; [done|]. unfold re_digit. by rewrite Hd, IH. }
  assert (Hm : ∀ s, @match_iipimage L' s = @match_iipimage L s).
  { intros s. unfold match_iipimage. destruct (strip_prefix _ s); [|done]. by rewrite Ht. }
  induction s as [|c s IH]; intros skip; simpl; [done|].
  destruct skip; [|done]. rewrite Hm. destruct (match_iipimage (c :: s)); by rewrite IH.
Qed.

(** C3.  For a category other than the periodical one that prefers viewer-only
    extraction, and a page whose text shows "/iipimage/" followed by a digit:
    the links returned are the canonical viewer links of the identifiers
    found, one per distinct identifier in the order the text first shows
    them, and the anchors of the page play no part (two libraries that agree
    on the digits give the same links, whatever their HTML parsers find). *)
Theorem extract_links_viewer_only (L : Lib) (tab : TabDef) (html : str) :
  is_periodical tab = false →
  prefer_iipimage_only_if_present tab = true →
  (∃ pre d rest, html = pre ++ py "/iipimage/" ++ d :: rest ∧ re_digit d = true) →
  let ids := extract_iipimage_ids_anywhere html in
  first_seen_order ids (findall_iipimage 0 html) ∧
  (∀ pid, pid ∈ ids →
     pid ≠ [] ∧ Forall (λ c, re_digit c = true) pid ∧
     ∃ pre rest, html = pre ++ py "/iipimage/" ++ pid ++ rest) ∧
  extract_links_from_html tab html = List.map viewer_link ids ∧
  NoDup (extract_links_from_html tab html) ∧
  length (extract_links_from_html tab html) = length ids ∧
  (∀ L' : Lib, (∀ c, @unicode_digit L' c = @unicode_digit L c) →
     @extract_links_from_html L' tab html = @extract_links_from_html L tab html).
Proof.
  intros Hper Honly (pre & d & rest & Hhtml & Hd) ids.
  assert (Hfound : findall_iipimage 0 html ≠ []).
  { apply findall_iipimage_occurrence. exists pre, d, rest. repeat split; [done..|lia]. }
  assert (Hids : ids = new_items (findall_iipimage 0 html) ∅)
    by apply extract_iipimage_ids_anywhere_eq.
  assert (Hout : ∀ L0 : Lib, (∀ c, @unicode_digit L0 c = @unicode_digit L c) →
            @extract_links_from_html L0 tab html = List.map viewer_link ids).
  { intros L0 HL0. unfold extract_links_from_html.
    rewrite extract_iipimage_ids_nonempty, extract_iipimage_ids_anywhere_eq.
    rewrite (findall_iipimage_ext L L0 HL0), Hper, Honly.
    apply nonempty_true in Hfound. rewrite Hfound. simpl.
    rewrite add_unseen_eq. simpl. rewrite <- Hids.
    apply new_items_NoDup_id; [|set_solver].
    apply NoDup_fmap_2; [intros a b; apply viewer_link_inj|].
    rewrite Hids. apply NoDup_new_items. }
  assert (Hmine := Hout L (λ _, eq_refl)).
  split; [rewrite Hids; apply first_seen_order_new_items|].
  split.
  { intros pid Hpid. rewrite Hids in Hpid. apply elem_of_new_items in Hpid as [Hpid _].
    by apply findall_iipimage_sound in Hpid. }
  split; [done|]. rewrite Hmine.
  split.
  { apply NoDup_fmap_2; [intros a b; apply viewer_link_inj|].
    rewrite Hids. apply NoDup_new_items. }
  split; [apply length_map|].
  intros L' HL'. by apply Hout.
Qed.

(** A page with an anchor and three occurrences of two identifiers. *)
Definition page_with_anchor : str :=
  py "<a href=" ++ [34%N] ++ py "/register/x" ++ [34%N] ++ py ">x</a> "
  ++ py "/iipimage/" ++ py "12 /iipimage/7x/iipimage/12".

Lemma extract_links_viewer_only_witness :
  @extract_links_from_html Reference.lib tab_register page_with_anchor
  = [py "https://www.portafontium.eu/iipimage/12";
     py "https://www.portafontium.eu/iipimage/7"] ∧
  NoDup (@extract_links_from_html Reference.lib tab_register page_with_anchor).
Proof.
  pose proof (extract_links_viewer_only Reference.lib tab_register page_with_anchor
                eq_refl eq_refl) as H.
  destruct H as (_ & _ & Hlinks & Hnodup & _).
  { exists (py "<a href=" ++ [34%N] ++ py "/register/x" ++ [34%N] ++ py ">x</a> "),
           49%N, (py "2 /iipimage/7x/iipimage/12").
    split; reflexivity. }
  split; [|exact Hnodup]. rewrite Hlinks. run.
Defined.


(* ================================================================== *)
(** * Normalisation *)
(* ================================================================== *)


Lemma TABS_allow_viewer tab :
  tab ∈ TABS → prefer_iipimage_root tab = true ∧ py "/iipimage/" ∈ allowed_prefixes tab.
Proof.
  intros H. apply list_elem_of_In in H. simpl in H.
  repeat (destruct H as [<-|H]; [split; [reflexivity|]; apply list_elem_of_In; simpl; tauto|]).
  done.
Qed.

Section Normalisation.
Context `{L : Lib}.










End Normalisation.



(* ================================================================== *)
(** * Runs of the page loop *)
(* ================================================================== *)

(** What [account_page] does, as a function of the state and the links of
    the page: the outcome of the iteration and the events it adds. *)
Definition accounted `{L : Lib} (delay_s : Q) (st : CrawlState) (page_links : list str)
  : flow CrawlState * list event :=
  let gain := new_items (List.map strip_language_param page_links) (seen st) in
  let all_links' := all_links st ++ gain in
  let seen' := list_to_set (List.map strip_language_param page_links) ∪ seen st in
  let nap := if positive_delay delay_s then [EvSleep delay_s] else [] in
  if nonempty page_links then
    let hits := EvLog (LogHits (length page_links) (length gain) (length all_links')) in
    if nonempty gain then (Next (mkState all_links' seen' 0 0), hits :: nap)
    else
      let no_new := S (no_new_streak st) in
      if 2 <=? no_new
      then (Break (mkState all_links' seen' 0 no_new), [hits; EvLog (LogNoNew no_new)])
      else (Next (mkState all_links' seen' 0 no_new), [hits; EvLog (LogNoNew no_new)] ++ nap)
  else
    let empty := S (empty_streak st) in
    let st' := mkState (all_links st) (seen st) empty (no_new_streak st) in
    (if 2 <=? empty then Break st' else Next st', [EvLog (LogEmptyPage empty)]).

(** What a page that was accounted for does to the streaks: [n] is the
    number of links it added, [brk] tells whether it ends the loop. *)
Inductive streak_step (st : CrawlState) : nat → CrawlState → bool → Prop :=
| step_empty st' :
    empty_streak st' = S (empty_streak st) → no_new_streak st' = no_new_streak st →
    streak_step st 0 st' (2 <=? S (empty_streak st))
| step_no_new st' :
    empty_streak st' = 0 → no_new_streak st' = S (no_new_streak st) →
    streak_step st 0 st' (2 <=? S (no_new_streak st))
| step_new n st' :
    0 < n → empty_streak st' = 0 → no_new_streak st' = 0 →
    streak_step st n st' false.

Lemma searches_app t1 t2 : searches (t1 ++ t2) = searches t1 ++ searches t2.
Proof. apply omap_app. Qed.

Lemma new_counts_app t1 t2 : new_counts (t1 ++ t2) = new_counts t1 ++ new_counts t2.
Proof. apply omap_app. Qed.


Lemma discovered_app `{L : Lib} tab t1 t2 :
  discovered tab (t1 ++ t2) = discovered tab t1 ++ discovered tab t2.
Proof. apply flat_map_app. Qed.

Section Runs.
Context `{L : Lib} (W : World).
Variables (tab : TabDef) (lang action_url : str) (exposed_items : list (str * str))
          (v : ViewInfo) (delay_s : Q).

Lemma account_page_eq st page_links h :
  account_page delay_s st page_links h
  = (Ok (accounted delay_s st page_links).1, (accounted delay_s st page_links).2).
Proof.
  unfold account_page, accounted.
  destruct (nonempty page_links) eqn:El.
  - rewrite add_unseen_eq.
    set (gain := new_items _ (seen st)).
    rewrite length_app, Nat.add_comm, Nat.add_sub.
    unfold mbind, M_bind, log_cb, ret, sleep_if_positive. cbn [fst snd].
    destruct gain as [|g gain]; cbn [length Nat.eqb nonempty].
    + destruct (2 <=? S (no_new_streak st)); cbn; by rewrite ?app_nil_r.
    + cbn. by rewrite ?app_nil_r.
  - unfold mbind, M_bind, log_cb, ret. cbn.
    by destruct (empty_streak st) as [|[|?]].
Qed.

(** The events of [fetch_page_links] up to the answer of the direct GET. *)
Definition get_events (url : str) (r : option str) : list event :=
  EvGet url r :: match r with Some _ => [] | None => [EvLog LogGetFailed] end.

Definition direct_links (r : option str) : list str :=
  match r with Some html => extract_links_from_html tab html | None => [] end.

Definition ajax_request (page : nat) : list (str * str) * list (str * str) :=
  (ajax_data_items (view_name v) (view_display_id v) (view_dom_id v)
                   (lstrip_slash (path tab)) page exposed_items (theme v) (theme_token v),
   ajax_headers (lstrip_slash (path tab)) lang).

Lemma fetch_page_links_eq page url h :
  fetch_page_links W tab lang exposed_items v page url h =
  let r := http_get W h url in
  if nonempty (direct_links r) then (Ok (direct_links r), get_events url r)
  else
    let '(data, headers) := ajax_request page in
    let r' := http_post W (h ++ get_events url r ++ [EvLog LogUseAjax])
                        (BASE ++ py "/views/ajax") data headers in
    (match r' with
     | Some text => Ok (extract_links_from_html tab (ajax_fragment text))
     | None => Raise FetchError
     end,
     get_events url r ++ [EvLog LogUseAjax; EvPost (BASE ++ py "/views/ajax") data headers r']).
Proof.
  unfold fetch_page_links, drupal_views_ajax_fetch, ajax_request, direct_links, get_events.
  unfold try_except, mbind, M_bind, fetch_html, post_form, log_cb, ret.
  destruct (http_get W h url) as [html|] eqn:Eg; cbn.
  - destruct (nonempty (extract_links_from_html tab html)); cbn; [done|].
    rewrite <- !app_assoc. cbn.
    by destruct (http_post W _ _ _ _).
  - rewrite <- !app_assoc. cbn.
    by destruct (http_post W _ _ _ _).
Qed.

(** The events that open an iteration which passes the stop flag. *)
Definition page_prefix (page : nat) : list event :=
  [EvStopFlag false;
   EvLog (LogSearch page (build_visible_url action_url lang exposed_items page))].

Lemma crawl_page_eq page st h :
  crawl_page W tab lang action_url exposed_items v delay_s page st h =
  if stop_requested W h then (Ok (Break st), [EvStopFlag true])
  else
    match fetch_page_links W tab lang exposed_items v page
            (build_visible_url action_url lang exposed_items page) (h ++ page_prefix page) with
    | (Ok page_links, t) =>
        (Ok (accounted delay_s st page_links).1,
         page_prefix page ++ t ++ (accounted delay_s st page_links).2)
    | (Raise e, t) => (Raise e, page_prefix page ++ t)
    end.
Proof.
  unfold crawl_page, page_prefix, mbind, M_bind, stop_flag, log_cb, ret.
  destruct (stop_requested W h); cbn; [done|].
  rewrite <- !app_assoc. cbn.
  destruct (fetch_page_links _ _ _ _ _ _ _ _) as [[links|e] t]; cbn; [|done].
  by rewrite account_page_eq.
Qed.

Lemma crawl_pages_cons page rest st h :
  crawl_pages W tab lang action_url exposed_items v delay_s (page :: rest) st h =
  match crawl_page W tab lang action_url exposed_items v delay_s page st h with
  | (Ok (Break st'), t) => (Ok st', t)
  | (Ok (Next st'), t) =>
      let '(r, t') := crawl_pages W tab lang action_url exposed_items v delay_s rest st'
                                  (h ++ t) in
      (r, t ++ t')
  | (Raise e, t) => (Raise e, t)
  end.
Proof.
  cbn [crawl_pages]. unfold mbind, M_bind, ret.
  destruct (crawl_page _ _ _ _ _ _ _ _ _ _) as [[[st'|st']|e] t]; cbn; [done| |done].
  by rewrite app_nil_r.
Qed.

(** The three ways an iteration can go. *)
Lemma crawl_page_inv page st h r t :
  crawl_page W tab lang action_url exposed_items v delay_s page st h = (r, t) →
  (stop_requested W h = true ∧ r = Ok (Break st) ∧ t = [EvStopFlag true])
  ∨ (stop_requested W h = false ∧
     ∃ e tf, fetch_page_links W tab lang exposed_items v page
               (build_visible_url action_url lang exposed_items page)
               (h ++ page_prefix page) = (Raise e, tf) ∧
             r = Raise e ∧ t = page_prefix page ++ tf)
  ∨ (stop_requested W h = false ∧
     ∃ page_links tf, fetch_page_links W tab lang exposed_items v page
               (build_visible_url action_url lang exposed_items page)
               (h ++ page_prefix page) = (Ok page_links, tf) ∧
             r = Ok (accounted delay_s st page_links).1 ∧
             t = page_prefix page ++ tf ++ (accounted delay_s st page_links).2).
Proof.
  rewrite crawl_page_eq. destruct (stop_requested W h); [intros [= <- <-]; by left|].
  destruct (fetch_page_links _ _ _ _ _ _ _ _) as [[links|e] tf]; intros [= <- <-].
  - right. right. split; [done|]. by exists links, tf.
  - right. left. split; [done|]. by exists e, tf.
Qed.

(** What the events of [fetch_page_links] show. *)
Lemma fetch_page_links_obs page url h r t :
  fetch_page_links W tab lang exposed_items v page url h = (r, t) →
  searches t = [] ∧ new_counts t = [] ∧ sleeps t = [] ∧
  match r with
  | Ok page_links => discovered tab t = page_links
  | Raise e =>
      e = FetchError ∧
      ∃ before, t = before ++ [EvPost (BASE ++ py "/views/ajax") (ajax_request page).1
                                      (ajax_request page).2 None]
  end.
Proof.
  rewrite fetch_page_links_eq. cbv zeta.
  destruct (nonempty (direct_links (http_get W h url))) eqn:Ed.
  - intros [= <- <-]. destruct (http_get W h url); [|done].
    cbn. by rewrite app_nil_r.
  - destruct (ajax_request page) as [data headers] eqn:Ea. cbn [fst snd].
    apply nonempty_false in Ed.
    destruct (http_post W _ _ _ _) as [text|]; intros [= <- <-].
    + destruct (http_get W h url); cbn in *; by rewrite ?Ed, ?app_nil_r.
    + repeat split; try by destruct (http_get W h url).
      exists (get_events url (http_get W h url) ++ [EvLog LogUseAjax]).
      by rewrite <- app_assoc.
Qed.

Lemma accounted_obs st page_links :
  let gain := new_items (List.map strip_language_param page_links) (seen st) in
  let f := (accounted delay_s st page_links).1 in
  let evs := (accounted delay_s st page_links).2 in
  searches evs = [] ∧ discovered tab evs = [] ∧ new_counts evs = [length gain] ∧
  all_links (state_of f) = all_links st ++ gain ∧
  seen (state_of f) = list_to_set (List.map strip_language_param page_links) ∪ seen st ∧
  streak_step st (length gain) (state_of f) (is_break f).
Proof.
  unfold accounted. cbv zeta.
  destruct page_links as [|u us]; cbn [nonempty].
  - cbn [List.map new_items length]. rewrite app_nil_r.
    assert (∀ b : bool, state_of (if b then Break (mkState (all_links st) (seen st)
                    (S (empty_streak st)) (no_new_streak st))
                  else Next (mkState (all_links st) (seen st)
                    (S (empty_streak st)) (no_new_streak st)))
                = mkState (all_links st) (seen st) (S (empty_streak st)) (no_new_streak st))
      as Hst by (by intros []).
    assert (∀ (b : bool) (s : CrawlState), is_break (if b then Break s else Next s) = b)
      as Hbrk by (by intros []).
    cbn [fst snd]. rewrite Hst, Hbrk. repeat split; try done; [set_solver|].
    by apply step_empty.
  - destruct (new_items _ (seen st)) as [|g gain] eqn:Eg; cbn [nonempty].
    + rewrite app_nil_r.
      destruct (2 <=? S (no_new_streak st)) eqn:E2; cbn [fst snd state_of is_break];
        repeat split; try done; try (by destruct (positive_delay delay_s));
        rewrite <- E2; by apply step_no_new.
    + cbn [fst snd state_of is_break].
      repeat split; try done; try (by destruct (positive_delay delay_s)).
      apply step_new; [cbn; lia|done..].
Qed.

(** How a run of the loop over [page :: rest] begins, as far as the pages it
    accounts for are concerned. *)
Lemma crawl_pages_counts_inv page rest st h r tr :
  crawl_pages W tab lang action_url exposed_items v delay_s (page :: rest) st h = (r, tr) →
  new_counts tr = [] ∨
  ∃ n st' brk, streak_step st n st' brk ∧
    if brk then new_counts tr = [n]
    else ∃ h' r' tr',
           crawl_pages W tab lang action_url exposed_items v delay_s rest st' h' = (r', tr') ∧
           new_counts tr = n :: new_counts tr'.
Proof.
  rewrite crawl_pages_cons.
  destruct (crawl_page _ _ _ _ _ _ _ _ _ _) as [r1 t] eqn:E1.
  destruct (crawl_page_inv _ _ _ _ _ E1) as
    [(_ & -> & ->)|[(_ & e & tf & Hf & -> & ->)|(_ & links & tf & Hf & -> & ->)]].
  - intros [<- <-]%pair_equal_spec. by left.
  - intros [<- <-]%pair_equal_spec. left.
    destruct (fetch_page_links_obs _ _ _ _ _ Hf) as (_ & Hc & _).
    by rewrite new_counts_app, Hc.
  - destruct (fetch_page_links_obs _ _ _ _ _ Hf) as (_ & Hc & _).
    destruct (accounted_obs st links) as (_ & _ & Hn & _ & _ & Hstep).
    set (gain := new_items _ _) in *.
    assert (Hcount : new_counts (page_prefix page ++ tf ++ (accounted delay_s st links).2)
                     = [length gain]).
    { by rewrite !new_counts_app, Hc, Hn. }
    intros Hrun. right.
    exists (length gain), (state_of (accounted delay_s st links).1),
           (is_break (accounted delay_s st links).1).
    split; [done|].
    destruct (accounted delay_s st links).1 as [st'|st']; cbn [is_break state_of] in *.
    + destruct (crawl_pages _ _ _ _ _ _ _ rest st' _) as [r' tr'] eqn:E2.
      apply pair_equal_spec in Hrun as [<- <-]. eexists _, r', tr'. split; [exact E2|].
      by rewrite new_counts_app, Hcount.
    + by apply pair_equal_spec in Hrun as [<- <-].
Qed.

(** Once the no-new streak stands at one, pages without new links end the
    loop after at most two of them, and after one when the empty streak
    stands at one as well. *)
Lemma crawl_pages_tail pages : ∀ st h r tr,
  crawl_pages W tab lang action_url exposed_items v delay_s pages st h = (r, tr) →
  Forall (eq 0) (new_counts tr) →
  1 ≤ no_new_streak st →
  length (new_counts tr) ≤ (if 1 <=? empty_streak st then 1 else 2).
Proof.
  induction pages as [|page rest IH]; intros st h r tr Hrun Hzero Hns.
  { apply pair_equal_spec in Hrun as [<- <-]. destruct (1 <=? _); cbn; lia. }
  destruct (crawl_pages_counts_inv _ _ _ _ _ _ Hrun) as [->|(n & st' & brk & Hstep & Hrest)].
  { destruct (1 <=? _); cbn; lia. }
  destruct Hstep as [st' Hes Hnn|st' Hes Hnn|n st' Hpos Hes Hnn].
  - destruct (empty_streak st) as [|es] eqn:Ees; cbn [Nat.leb] in *.
    + destruct Hrest as (h' & r' & tr' & Hrun' & E). rewrite E in Hzero |- *.
      apply Forall_cons in Hzero as [_ Hzero].
      specialize (IH _ _ _ _ Hrun' Hzero). rewrite Hes, Hnn in IH. cbn in IH |- *.
      specialize (IH Hns). lia.
    + rewrite Hrest. cbn. lia.
  - destruct (no_new_streak st) as [|ns] eqn:Ens; [lia|]. cbn [Nat.leb] in Hrest.
    rewrite Hrest. destruct (1 <=? _); cbn; lia.
  - destruct Hrest as (h' & r' & tr' & _ & E). rewrite E in Hzero.
    apply Forall_cons in Hzero as [Hz _]. lia.
Qed.

Lemma crawl_pages_after_one pages st h r tr l2 :
  crawl_pages W tab lang action_url exposed_items v delay_s pages st h = (r, tr) →
  new_counts tr = 0 :: l2 → Forall (eq 0) l2 →
  1 ≤ empty_streak st ∨ 1 ≤ no_new_streak st →
  length l2 ≤ 2.
Proof.
  destruct pages as [|page rest]; intros Hrun Hcounts Hzero Hstreak.
  { apply pair_equal_spec in Hrun as [<- <-]. done. }
  destruct (crawl_pages_counts_inv _ _ _ _ _ _ Hrun) as [E|(n & st' & brk & Hstep & Hrest)].
  { by rewrite E in Hcounts. }
  destruct Hstep as [st' Hes Hnn|st' Hes Hnn|n st' Hpos Hes Hnn].
  - destruct (empty_streak st) as [|es] eqn:Ees; cbn [Nat.leb] in *.
    + destruct Hrest as (h' & r' & tr' & Hrun' & E). rewrite E in Hcounts.
      injection Hcounts as <-.
      pose proof (crawl_pages_tail _ _ _ _ _ Hrun' Hzero) as Htail.
      rewrite Hes, Hnn in Htail. cbn in Htail. destruct Hstreak; [lia|]. specialize (Htail H). lia.
    + rewrite Hrest in Hcounts. injection Hcounts as <-. cbn. lia.
  - destruct (no_new_streak st) as [|ns] eqn:Ens; cbn [Nat.leb] in *.
    + destruct Hrest as (h' & r' & tr' & Hrun' & E). rewrite E in Hcounts.
      injection Hcounts as <-.
      pose proof (crawl_pages_tail _ _ _ _ _ Hrun' Hzero) as Htail.
      rewrite Hes, Hnn in Htail. cbn in Htail. lia.
    + rewrite Hrest in Hcounts. injection Hcounts as <-. cbn. lia.
  - destruct Hrest as (h' & r' & tr' & _ & E). rewrite E in Hcounts.
    injection Hcounts as -> _. lia.
Qed.

(** Two pages in a row without a new link, and none with a new link after
    them: at most two more pages are accounted for. *)
Lemma crawl_pages_two_in_a_row pages : ∀ st h r tr l1 l2,
  crawl_pages W tab lang action_url exposed_items v delay_s pages st h = (r, tr) →
  new_counts tr = l1 ++ 0 :: 0 :: l2 → Forall (eq 0) l2 →
  length l2 ≤ 2.
Proof.
  induction pages as [|page rest IH]; intros st h r tr l1 l2 Hrun Hcounts Hzero.
  { apply pair_equal_spec in Hrun as [<- <-]. by destruct l1. }
  destruct (crawl_pages_counts_inv _ _ _ _ _ _ Hrun) as [E|(n & st' & brk & Hstep & Hrest)].
  { rewrite E in Hcounts. by destruct l1. }
  destruct l1 as [|x l1]; cbn [app] in Hcounts.
  - assert (Hnext : ∃ h' r' tr',
              crawl_pages W tab lang action_url exposed_items v delay_s rest st' h' = (r', tr') ∧
              new_counts tr' = 0 :: l2 ∧ n = 0).
    { destruct brk.
      - rewrite Hrest in Hcounts. done.
      - destruct Hrest as (h' & r' & tr' & Hrun' & E). rewrite E in Hcounts.
        injection Hcounts as -> E'. by exists h', r', tr'. }
    destruct Hnext as (h' & r' & tr' & Hrun' & Hcounts' & ->).
    apply (crawl_pages_after_one _ _ _ _ _ _ Hrun' Hcounts' Hzero).
    inversion Hstep; lia.
  - destruct brk.
    + rewrite Hrest in Hcounts. injection Hcounts as _ E. by destruct l1.
    + destruct Hrest as (h' & r' & tr' & Hrun' & E). rewrite E in Hcounts.
      injection Hcounts as _ E'. by apply (IH _ _ _ _ _ _ Hrun' E').
Qed.

(** The pages a run goes through are the first pages of the list, in order. *)
Lemma crawl_pages_searches pages : ∀ st h r tr,
  crawl_pages W tab lang action_url exposed_items v delay_s pages st h = (r, tr) →
  searches tr `prefix_of` pages.
Proof.
  induction pages as [|page rest IH]; intros st h r tr Hrun.
  { by apply pair_equal_spec in Hrun as [<- <-]. }
  rewrite crawl_pages_cons in Hrun.
  destruct (crawl_page _ _ _ _ _ _ _ _ _ _) as [r1 t] eqn:E1.
  assert (Ht : (searches t = [] ∧ r1 = Ok (Break st)) ∨ searches t = [page]).
  { destruct (crawl_page_inv _ _ _ _ _ E1) as
      [(_ & -> & ->)|[(_ & e & tf & Hf & -> & ->)|(_ & links & tf & Hf & -> & ->)]].
    - by left.
    - right. destruct (fetch_page_links_obs _ _ _ _ _ Hf) as (Hs & _).
      by rewrite searches_app, Hs.
    - right. destruct (fetch_page_links_obs _ _ _ _ _ Hf) as (Hs & _).
      destruct (accounted_obs st links) as (Hs' & _).
      by rewrite !searches_app, Hs, Hs'. }
  destruct Ht as [[Ht ->]|Ht].
  { apply pair_equal_spec in Hrun as [<- <-]. rewrite Ht. apply prefix_nil. }
  destruct r1 as [[st'|st']|e].
  - destruct (crawl_pages _ _ _ _ _ _ _ rest st' _) as [r' tr'] eqn:E2.
    apply pair_equal_spec in Hrun as [<- <-]. specialize (IH _ _ _ _ E2).
    rewrite searches_app, Ht. by apply prefix_cons.
  - apply pair_equal_spec in Hrun as [<- <-]. rewrite Ht. apply prefix_cons, prefix_nil.
  - apply pair_equal_spec in Hrun as [<- <-]. rewrite Ht. apply prefix_cons, prefix_nil.
Qed.

End Runs.

(* ================================================================== *)
(** * Runs of the periodical expansion *)
(* ================================================================== *)

(** The identifiers found in the container pages a run fetched, in the order
    of the answers. *)
Definition expanded_ids `{L : Lib} (tr : list event) : list str :=
  flat_map (fun e => match e with
                     | EvGet _ (Some html) => extract_iipimage_ids_anywhere html
                     | _ => []
                     end) tr.


Lemma expanded_ids_app `{L : Lib} t1 t2 :
  expanded_ids (t1 ++ t2) = expanded_ids t1 ++ expanded_ids t2.
Proof. apply flat_map_app. Qed.

(** The events of [if delay_s > 0: time.sleep(delay_s)]. *)
Definition nap (delay_s : Q) : list event :=
  if positive_delay delay_s then [EvSleep delay_s] else [].

Section Expansion.
Context `{L : Lib} (W : World).
Variable delay_s : Q.

Definition progress_events (n idx new_cnt total : nat) : list event :=
  if progress_due idx n
  then [EvLog (LogPeriodicalProgress idx n new_cnt total)] else [].

Lemma expand_page_eq n idx purl acc h :
  expand_page W delay_s n idx purl acc h =
  if stop_requested W h then (Ok (Break acc), [EvStopFlag true])
  else
    match http_get W (h ++ [EvStopFlag false]) purl with
    | None =>
        (Ok (Next acc),
         [EvStopFlag false; EvGet purl None; EvLog (LogPeriodicalFailed idx n purl)])
    | Some html =>
        let acc' :=
          add_unseen (List.map (fun pid => strip_language_param (viewer_link pid))
                               (extract_iipimage_ids_anywhere html)) acc.1 acc.2 in
        (Ok (Next acc'),
         [EvStopFlag false; EvGet purl (Some html)]
         ++ progress_events n idx (length acc'.2 - length acc.2) (length acc'.2) ++ nap delay_s)
    end.
Proof.
  unfold expand_page, progress_events, nap.
  unfold try_except, mbind, M_bind, stop_flag, fetch_html, log_cb, ret, sleep_if_positive.
  destruct (stop_requested W h); cbn; [done|].
  destruct (http_get W _ purl) as [html|]; cbn; [|done].
  destruct acc as [out_set out_list]. cbn [fst snd].
  destruct (add_unseen _ out_set out_list) as [S' out'] eqn:Ea. cbn [fst snd].
  destruct (progress_due idx n); cbn; destruct (positive_delay delay_s); cbn; done.
Qed.

Lemma expand_pages_run pages : ∀ n idx out_set out_list h,
  ∃ tr, expand_pages W delay_s n idx pages (out_set, out_list) h
        = (Ok (list_to_set (List.map (fun pid => strip_language_param (viewer_link pid))
                                     (expanded_ids tr)) ∪ out_set,
               out_list ++ new_items (List.map (fun pid => strip_language_param (viewer_link pid))
                                               (expanded_ids tr)) out_set), tr)
        ∧ searches tr = [] ∧ new_counts tr = [].
Proof.
  induction pages as [|purl rest IH]; intros n idx out_set out_list h.
  { exists []. cbn. rewrite app_nil_r.
    by replace (∅ ∪ out_set) with out_set by set_solver. }
  cbn [expand_pages]. unfold mbind, M_bind. rewrite expand_page_eq.
  destruct (stop_requested W h).
  { exists [EvStopFlag true]. cbn. rewrite app_nil_r.
    by replace (∅ ∪ out_set) with out_set by set_solver. }
  destruct (http_get W _ purl) as [html|].
  - cbv zeta. cbn [fst snd]. rewrite add_unseen_eq. cbn [fst snd].
    set (t1 := [EvStopFlag false; EvGet purl (Some html)] ++ _).
    set (news := List.map _ (extract_iipimage_ids_anywhere html)).
    destruct (IH n (S idx) (list_to_set news ∪ out_set) (out_list ++ new_items news out_set)
                 (h ++ t1)) as (tr & -> & Hs & Hc).
    exists (t1 ++ tr).
    assert (Hids : expanded_ids t1 = extract_iipimage_ids_anywhere html).
    { subst t1. rewrite expanded_ids_app. cbn. rewrite app_nil_r.
      unfold progress_events, nap.
      destruct (progress_due idx n); destruct (positive_delay delay_s); cbn;
        by rewrite ?app_nil_r. }
    assert (Hquiet : searches t1 = [] ∧ new_counts t1 = []).
    { subst t1. unfold progress_events, nap.
      destruct (progress_due idx n); destruct (positive_delay delay_s); by cbn. }
    destruct Hquiet as [Hs1 Hc1].
    rewrite searches_app, new_counts_app, Hs, Hc, Hs1, Hc1.
    split; [|done]. f_equal. rewrite expanded_ids_app, Hids, List.map_app.
    fold news. rewrite new_items_app, <- app_assoc, list_to_set_app_L.
    by replace (list_to_set news ∪ list_to_set (List.map (λ pid, strip_language_param (viewer_link pid)) (expanded_ids tr)) ∪ out_set)
      with (list_to_set (List.map (λ pid, strip_language_param (viewer_link pid)) (expanded_ids tr)) ∪ (list_to_set news ∪ out_set)) by set_solver.
  - set (t1 := [EvStopFlag false; EvGet purl None; _]).
    destruct (IH n (S idx) out_set out_list (h ++ t1)) as (tr & -> & Hs & Hc).
    exists (t1 ++ tr). rewrite searches_app, new_counts_app, Hs, Hc.
    split; [|done]. by rewrite expanded_ids_app.
Qed.

(** The expansion never raises; without a container link it does nothing,
    and with one it returns the normalised viewer links of the input and of
    the pages it fetched. *)
Lemma expand_periodicals_run links h :
  ∃ out tr,
    expand_periodicals_via_periodical_pages W links delay_s h = (Ok out, tr) ∧
    searches tr = [] ∧ new_counts tr = [] ∧
    if nonempty (List.filter is_container links)
    then out = only_viewer_links
                 (links ++ new_items (List.map (fun pid => strip_language_param (viewer_link pid))
                                               (expanded_ids tr)) (list_to_set links))
    else out = links ∧ tr = [].
Proof.
  unfold expand_periodicals_via_periodical_pages.
  destruct (nonempty (List.filter is_container links)) eqn:En.
  - unfold mbind, M_bind, log_cb, ret. cbn [app].
    set (n := length _). set (h1 := h ++ _).
    destruct (expand_pages_run (List.filter is_container links) n 1 (list_to_set links) links h1)
      as (tr & -> & Hs & Hc).
    cbn [snd]. eexists _, _. split; [reflexivity|].
    rewrite app_nil_r.
    change (EvLog (LogPeriodicalOpen n) :: tr) with ([EvLog (LogPeriodicalOpen n)] ++ tr).
    by rewrite searches_app, new_counts_app, expanded_ids_app, Hs, Hc.
  - by exists links, [].
Qed.

End Expansion.

(* ================================================================== *)
(** * Runs of the crawl *)
(* ================================================================== *)

Section Crawl.
Context `{L : Lib} (W : World).

Lemma resolve_view_info_obs tab lang view_info h r t :
  resolve_view_info W tab lang view_info h = (r, t) →
  searches t = [] ∧ new_counts t = [].
Proof.
  unfold resolve_view_info, mbind, M_bind, fetch_html, raise, log_cb, ret.
  repeat match goal with
         | |- context [if ?b then _ else _] => destruct b
         | |- context [match http_get ?w ?h ?u with _ => _ end] => destruct (http_get w h u)
         end; cbn; intros [<- <-]%pair_equal_spec; done.
Qed.

(** The crawl, stage by stage. *)
Lemma crawl_tab_links_eq tab lang action_url exposed_items view_info max_pages delay_s h :
  crawl_tab_links W tab lang action_url exposed_items view_info max_pages delay_s h =
  match resolve_view_info W tab lang view_info h with
  | (Raise e, t0) => (Raise e, t0)
  | (Ok v, t0) =>
      match crawl_pages W tab lang action_url exposed_items v delay_s
                        (seq 0 (Z.to_nat max_pages)) (mkState [] ∅ 0 0) (h ++ t0) with
      | (Raise e, t1) => (Raise e, t0 ++ t1)
      | (Ok st, t1) =>
          if is_periodical tab then
            match expand_periodicals_via_periodical_pages W (all_links st) delay_s
                    (h ++ t0 ++ t1) with
            | (Ok links, t2) => (Ok (final_links links), t0 ++ t1 ++ t2)
            | (Raise e, t2) => (Raise e, t0 ++ t1 ++ t2)
            end
          else (Ok (final_links (all_links st)), t0 ++ t1)
      end
  end.
Proof.
  unfold crawl_tab_links, mbind, M_bind.
  destruct (resolve_view_info W tab lang view_info h) as [[v|e] t0]; [|done].
  destruct (crawl_pages _ _ _ _ _ _ _ _ _ _) as [[st|e] t1]; [|done].
  rewrite <- app_assoc.
  destruct (is_periodical tab).
  - destruct (expand_periodicals_via_periodical_pages _ _ _ _) as [[links|e] t2]; [|done].
    unfold ret. by rewrite app_nil_r.
  - unfold ret. cbn. by rewrite !app_nil_r.
Qed.

(** What the trace of a crawl shows of its page loop. *)
Lemma crawl_tab_links_loop tab lang action_url exposed_items view_info max_pages delay_s h :
  let tr := (crawl_tab_links W tab lang action_url exposed_items view_info
                             max_pages delay_s h).2 in
  (searches tr = [] ∧ new_counts tr = []) ∨
  ∃ v h' r' tr',
    crawl_pages W tab lang action_url exposed_items v delay_s
                (seq 0 (Z.to_nat max_pages)) (mkState [] ∅ 0 0) h' = (r', tr') ∧
    searches tr = searches tr' ∧ new_counts tr = new_counts tr'.
Proof.
  cbv zeta. rewrite crawl_tab_links_eq.
  destruct (resolve_view_info W tab lang view_info h) as [[v|e] t0] eqn:Ev;
    destruct (resolve_view_info_obs _ _ _ _ _ _ Ev) as [Hs0 Hc0]; [|by left].
  destruct (crawl_pages _ _ _ _ _ _ _ _ _ _) as [[st|e] t1] eqn:Ep; right.
  - exists v, (h ++ t0), (Ok st), t1. split; [done|].
    destruct (is_periodical tab).
    + destruct (expand_periodicals_run W delay_s (all_links st) (h ++ t0 ++ t1))
        as (out & t2 & -> & Hs2 & Hc2 & _).
      cbn [snd]. by rewrite !searches_app, !new_counts_app, Hs0, Hc0, Hs2, Hc2, !app_nil_r.
    + cbn [snd]. by rewrite !searches_app, !new_counts_app, Hs0, Hc0.
  - exists v, (h ++ t0), (Raise e), t1. split; [done|].
    cbn [snd]. by rewrite !searches_app, !new_counts_app, Hs0, Hc0.
Qed.

End Crawl.

(** C1.  A crawl always returns, with a result or an error, after going
    through at most [max_pages] pages: the pages it goes through are the
    first ones of [0 .. max_pages - 1], in order.  Once two pages in a row
    have added no link, at most two more pages are accounted for, unless one
    of them adds a link. *)
Theorem crawl_within_page_budget (L : Lib) (W : World) (tab : TabDef)
    (lang action_url : str) (exposed_items : list (str * str))
    (view_info : gmap str str) (max_pages : Z) (delay_s : Q) (h : list event) :
  ∃ r tr,
    crawl_tab_links W tab lang action_url exposed_items view_info max_pages delay_s h
      = (r, tr) ∧
    searches tr `prefix_of` seq 0 (Z.to_nat max_pages) ∧
    length (searches tr) ≤ Z.to_nat max_pages ∧
    (∀ l1 l2, new_counts tr = l1 ++ 0 :: 0 :: l2 → Forall (eq 0) l2 → length l2 ≤ 2).
Proof.
  destruct (crawl_tab_links W tab lang action_url exposed_items view_info
                            max_pages delay_s h) as [r tr] eqn:Erun.
  exists r, tr. split; [done|].
  pose proof (crawl_tab_links_loop W tab lang action_url exposed_items view_info
                                   max_pages delay_s h) as Hloop.
  rewrite Erun in Hloop. cbn [snd] in Hloop.
  assert (Hpre : searches tr `prefix_of` seq 0 (Z.to_nat max_pages)).
  { destruct Hloop as [[-> _]|(v & h' & r' & tr' & Hrun & -> & _)]; [apply prefix_nil|].
    by eapply crawl_pages_searches. }
  split; [done|]. split.
  { apply prefix_length in Hpre. by rewrite length_seq in Hpre. }
  intros l1 l2 Hcounts Hzero.
  destruct Hloop as [[_ E]|(v & h' & r' & tr' & Hrun & _ & E)].
  - rewrite E in Hcounts. by destruct l1.
  - rewrite E in Hcounts. by eapply crawl_pages_two_in_a_row.
Qed.

(* ================================================================== *)
(** * The periodical expansion *)
(* ================================================================== *)



(** C10.  Without a container link in its input, the expansion returns the
    input as it is and does nothing: no request, no delay, no log line; the
    entries that are not viewer links stay. *)
Theorem expansion_without_containers (L : Lib) (W : World) (links : list str)
    (delay_s : Q) (h : list event) :
  (∀ u, u ∈ links → is_container u = false) →
  expand_periodicals_via_periodical_pages W links delay_s h = (Ok links, []).
Proof.
  intros Hnone. unfold expand_periodicals_via_periodical_pages.
  assert (List.filter is_container links = []) as ->; [|done].
  induction links as [|u links IH]; [done|]. cbn.
  rewrite (Hnone u) by set_solver. apply IH. intros x Hx. apply Hnone. set_solver.
Qed.


(* ================================================================== *)
(** * The delay between pages *)
(* ================================================================== *)




(* ================================================================== *)
(** * Falling back to the asynchronous endpoint *)
(* ================================================================== *)

Definition ajax_url : str := BASE ++ py "/views/ajax".




(* ================================================================== *)
(** * The links of a crawl *)
(* ================================================================== *)

(** The page loop appends to [all_links], page after page, the normalised
    links of the answers that are not in [seen] yet. *)
Lemma crawl_pages_links `{L : Lib} W tab lang action_url exposed_items v delay_s pages :
  ∀ st h st' tr,
  crawl_pages W tab lang action_url exposed_items v delay_s pages st h = (Ok st', tr) →
  all_links st' = all_links st
                  ++ new_items (List.map strip_language_param (discovered tab tr)) (seen st) ∧
  seen st' = list_to_set (List.map strip_language_param (discovered tab tr)) ∪ seen st.
Proof.
  induction pages as [|page rest IH]; intros st h st' tr Hrun.
  { apply pair_equal_spec in Hrun as [[= <-] <-]. cbn. rewrite app_nil_r.
    split; [done|set_solver]. }
  rewrite crawl_pages_cons in Hrun.
  destruct (crawl_page _ _ _ _ _ _ _ _ _ _) as [r1 t] eqn:E1.
  destruct (crawl_page_inv _ _ _ _ _ _ _ _ _ _ _ _ E1) as
    [(_ & -> & ->)|[(_ & e' & tf & Hf & -> & ->)|(_ & links & tf & Hf & -> & ->)]].
  - apply pair_equal_spec in Hrun as [[= <-] <-]. cbn. rewrite app_nil_r.
    split; [done|set_solver].
  - done.
  - destruct (fetch_page_links_obs _ _ _ _ _ _ _ _ _ _ Hf) as (_ & _ & _ & Hd).
    destruct (accounted_obs tab delay_s st links) as (_ & Hd' & _ & Hall & Hseen & _).
    set (pre := page_prefix lang action_url exposed_items page) in *.
    assert (Hfound : discovered tab (pre ++ tf ++ (accounted delay_s st links).2) = links).
    { by rewrite !discovered_app, Hd, Hd', app_nil_r. }
    destruct (accounted delay_s st links).1 as [st1|st1]; cbn [state_of] in *.
    + destruct (crawl_pages _ _ _ _ _ _ _ rest st1 _) as [r' tr'] eqn:E2.
      apply pair_equal_spec in Hrun as [-> <-].
      destruct (IH _ _ _ _ E2) as [Hall' Hseen'].
      rewrite Hall', Hseen', Hall, Hseen, discovered_app, Hfound, List.map_app.
      rewrite new_items_app, <- app_assoc, list_to_set_app_L. split; [done|set_solver].
    + apply pair_equal_spec in Hrun as [[= <-] <-]. by rewrite Hfound.
Qed.

Lemma final_links_eq `{L : Lib} all_links :
  final_links all_links = new_items (List.map strip_language_param all_links) ∅.
Proof. unfold final_links. by rewrite add_unseen_eq. Qed.

Lemma map_fixed {A} (f : A → A) (l : list A) :
  (∀ x, x ∈ l → f x = x) → List.map f l = l.
Proof.
  induction l as [|a l IH]; intros H; [done|]. cbn.
  rewrite (H a) by set_solver. f_equal. apply IH. intros x Hx. apply H. set_solver.
Qed.


(* ================================================================== *)
(** * The register scenario *)
(* ================================================================== *)

Section Scenario.
Context `{L : Lib} (W : World).

Lemma extract_links_viewer_ids tab html :
  is_periodical tab = false →
  prefer_iipimage_only_if_present tab = true →
  extract_iipimage_ids_anywhere html ≠ [] →
  extract_links_from_html tab html
  = List.map viewer_link (extract_iipimage_ids_anywhere html).
Proof.
  intros Hper Honly Hids. unfold extract_links_from_html.
  apply nonempty_true in Hids. rewrite Hper, Honly, Hids. cbn [negb andb].
  rewrite add_unseen_eq. cbn [snd app].
  apply new_items_NoDup_id; [|set_solver].
  apply NoDup_fmap_2; [intros a b; apply viewer_link_inj|].
  rewrite extract_iipimage_ids_anywhere_eq. apply NoDup_new_items.
Qed.

(** An iteration whose direct GET gives links. *)
Lemma crawl_page_direct tab lang action_url exposed_items v delay_s page st h html :
  stop_requested W h = false →
  http_get W (h ++ page_prefix lang action_url exposed_items page)
           (build_visible_url action_url lang exposed_items page) = Some html →
  extract_links_from_html tab html ≠ [] →
  crawl_page W tab lang action_url exposed_items v delay_s page st h
  = (Ok (accounted delay_s st (extract_links_from_html tab html)).1,
     page_prefix lang action_url exposed_items page
     ++ [EvGet (build_visible_url action_url lang exposed_items page) (Some html)]
     ++ (accounted delay_s st (extract_links_from_html tab html)).2).
Proof.
  intros Hstop Hget Hlinks. rewrite crawl_page_eq, Hstop, fetch_page_links_eq.
  cbv zeta. rewrite Hget. unfold direct_links, get_events.
  apply nonempty_true in Hlinks. by rewrite Hlinks.
Qed.

Lemma accounted_all_new delay_s st links :
  links ≠ [] → List.map strip_language_param links = links → NoDup links →
  (∀ x, x ∈ links → x ∉ seen st) →
  accounted delay_s st links
  = (Next (mkState (all_links st ++ links) (list_to_set links ∪ seen st) 0 0),
     EvLog (LogHits (length links) (length links) (length (all_links st ++ links)))
     :: nap delay_s).
Proof.
  intros Hne Hfix Hnd Hnew. unfold accounted. rewrite Hfix.
  rewrite new_items_NoDup_id by done.
  apply nonempty_true in Hne. by rewrite Hne.
Qed.

Lemma accounted_none_new delay_s st links :
  links ≠ [] → List.map strip_language_param links = links →
  (∀ x, x ∈ links → x ∈ seen st) →
  accounted delay_s st links
  = let st' := mkState (all_links st) (list_to_set links ∪ seen st) 0
                       (S (no_new_streak st)) in
    let said := [EvLog (LogHits (length links) 0 (length (all_links st)));
                 EvLog (LogNoNew (S (no_new_streak st)))] in
    if 2 <=? S (no_new_streak st) then (Break st', said)
    else (Next st', said ++ nap delay_s).
Proof.
  intros Hne Hfix Hold. unfold accounted. rewrite Hfix.
  rewrite new_items_none by done. rewrite app_nil_r.
  apply nonempty_true in Hne. by rewrite Hne.
Qed.

End Scenario.

Lemma crawl_page_searches `{L : Lib} W tab lang action_url exposed_items v delay_s page st h :
  stop_requested W h = false →
  ∃ later, searches (crawl_page W tab lang action_url exposed_items v delay_s page st h).2
           = page :: later.
Proof.
  intros Hstop. rewrite crawl_page_eq, Hstop.
  destruct (fetch_page_links _ _ _ _ _ _ _ _) as [[links|e] t]; cbn [snd];
    rewrite searches_app; by eexists.
Qed.

(** C6.  Register search in German; pages 1 to 3 each show ten viewer
    identifiers, thirty different ones in all, and page 4 shows those of
    page 3 again.  Then page 4 leaves the no-new streak at one, with thirty
    links collected, and does not end the loop: with a budget of four pages
    the crawl returns the thirty links for want of budget, and with a larger
    budget it goes on to page 5.  When page 5 shows no new identifier
    either, the loop ends after page 5, with the streak at two, and the
    crawl returns the thirty links. *)
Theorem register_scenario (L : Lib) (W : World) (action_url : str)
    (exposed_items : list (str * str)) (view_info : gmap str str) (v : ViewInfo)
    (delay_s : Q) (html : nat → str) (ids : nat → list str) (h0 t0 : list event) :
  let lang := py "de" in
  let url := build_visible_url action_url lang exposed_items in
  let found := ids 0 ++ ids 1 ++ ids 2 in
  let step := crawl_page W tab_register lang action_url exposed_items v delay_s in
  let crawl := fun max_pages =>
    crawl_tab_links W tab_register lang action_url exposed_items view_info
                    max_pages delay_s h0 in
  resolve_view_info W tab_register lang view_info h0 = (Ok v, t0) →
  (∀ h, stop_requested W h = false) →
  (∀ p h, p ≤ 3 → http_get W h (url p) = Some (html p)) →
  (∀ p, p ≤ 3 → extract_iipimage_ids_anywhere (html p) = ids p) →
  (∀ p, p ≤ 2 → length (ids p) = 10) →
  NoDup found →
  ids 3 = ids 2 →
  (∀ pid, pid ∈ found → strip_language_param (viewer_link pid) = viewer_link pid) →
  ∃ st1 st2 st3 st4 t1 t2 t3 t4,
    step 0 (mkState [] ∅ 0 0) (h0 ++ t0) = (Ok (Next st1), t1) ∧
    step 1 st1 (h0 ++ t0 ++ t1) = (Ok (Next st2), t2) ∧
    step 2 st2 (h0 ++ t0 ++ t1 ++ t2) = (Ok (Next st3), t3) ∧
    step 3 st3 (h0 ++ t0 ++ t1 ++ t2 ++ t3) = (Ok (Next st4), t4) ∧
    all_links st4 = List.map viewer_link found ∧
    length (all_links st4) = 30 ∧
    no_new_streak st4 = 1 ∧
    crawl 4%Z = (Ok (List.map viewer_link found), t0 ++ t1 ++ t2 ++ t3 ++ t4) ∧
    (∀ n, ∃ later, searches (crawl (Z.of_nat (5 + n))).2 = [0; 1; 2; 3; 4] ++ later) ∧
    (∀ html5,
       (∀ h, http_get W h (url 4) = Some html5) →
       extract_iipimage_ids_anywhere html5 ≠ [] →
       (∀ pid, pid ∈ extract_iipimage_ids_anywhere html5 → pid ∈ found) →
       ∃ st5 t5,
         step 4 st4 (h0 ++ t0 ++ t1 ++ t2 ++ t3 ++ t4) = (Ok (Break st5), t5) ∧
         no_new_streak st5 = 2 ∧
         all_links st5 = all_links st4 ∧
         ∀ n, crawl (Z.of_nat (5 + n))
              = (Ok (List.map viewer_link found), t0 ++ t1 ++ t2 ++ t3 ++ t4 ++ t5)).
Proof.
  intros lang url found step crawl Hview Hstop Hget Hids Hten Hnd Hsame Hfix.
  set (V := fun p => List.map viewer_link (ids p)).
  assert (Hne : ∀ p, p ≤ 3 → ids p ≠ []).
  { intros p Hp E. destruct (decide (p = 3)) as [->|]; [rewrite Hsame in E|].
    - specialize (Hten 2). rewrite E in Hten. cbn in Hten. lia.
    - specialize (Hten p). rewrite E in Hten. cbn in Hten. lia. }
  assert (HV : ∀ p, p ≤ 3 → extract_links_from_html tab_register (html p) = V p).
  { intros p Hp. rewrite extract_links_viewer_ids; [by rewrite Hids|done|done|].
    rewrite Hids by done. by apply Hne. }
  assert (HVne : ∀ p, p ≤ 3 → V p ≠ []).
  { intros p Hp E. apply (Hne p Hp). unfold V in E. by apply map_eq_nil in E. }
  assert (Hin : ∀ p, p ≤ 3 → ∀ pid, pid ∈ ids p → pid ∈ found).
  { intros p Hp pid Hpid. subst found.
    destruct p as [|[|[|[|p]]]]; [set_solver..| |lia]. rewrite Hsame in Hpid. set_solver. }
  assert (HVfix : ∀ p, p ≤ 3 → List.map strip_language_param (V p) = V p).
  { intros p Hp. apply map_fixed. intros x Hx.
    apply list_elem_of_In, in_map_iff in Hx as (pid & <- & Hpid).
    apply Hfix, (Hin p Hp). by apply list_elem_of_In. }
  assert (Hall : List.map viewer_link found = V 0 ++ V 1 ++ V 2).
  { subst found V. by rewrite !List.map_app. }
  assert (HndV : NoDup (V 0 ++ V 1 ++ V 2)).
  { rewrite <- Hall. apply NoDup_fmap_2; [intros a b; apply viewer_link_inj|done]. }
  apply NoDup_app in HndV as (Hnd0 & Hdis0 & HndV).
  apply NoDup_app in HndV as (Hnd1 & Hdis1 & Hnd2).
  assert (Hstep : ∀ p st h, p ≤ 3 →
            step p st h
            = (Ok (accounted delay_s st (V p)).1,
               page_prefix lang action_url exposed_items p
               ++ [EvGet (url p) (Some (html p))] ++ (accounted delay_s st (V p)).2)).
  { intros p st h Hp. subst step. rewrite <- (HV p Hp).
    apply crawl_page_direct; [done|by apply Hget|]. rewrite HV by done. by apply HVne. }
  set (st1 := mkState ([] ++ V 0) (list_to_set (V 0) ∪ ∅) 0 0).
  set (st2 := mkState (all_links st1 ++ V 1) (list_to_set (V 1) ∪ seen st1) 0 0).
  set (st3 := mkState (all_links st2 ++ V 2) (list_to_set (V 2) ∪ seen st2) 0 0).
  set (st4 := mkState (all_links st3) (list_to_set (V 3) ∪ seen st3) 0 1).
  assert (E1 : accounted delay_s (mkState [] ∅ 0 0) (V 0)
               = (Next st1, EvLog (LogHits (length (V 0)) (length (V 0))
                                           (length ([] ++ V 0))) :: nap delay_s)).
  { apply accounted_all_new; [apply HVne; lia|apply HVfix; lia|done|]. cbn. set_solver. }
  assert (E2 : accounted delay_s st1 (V 1)
               = (Next st2, EvLog (LogHits (length (V 1)) (length (V 1))
                                           (length (all_links st1 ++ V 1))) :: nap delay_s)).
  { apply accounted_all_new; [apply HVne; lia|apply HVfix; lia|done|].
    cbn. intros x Hx Hx'. apply (Hdis0 x); set_solver. }
  assert (E3 : accounted delay_s st2 (V 2)
               = (Next st3, EvLog (LogHits (length (V 2)) (length (V 2))
                                           (length (all_links st2 ++ V 2))) :: nap delay_s)).
  { apply accounted_all_new; [apply HVne; lia|apply HVfix; lia|done|].
    cbn. intros x Hx Hx'. apply elem_of_union in Hx' as [Hx'|Hx'].
    - apply (Hdis1 x); set_solver.
    - apply (Hdis0 x); set_solver. }
  assert (HV3 : V 3 = V 2) by (subst V; cbn; by rewrite Hsame).
  assert (E4 : accounted delay_s st3 (V 3)
               = (Next st4, [EvLog (LogHits (length (V 3)) 0 (length (all_links st3)));
                             EvLog (LogNoNew 1)] ++ nap delay_s)).
  { rewrite accounted_none_new; [done|by apply HVne|by apply HVfix|].
    rewrite HV3. cbn. set_solver. }
  assert (Hlinks4 : all_links st4 = List.map viewer_link found).
  { rewrite Hall. cbn. by rewrite <- app_assoc. }
  assert (Hlen : length (all_links st4) = 30).
  { rewrite Hlinks4. subst found. rewrite length_map, !length_app, !Hten by lia. done. }
  assert (Hfinal : final_links (List.map viewer_link found) = List.map viewer_link found).
  { rewrite final_links_eq, map_fixed.
    - apply new_items_NoDup_id; [|set_solver].
      apply NoDup_fmap_2; [intros a b; apply viewer_link_inj|done].
    - intros x Hx. apply list_elem_of_In, in_map_iff in Hx as (pid & <- & Hpid).
      apply Hfix. by apply list_elem_of_In. }
  pose proof (Hstep 0 (mkState [] ∅ 0 0) (h0 ++ t0)) as S1. rewrite E1 in S1. cbn [fst snd] in S1.
  set (t1 := page_prefix lang action_url exposed_items 0 ++ _) in S1.
  pose proof (Hstep 1 st1 (h0 ++ t0 ++ t1)) as S2. rewrite E2 in S2. cbn [fst snd] in S2.
  set (t2 := page_prefix lang action_url exposed_items 1 ++ _) in S2.
  pose proof (Hstep 2 st2 (h0 ++ t0 ++ t1 ++ t2)) as S3. rewrite E3 in S3. cbn [fst snd] in S3.
  set (t3 := page_prefix lang action_url exposed_items 2 ++ _) in S3.
  pose proof (Hstep 3 st3 (h0 ++ t0 ++ t1 ++ t2 ++ t3)) as S4. rewrite E4 in S4.
  cbn [fst snd] in S4.
  set (t4 := page_prefix lang action_url exposed_items 3 ++ _) in S4.
  specialize (S1 ltac:(lia)). specialize (S2 ltac:(lia)).
  specialize (S3 ltac:(lia)). specialize (S4 ltac:(lia)).
  assert (Hloop : ∀ rest,
            crawl_pages W tab_register lang action_url exposed_items v delay_s
                        (0 :: 1 :: 2 :: 3 :: rest) (mkState [] ∅ 0 0) (h0 ++ t0)
            = let '(r, t') := crawl_pages W tab_register lang action_url exposed_items v
                                delay_s rest st4 (h0 ++ t0 ++ t1 ++ t2 ++ t3 ++ t4) in
              (r, t1 ++ t2 ++ t3 ++ t4 ++ t')).
  { intros rest. fold step in S1, S2, S3, S4 |- *.
    rewrite crawl_pages_cons. fold step. rewrite S1.
    rewrite crawl_pages_cons. fold step. rewrite <- ?app_assoc, S2.
    rewrite crawl_pages_cons. fold step. rewrite <- ?app_assoc, S3.
    rewrite crawl_pages_cons. fold step. rewrite <- ?app_assoc, S4.
    rewrite <- ?app_assoc.
    destruct (crawl_pages _ _ _ _ _ _ _ rest st4 _) as [r t']. by rewrite <- ?app_assoc. }
  assert (Hcrawl : ∀ max_pages rest, seq 0 (Z.to_nat max_pages) = 0 :: 1 :: 2 :: 3 :: rest →
            crawl max_pages
            = match crawl_pages W tab_register lang action_url exposed_items v delay_s rest
                      st4 (h0 ++ t0 ++ t1 ++ t2 ++ t3 ++ t4) with
              | (Ok st, t') => (Ok (final_links (all_links st)), t0 ++ t1 ++ t2 ++ t3 ++ t4 ++ t')
              | (Raise e, t') => (Raise e, t0 ++ t1 ++ t2 ++ t3 ++ t4 ++ t')
              end).
  { intros max_pages rest Hseq. subst crawl. cbv beta.
    rewrite crawl_tab_links_eq, Hview, Hseq, Hloop.
    destruct (crawl_pages _ _ _ _ _ _ _ rest st4 _) as [[st|e] t'];
      by rewrite <- ?app_assoc. }
  exists st1, st2, st3, st4, t1, t2, t3, t4.
  split; [done|]. split; [done|]. split; [done|]. split; [done|].
  split; [done|]. split; [done|]. split; [done|]. split.
  { rewrite (Hcrawl 4%Z []) by done. cbn [crawl_pages]. unfold mret, M_ret, ret.
    by rewrite Hlinks4, Hfinal, !app_nil_r. }
  split.
  { intros n. rewrite (Hcrawl _ (4 :: seq 5 n)) by (by rewrite Nat2Z.id).
    rewrite crawl_pages_cons.
    destruct (crawl_page_searches W tab_register lang action_url exposed_items v delay_s
                4 st4 (h0 ++ t0 ++ t1 ++ t2 ++ t3 ++ t4) (Hstop _)) as [later Hs].
    destruct (resolve_view_info_obs _ _ _ _ _ _ _ Hview) as [Hs0 _].
    assert (Hs1 : searches t1 = [0] ∧ searches t2 = [1] ∧ searches t3 = [2]
                  ∧ searches t4 = [3]).
    { subst t1 t2 t3 t4. unfold nap. by destruct (positive_delay delay_s). }
    destruct Hs1 as (Hs1 & Hs2 & Hs3 & Hs4).
    destruct (crawl_page _ _ _ _ _ _ _ 4 st4 _) as [[[st|st]|e] t5]; cbn [snd] in Hs.
    - destruct (crawl_pages _ _ _ _ _ _ _ (seq 5 n) st _) as [[st'|e] t6]; cbn [snd];
        rewrite !searches_app, Hs0, Hs1, Hs2, Hs3, Hs4, Hs; by eexists.
    - cbn [snd]. rewrite !searches_app, Hs0, Hs1, Hs2, Hs3, Hs4, Hs. by eexists.
    - cbn [snd]. rewrite !searches_app, Hs0, Hs1, Hs2, Hs3, Hs4, Hs. by eexists. }
  intros html5 Hget5 Hids5 Hold5.
  set (V5 := List.map viewer_link (extract_iipimage_ids_anywhere html5)).
  assert (HV5 : extract_links_from_html tab_register html5 = V5)
    by by apply extract_links_viewer_ids.
  assert (HV5ne : V5 ≠ []).
  { intros E. apply Hids5. unfold V5 in E. by apply map_eq_nil in E. }
  assert (E5 : accounted delay_s st4 V5
               = (Break (mkState (all_links st4) (list_to_set V5 ∪ seen st4) 0 2),
                  [EvLog (LogHits (length V5) 0 (length (all_links st4)));
                   EvLog (LogNoNew 2)])).
  { rewrite accounted_none_new; [done|done| |].
    - apply map_fixed. intros x Hx.
      apply list_elem_of_In, in_map_iff in Hx as (pid & <- & Hpid).
      apply Hfix, Hold5. by apply list_elem_of_In.
    - intros x Hx. apply list_elem_of_In, in_map_iff in Hx as (pid & <- & Hpid).
      assert (viewer_link pid ∈ List.map viewer_link found) as Hseen.
      { apply list_elem_of_In, in_map. apply list_elem_of_In, Hold5. by apply list_elem_of_In. }
      rewrite Hall, !elem_of_app in Hseen. cbn [seen st4 st3 st2 st1].
      rewrite !elem_of_union, !elem_of_list_to_set. tauto. }
  assert (S5 : step 4 st4 (h0 ++ t0 ++ t1 ++ t2 ++ t3 ++ t4)
               = (Ok (accounted delay_s st4 V5).1,
                  page_prefix lang action_url exposed_items 4
                  ++ [EvGet (url 4) (Some html5)] ++ (accounted delay_s st4 V5).2)).
  { subst step. rewrite <- HV5. apply crawl_page_direct; [done|by apply Hget5|].
    by rewrite HV5. }
  rewrite E5 in S5. cbn [fst snd] in S5.
  eexists _, _. split; [exact S5|]. split; [done|]. split; [done|].
  intros n. rewrite (Hcrawl _ (4 :: seq 5 n)) by (by rewrite Nat2Z.id).
  rewrite crawl_pages_cons. fold step. rewrite S5. cbn [all_links].
  fold st4. by rewrite Hlinks4, Hfinal.
Qed.
(* ================================================================== *)
(** * Example sites *)
(* ================================================================== *)

Fixpoint assoc (k : str) (l : list (str * str)) : option str :=
  match l with
  | [] => None
  | (k', x) :: rest => if decide (k' = k) then Some x else assoc k rest
  end.

(** A site that answers a GET by its URL and a POST by the page asked for,
    the same way at any time, and never raises the stop flag.  A URL or a
    page that is not listed fails. *)
Definition site (gets posts : list (str * str)) : World :=
  mkWorld (fun _ url => assoc url gets)
          (fun _ _ data _ => match assoc (py "page") data with
                             | Some page => assoc page posts
                             | None => None
                             end)
          (fun _ => false).

Definition register_action : str := py "https://www.portafontium.eu/searching/register".

(** The visible URL of page [n] of the register search in German. *)
Definition register_page (n : nat) : str :=
  @build_visible_url Reference.lib register_action (py "de") [] n.

(** A page that shows the viewer identifiers [ids]. *)
Definition page_of (ids : list nat) : str :=
  flat_map (fun n => py " /iipimage/" ++ str_of_nat n) ids.

Definition known_view : gmap str str :=
  <[py "view_dom_id" := py "0123456789abcdef0123456789abcdef"]>
    (<[py "view_display_id" := py "page"]> ∅).

(** Page 0 shows a link, page 1 shows it again, page 2 shows nothing, and
    the four pages after it show a new link each. *)
Definition late_news_site : World :=
  site [(register_page 0, page_of [100]); (register_page 1, page_of [100]);
        (register_page 2, py "<p>nothing</p>"); (register_page 3, page_of [101]);
        (register_page 4, page_of [102]); (register_page 5, page_of [103]);
        (register_page 6, page_of [104])]
       [(py "2", py "<p>nothing</p>")].

Definition late_news_run :=
  @crawl_tab_links Reference.lib late_news_site tab_register (py "de") register_action []
                   known_view 7 0 [].


(** C1 (counterexample).  Two pages in a row without a new link do not
    bound what follows: on [late_news_site] the pages of index 1 and 2 add
    no link (one repeats a link, the other is empty), and four more pages
    are gone through after them, each adding a link. *)
Lemma late_news_counterexample :
  late_news_run.1
  = Ok (List.map (fun n => py "https://www.portafontium.eu/iipimage/" ++ str_of_nat n)
                 [100; 101; 102; 103; 104]) ∧
  new_counts late_news_run.2 = [1] ++ 0 :: 0 :: [1; 1; 1; 1] ∧
  searches late_news_run.2 = [0; 1; 2; 3; 4; 5; 6].
Proof. vm_compute. repeat split. Qed.

(** Page 0 shows a link, page 1 shows it again, pages 2 and 3 show nothing. *)
Definition quiet_site : World :=
  site [(register_page 0, page_of [100]); (register_page 1, page_of [100]);
        (register_page 2, py "<p>nothing</p>"); (register_page 3, py "<p>nothing</p>");
        (register_page 4, page_of [101])]
       [(py "2", py "<p>nothing</p>"); (py "3", py "<p>nothing</p>")].

Lemma crawl_within_page_budget_witness :
  ∃ r tr,
    @crawl_tab_links Reference.lib quiet_site tab_register (py "de") register_action []
                     known_view 7 0 [] = (r, tr) ∧
    searches tr `prefix_of` seq 0 7 ∧
    length (searches tr) ≤ 7 ∧
    (∀ l1 l2, new_counts tr = l1 ++ 0 :: 0 :: l2 → Forall (eq 0) l2 → length l2 ≤ 2).
Proof.
  exact (crawl_within_page_budget Reference.lib quiet_site tab_register (py "de")
           register_action [] known_view 7 0 []).
Defined.


(** A site that answers nothing. *)
Definition dead_site : World := site [] [].

Definition some_view : ViewInfo :=
  mkView (py "solr_searching") (py "page") (py "0123456789abcdef0123456789abcdef") None None.


(** Pages 0 to 2 show ten identifiers each, page 3 shows those of page 2
    again, and so does page 4. *)
Definition ten_from (n : nat) : list nat := seq n 10.

Definition scenario_ids (p : nat) : list nat :=
  match p with
  | 0 => ten_from 100
  | 1 => ten_from 110
  | _ => ten_from 120
  end.

Definition scenario_site : World :=
  site [(register_page 0, page_of (scenario_ids 0)); (register_page 1, page_of (scenario_ids 1));
        (register_page 2, page_of (scenario_ids 2)); (register_page 3, page_of (scenario_ids 3));
        (register_page 4, page_of (scenario_ids 4)); (register_page 5, page_of (ten_from 130))]
       [].

(** Pages 0 to 2 show ten identifiers each, page 3 shows those of page 2
    again, and page 4 shows ten new ones. *)
Definition scenario_goes_on_site : World :=
  site [(register_page 0, page_of (scenario_ids 0)); (register_page 1, page_of (scenario_ids 1));
        (register_page 2, page_of (scenario_ids 2)); (register_page 3, page_of (scenario_ids 3));
        (register_page 4, page_of (ten_from 130))]
       [].

Definition scenario_goes_on_run :=
  @crawl_tab_links Reference.lib scenario_goes_on_site tab_register (py "de") register_action []
                   known_view 5 0 [].

(** C6 (counterexample).  The loop does not stop after the page that
    repeats its predecessor: with a budget of five pages the crawl of
    [scenario_goes_on_site] goes through the fifth page and returns forty
    links. *)
Lemma register_scenario_counterexample :
  searches scenario_goes_on_run.2 = [0; 1; 2; 3; 4] ∧
  new_counts scenario_goes_on_run.2 = [10; 10; 10; 0; 10] ∧
  (match scenario_goes_on_run.1 with Ok links => length links | Raise _ => 0 end) = 40.
Proof. vm_compute. repeat split. Qed.

Lemma register_scenario_witness :
  ∃ tr,
    @crawl_tab_links Reference.lib scenario_site tab_register (py "de") register_action []
                     known_view 7 0 []
    = (Ok (List.map (@viewer_link)
                    (List.map str_of_nat (ten_from 100 ++ ten_from 110 ++ ten_from 120))), tr).
Proof.
  destruct (register_scenario Reference.lib scenario_site register_action [] known_view
              some_view 0%Q (fun p => page_of (scenario_ids p))
              (fun p => List.map str_of_nat (scenario_ids p)) []
              [EvLog (LogDebugView (py "solr_searching") (py "page")
                                   (py "0123456789abcdef0123456789abcdef"))])
    as (st1 & st2 & st3 & st4 & t1 & t2 & t3 & t4 & _ & _ & _ & _ & _ & _ & _ & _ & _ & Hfive).
  - vm_compute. reflexivity.
  - intros h. reflexivity.
  - intros p h Hp. destruct p as [|[|[|[|p]]]]; [vm_compute; reflexivity..|lia].
  - intros p Hp. destruct p as [|[|[|[|p]]]]; [vm_compute; reflexivity..|lia].
  - intros p Hp. destruct p as [|[|[|p]]]; [reflexivity..|lia].
  - apply (bool_decide_unpack _). vm_compute. exact I.
  - reflexivity.
  - apply Forall_forall. apply (bool_decide_unpack _). vm_compute. exact I.
  - destruct (Hfive (page_of (scenario_ids 4))) as (st5 & t5 & _ & _ & _ & Hcrawl).
    + intros h. vm_compute. reflexivity.
    + intros E. vm_compute in E. discriminate E.
    + apply Forall_forall. apply (bool_decide_unpack _). vm_compute. exact I.
    + specialize (Hcrawl 2). change (Z.of_nat (5 + 2)) with 7%Z in Hcrawl.
      eexists. etrans; [exact Hcrawl|]. f_equal.
Defined.






Lemma expansion_without_containers_witness :
  @expand_periodicals_via_periodical_pages Reference.lib dead_site
    [py "https://www.portafontium.eu/iipimage/500"; py "https://www.portafontium.eu/about"] 0 []
  = (Ok [py "https://www.portafontium.eu/iipimage/500"; py "https://www.portafontium.eu/about"],
     []).
Proof.
  apply expansion_without_containers.
  apply Forall_forall. apply (bool_decide_unpack _). vm_compute. exact I.
Defined.


(* ================================================================== *)
(** * More about the runs of the crawl *)
(* ================================================================== *)

(** The readings of the stop flag a run took. *)
Definition polls (tr : list event) : list bool :=
  omap (fun e => match e with EvStopFlag b => Some b | _ => None end) tr.

(** The URLs a run sent a GET to, and those it sent a POST to. *)
Definition gets (tr : list event) : list str :=
  omap (fun e => match e with EvGet url _ => Some url | _ => None end) tr.

Definition posts (tr : list event) : list str :=
  omap (fun e => match e with EvPost url _ _ _ => Some url | _ => None end) tr.

(** The events with which the page loop gives up: the stop flag read as
    set, and a streak of pages without links, or without new links, that
    has reached two. *)
Definition closing (e : event) : bool :=
  match e with
  | EvStopFlag stop => stop
  | EvLog (LogEmptyPage streak) => 2 <=? streak
  | EvLog (LogNoNew streak) => 2 <=? streak
  | _ => false
  end.

(** Nothing follows a closing event. *)
Definition closes_last (tr : list event) : Prop :=
  ∀ before e after, tr = before ++ e :: after → closing e = true → after = [].

Lemma polls_app t1 t2 : polls (t1 ++ t2) = polls t1 ++ polls t2.
Proof. apply omap_app. Qed.

Lemma gets_app t1 t2 : gets (t1 ++ t2) = gets t1 ++ gets t2.
Proof. apply omap_app. Qed.

Lemma posts_app t1 t2 : posts (t1 ++ t2) = posts t1 ++ posts t2.
Proof. apply omap_app. Qed.

Lemma closes_last_nil : closes_last [].
Proof. intros before e after H. by destruct before. Qed.

Lemma closes_last_app t t' :
  Forall (λ e, closing e = false) t → closes_last t' → closes_last (t ++ t').
Proof.
  intros Hq Hc. induction Hq as [|x t Hx _ IH]; [done|].
  intros before e after Heq He. destruct before as [|b before]; cbn in Heq.
  - injection Heq as -> _. congruence.
  - injection Heq as _ Heq. by apply (IH before e after).
Qed.

Lemma closes_last_snoc t e :
  Forall (λ e, closing e = false) t → closes_last (t ++ [e]).
Proof.
  intros Hq. apply closes_last_app; [done|].
  intros before e' after Heq _. destruct before as [|b before]; cbn in Heq.
  - by injection Heq as _ <-.
  - injection Heq as _ Heq. by destruct before.
Qed.

Lemma Forall_quiet_nap delay_s : Forall (λ e, closing e = false) (nap delay_s).
Proof. unfold nap. destruct (positive_delay delay_s); repeat constructor. Qed.

Section Requests.
Context `{L : Lib} (W : World).
Variables (tab : TabDef) (lang action_url : str) (exposed_items : list (str * str))
          (v : ViewInfo) (delay_s : Q).

(** One GET to the URL of the page, and after it at most one POST, to the
    asynchronous endpoint. *)
Lemma fetch_page_links_requests page url h r t :
  fetch_page_links W tab lang exposed_items v page url h = (r, t) →
  polls t = [] ∧ gets t = [url] ∧ (posts t = [] ∨ posts t = [ajax_url]) ∧
  Forall (λ e, closing e = false) t.
Proof.
  rewrite fetch_page_links_eq. cbv zeta.
  destruct (nonempty (direct_links tab (http_get W h url))).
  - intros [<- <-]%pair_equal_spec. unfold get_events.
    destruct (http_get W h url); cbn; repeat split; try (by left); repeat constructor.
  - destruct (ajax_request tab lang exposed_items v page) as [data headers].
    intros [<- <-]%pair_equal_spec. unfold get_events.
    destruct (http_get W h url); cbn; repeat split; try (by right); repeat constructor.
Qed.

(** The accounting of a page sends nothing and reads no flag; its events
    end with a closing event exactly when it leaves the loop. *)
Lemma accounted_requests st page_links :
  let f := (accounted delay_s st page_links).1 in
  let evs := (accounted delay_s st page_links).2 in
  polls evs = [] ∧ gets evs = [] ∧ posts evs = [] ∧
  match f with
  | Next st' => Forall (λ e, closing e = false) evs
  | Break st' => ∃ evs0 e, evs = evs0 ++ [e] ∧ Forall (λ e, closing e = false) evs0 ∧
                           closing e = true
  end.
Proof.
  unfold accounted. cbv zeta.
  destruct page_links as [|u us]; cbn [nonempty].
  - do 3 (split; [done|]).
    destruct (empty_streak st) as [|es] eqn:Ees; cbn [Nat.leb fst snd].
    + repeat constructor.
    + by exists [], (EvLog (LogEmptyPage (S (S es)))).
  - destruct (new_items _ (seen st)) as [|g gain]; cbn [nonempty].
    + destruct (no_new_streak st) as [|ns] eqn:Ens; cbn [Nat.leb fst snd].
      * do 3 (split; [by destruct (positive_delay delay_s)|]).
        apply Forall_app. split; [repeat constructor|apply Forall_quiet_nap].
      * do 3 (split; [done|]).
        eexists [_], (EvLog (LogNoNew (S (S ns)))). repeat split. repeat constructor.
    + cbn [fst snd]. do 3 (split; [by destruct (positive_delay delay_s)|]).
      constructor; [done|apply Forall_quiet_nap].
Qed.

(** The streaks stay below two as long as the loop goes on, and never pass
    two. *)
Lemma accounted_streaks st page_links :
  empty_streak st < 2 → no_new_streak st < 2 →
  match (accounted delay_s st page_links).1 with
  | Next st' => empty_streak st' < 2 ∧ no_new_streak st' < 2
  | Break st' => empty_streak st' ≤ 2 ∧ no_new_streak st' ≤ 2 ∧
                 (empty_streak st' = 2 ∨ no_new_streak st' = 2)
  end.
Proof.
  intros He Hn. unfold accounted. cbv zeta.
  destruct page_links as [|u us]; cbn [nonempty].
  - destruct (empty_streak st) as [|[|es]] eqn:Ees; cbn; lia.
  - destruct (new_items _ (seen st)) as [|g gain]; cbn [nonempty].
    + destruct (no_new_streak st) as [|[|ns]] eqn:Ens; cbn; lia.
    + cbn. lia.
Qed.

(** What one iteration shows of the flag, of its requests and of the way
    it ends. *)
Lemma crawl_page_requests page st h r t :
  crawl_page W tab lang action_url exposed_items v delay_s page st h = (r, t) →
  (stop_requested W h = true ∧ r = Ok (Break st) ∧ t = [EvStopFlag true])
  ∨ (stop_requested W h = false ∧
     polls t = [false] ∧ searches t = [page] ∧
     gets t = [build_visible_url action_url lang exposed_items page] ∧
     (posts t = [] ∨ posts t = [ajax_url]) ∧
     match r with
     | Ok (Next st') =>
         Forall (λ e, closing e = false) t ∧
         (empty_streak st < 2 → no_new_streak st < 2 →
          empty_streak st' < 2 ∧ no_new_streak st' < 2)
     | Ok (Break st') =>
         (∃ t0 e, t = t0 ++ [e] ∧ Forall (λ e, closing e = false) t0 ∧ closing e = true) ∧
         (empty_streak st < 2 → no_new_streak st < 2 →
          empty_streak st' ≤ 2 ∧ no_new_streak st' ≤ 2 ∧
          (empty_streak st' = 2 ∨ no_new_streak st' = 2))
     | Raise _ => Forall (λ e, closing e = false) t
     end).
Proof.
  intros Hrun.
  destruct (crawl_page_inv _ _ _ _ _ _ _ _ _ _ _ _ Hrun) as
    [(Hs & -> & ->)|[(Hs & e & tf & Hf & -> & ->)|(Hs & links & tf & Hf & -> & ->)]].
  - by left.
  - right. split; [done|].
    destruct (fetch_page_links_requests _ _ _ _ _ Hf) as (Hp & Hg & Hpo & Hq).
    destruct (fetch_page_links_obs _ _ _ _ _ _ _ _ _ _ Hf) as (Hse & _).
    rewrite polls_app, searches_app, gets_app, posts_app, Hp, Hse, Hg.
    do 4 (split; [done|]). apply Forall_app. split; [|done].
    repeat constructor.
  - right. split; [done|].
    destruct (fetch_page_links_requests _ _ _ _ _ Hf) as (Hp & Hg & Hpo & Hq).
    destruct (fetch_page_links_obs _ _ _ _ _ _ _ _ _ _ Hf) as (Hse & _).
    destruct (accounted_obs tab delay_s st links) as (Hse' & _).
    destruct (accounted_requests st links) as (Hp' & Hg' & Hpo' & Hend).
    pose proof (accounted_streaks st links) as Hstreaks.
    rewrite !polls_app, !searches_app, !gets_app, !posts_app.
    rewrite Hp, Hse, Hg, Hp', Hse', Hg', Hpo', !app_nil_r.
    do 4 (split; [done|]).
    assert (Hopen : Forall (λ e, closing e = false)
                           (page_prefix lang action_url exposed_items page ++ tf)).
    { apply Forall_app. split; [repeat constructor|done]. }
    destruct (accounted delay_s st links).1 as [st'|st'].
    + split; [|done]. rewrite app_assoc. apply Forall_app. by split.
    + split; [|done]. destruct Hend as (evs0 & e & -> & Hq' & He').
      exists (page_prefix lang action_url exposed_items page ++ tf ++ evs0), e.
      split; [by rewrite <- !app_assoc|]. split; [|done].
      rewrite app_assoc. apply Forall_app. by split.
Qed.

(** The page loop as a whole. *)
Lemma crawl_pages_requests pages : ∀ st h r tr,
  crawl_pages W tab lang action_url exposed_items v delay_s pages st h = (r, tr) →
  (∃ stopped : bool,
     polls tr = repeat false (length (searches tr)) ++ (if stopped then [true] else [])) ∧
  gets tr = List.map (build_visible_url action_url lang exposed_items) (searches tr) ∧
  Forall (eq ajax_url) (posts tr) ∧
  length (posts tr) ≤ length (searches tr) ∧
  closes_last tr ∧
  ((∃ before e, tr = before ++ [e] ∧ closing e = true) → ∃ st', r = Ok st') ∧
  (empty_streak st < 2 → no_new_streak st < 2 →
   ∀ st', r = Ok st' → empty_streak st' ≤ 2 ∧ no_new_streak st' ≤ 2).
Proof.
  induction pages as [|page rest IH]; intros st h r tr Hrun.
  { apply pair_equal_spec in Hrun as [<- <-]. cbn.
    split; [by exists false|]. do 3 (split; [done|]).
    split; [apply closes_last_nil|]. split; [by eexists|].
    intros He Hn st' [= <-]. lia. }
  rewrite crawl_pages_cons in Hrun.
  destruct (crawl_page _ _ _ _ _ _ _ _ _ _) as [r1 t] eqn:E1.
  destruct (crawl_page_requests _ _ _ _ _ E1) as
    [(_ & -> & ->)|(_ & Hp & Hs & Hg & Hpo & Hend)].
  { apply pair_equal_spec in Hrun as [<- <-]. cbn.
    split; [by exists true|]. do 3 (split; [done|]).
    split; [apply (closes_last_snoc []); constructor|]. split; [by eexists|].
    intros He Hn st' [= <-]. lia. }
  assert (Hposts : Forall (eq ajax_url) (posts t) ∧ length (posts t) ≤ 1).
  { destruct Hpo as [->| ->]; cbn; split; repeat constructor. }
  destruct Hposts as [Hpo1 Hpo2].
  destruct r1 as [[st'|st']|e].
  - destruct (crawl_pages _ _ _ _ _ _ _ rest st' _) as [r' tr'] eqn:E2.
    apply pair_equal_spec in Hrun as [<- <-].
    destruct (IH _ _ _ _ E2) as ([stopped Hp'] & Hg' & Hpo' & Hlen' & Hc & Hok & Hst).
    destruct Hend as [Hq Hnext].
    rewrite polls_app, searches_app, gets_app, posts_app, Hp, Hs, Hg, Hg', Hp'.
    split; [by exists stopped|]. split; [done|].
    split; [by apply Forall_app|]. split; [rewrite !length_app; cbn; lia|].
    split; [by apply closes_last_app|]. split.
    + intros (before & e & Heq & He). apply Hok.
      destruct tr' as [|x tr'] using rev_ind.
      * rewrite app_nil_r in Heq. subst t. apply Forall_app in Hq as [_ Hq].
        apply Forall_cons in Hq as [Hq _]. congruence.
      * rewrite app_assoc in Heq. apply app_inj_tail in Heq as [_ ->]. by eexists _, _.
    + intros He Hn. destruct (Hnext He Hn). by apply Hst.
  - apply pair_equal_spec in Hrun as [<- <-]. rewrite Hp, Hs, Hg.
    destruct Hend as [(t0 & e & -> & Hq & He') Hstreaks].
    split; [by exists false|]. do 2 (split; [done|]). split; [cbn; lia|].
    split; [by apply closes_last_snoc|]. split; [by eexists|].
    intros He Hn ? [= <-]. destruct (Hstreaks He Hn) as (? & ? & _). done.
  - apply pair_equal_spec in Hrun as [<- <-]. rewrite Hp, Hs, Hg.
    split; [by exists false|]. do 2 (split; [done|]). split; [cbn; lia|].
    split.
    { rewrite <- (app_nil_r t). apply closes_last_app; [done|apply closes_last_nil]. }
    split; [|done].
    intros (before & e' & -> & He'). apply Forall_app in Hend as [_ Hend].
    apply Forall_cons in Hend as [Hend _]. congruence.
Qed.

End Requests.

(** The streak a log line reports. *)
Definition logged_streak (e : event) : option nat :=
  match e with
  | EvLog (LogEmptyPage streak) => Some streak
  | EvLog (LogNoNew streak) => Some streak
  | _ => None
  end.

(** Every streak reported is one or two. *)
Definition streaks_in_range (tr : list event) : Prop :=
  Forall (λ e, ∀ n, logged_streak e = Some n → 1 ≤ n ≤ 2) tr.

Section Streaks.
Context `{L : Lib} (W : World).
Variables (tab : TabDef) (lang action_url : str) (exposed_items : list (str * str))
          (v : ViewInfo) (delay_s : Q).

Local Ltac in_range :=
  unfold streaks_in_range;
  repeat first [apply List.Forall_nil | apply List.Forall_cons | apply Forall_app; split];
  try (by intros ? [=]).

Lemma fetch_page_links_streaks page url h r t :
  fetch_page_links W tab lang exposed_items v page url h = (r, t) →
  streaks_in_range t.
Proof.
  rewrite fetch_page_links_eq. cbv zeta.
  destruct (nonempty (direct_links tab (http_get W h url))).
  - intros [<- <-]%pair_equal_spec. unfold get_events.
    destruct (http_get W h url); in_range.
  - destruct (ajax_request tab lang exposed_items v page) as [data headers].
    intros [<- <-]%pair_equal_spec. unfold get_events.
    destruct (http_get W h url); in_range.
Qed.

Lemma accounted_streaks_in_range st page_links :
  empty_streak st < 2 → no_new_streak st < 2 →
  streaks_in_range (accounted delay_s st page_links).2.
Proof.
  intros He Hn. unfold accounted. cbv zeta.
  destruct page_links as [|u us]; cbn [nonempty].
  - cbn [snd]. in_range. intros n [= <-]. lia.
  - destruct (new_items _ (seen st)) as [|g gain]; cbn [nonempty].
    + destruct (2 <=? S (no_new_streak st)); cbn [snd];
        destruct (positive_delay delay_s); in_range; intros n [= <-]; lia.
    + cbn [snd]. destruct (positive_delay delay_s); in_range.
Qed.

Lemma crawl_pages_streaks pages : ∀ st h r tr,
  crawl_pages W tab lang action_url exposed_items v delay_s pages st h = (r, tr) →
  empty_streak st < 2 → no_new_streak st < 2 →
  streaks_in_range tr.
Proof.
  induction pages as [|page rest IH]; intros st h r tr Hrun He Hn.
  { apply pair_equal_spec in Hrun as [<- <-]. constructor. }
  rewrite crawl_pages_cons in Hrun.
  destruct (crawl_page _ _ _ _ _ _ _ _ _ _) as [r1 t] eqn:E1.
  assert (Ht : streaks_in_range t).
  { destruct (crawl_page_inv _ _ _ _ _ _ _ _ _ _ _ _ E1) as
      [(_ & _ & ->)|[(_ & e & tf & Hf & _ & ->)|(_ & links & tf & Hf & _ & ->)]].
    - in_range.
    - apply Forall_app. split; [in_range|]. by eapply fetch_page_links_streaks.
    - apply Forall_app. split; [in_range|]. apply Forall_app.
      split; [by eapply fetch_page_links_streaks|by apply accounted_streaks_in_range]. }
  destruct (crawl_page_requests _ _ _ _ _ _ _ _ _ _ _ _ E1) as
    [(_ & -> & _)|(_ & _ & _ & _ & _ & Hend)].
  { by apply pair_equal_spec in Hrun as [<- <-]. }
  destruct r1 as [[st'|st']|e].
  - destruct (crawl_pages _ _ _ _ _ _ _ rest st' _) as [r' tr'] eqn:E2.
    apply pair_equal_spec in Hrun as [<- <-]. destruct Hend as [_ Hnext].
    destruct (Hnext He Hn). apply Forall_app. split; [done|]. by eapply IH.
  - by apply pair_equal_spec in Hrun as [<- <-].
  - by apply pair_equal_spec in Hrun as [<- <-].
Qed.

End Streaks.

(** A site that behaves as [W] and raises the stop flag once [n] pages have
    been searched. *)
Definition stop_after (n : nat) (W : World) : World :=
  mkWorld (http_get W) (http_post W) (fun h => bool_decide (n ≤ length (searches h))).

(** X1.  The flag is read once at the head of every iteration, before the
    page is searched.  Reading it as set ends the loop on the spot: the reading is
    the last event of the run, no request follows it, and the run returns
    what the answers before it have brought. *)
Theorem stop_flag_ends_page_loop (L : Lib) (W : World) (tab : TabDef)
    (lang action_url : str) (exposed_items : list (str * str)) (v : ViewInfo)
    (delay_s : Q) (pages : list nat) (st : CrawlState) (h : list event) :
  let run := crawl_pages W tab lang action_url exposed_items v delay_s pages st h in
  (∃ stopped : bool,
     polls run.2 = repeat false (length (searches run.2))
                   ++ (if stopped then [true] else [])) ∧
  (∀ before after, run.2 = before ++ EvStopFlag true :: after →
     after = [] ∧
     ∃ st', run.1 = Ok st' ∧
            all_links st' = all_links st
              ++ new_items (List.map strip_language_param (discovered tab before)) (seen st)) ∧
  (stop_requested W h = true → pages ≠ [] → run = (Ok st, [EvStopFlag true])).
Proof.
  intros run.
  destruct run as [r tr] eqn:Erun. subst run. cbn [fst snd].
  destruct (crawl_pages_requests _ _ _ _ _ _ _ _ _ _ _ _ Erun)
    as (Hpolls & _ & _ & _ & Hlast & Hok & _).
  split; [done|]. split.
  - intros before after Heq.
    assert (after = []) as -> by (by apply (Hlast before (EvStopFlag true) after)).
    split; [done|].
    destruct Hok as [st' ->]; [by exists before, (EvStopFlag true)|].
    exists st'. split; [done|].
    destruct (crawl_pages_links _ _ _ _ _ _ _ _ _ _ _ _ Erun) as [Hall _].
    by rewrite Hall, Heq, discovered_app, app_nil_r.
  - intros Hstop Hne. destruct pages as [|page rest]; [done|].
    rewrite crawl_pages_cons, crawl_page_eq, Hstop in Erun. by rewrite <- Erun.
Qed.

Lemma stop_flag_ends_page_loop_witness :
  let run := @crawl_pages Reference.lib (stop_after 2 late_news_site) tab_register (py "de")
               register_action [] some_view 0 (seq 0 7) (mkState [] ∅ 0 0) [] in
  polls run.2 = [false; false; true] ∧
  ∃ st', run.1 = Ok st' ∧ all_links st' = [py "https://www.portafontium.eu/iipimage/100"].
Proof.
  intros run.
  destruct (stop_flag_ends_page_loop Reference.lib (stop_after 2 late_news_site) tab_register
              (py "de") register_action [] some_view 0%Q (seq 0 7) (mkState [] ∅ 0 0) [])
    as (_ & Hstop & _).
  fold run in Hstop. split; [vm_compute; reflexivity|].
  destruct (Hstop (removelast run.2) []) as (_ & st' & Hrun & Hall).
  { vm_compute. reflexivity. }
  exists st'. split; [exact Hrun|]. rewrite Hall. vm_compute. reflexivity.
Defined.

(** X2.  The streak a page reports is one or two, and a streak of two is the
    last thing the page loop reports: two pages in a row without links end
    the loop, and so do two pages in a row that show links but none that is
    new.  The loop leaves both counters at two at most. *)
Theorem streak_of_two_ends_page_loop (L : Lib) (W : World) (tab : TabDef)
    (lang action_url : str) (exposed_items : list (str * str)) (v : ViewInfo)
    (delay_s : Q) (pages : list nat) (st : CrawlState) (h : list event) :
  empty_streak st < 2 → no_new_streak st < 2 →
  let run := crawl_pages W tab lang action_url exposed_items v delay_s pages st h in
  (∀ before e n after, run.2 = before ++ e :: after → logged_streak e = Some n →
     1 ≤ n ≤ 2 ∧ (n = 2 → after = [] ∧ ∃ st', run.1 = Ok st')) ∧
  (∀ st', run.1 = Ok st' → empty_streak st' ≤ 2 ∧ no_new_streak st' ≤ 2).
Proof.
  intros He Hn run.
  destruct run as [r tr] eqn:Erun. subst run. cbn [fst snd].
  destruct (crawl_pages_requests _ _ _ _ _ _ _ _ _ _ _ _ Erun)
    as (_ & _ & _ & _ & Hlast & Hok & Hst).
  pose proof (crawl_pages_streaks _ _ _ _ _ _ _ _ _ _ _ _ Erun He Hn) as Hrange.
  split; [|by apply Hst].
  intros before e n after Heq Hlog. split.
  - rewrite Heq in Hrange. apply Forall_app in Hrange as [_ Hrange].
    apply Forall_cons in Hrange as [Hrange _]. by apply Hrange.
  - intros ->.
    assert (closing e = true) as Hclose.
    { destruct e as [| | | |[]]; try done; by injection Hlog as ->. }
    assert (after = []) as -> by (by apply (Hlast before e after)).
    split; [done|]. apply Hok. by exists before, e.
Qed.

Lemma streak_of_two_ends_page_loop_witness :
  let run := @crawl_pages Reference.lib quiet_site tab_register (py "de")
               register_action [] some_view 0 (seq 0 7) (mkState [] ∅ 0 0) [] in
  searches run.2 = [0; 1; 2; 3] ∧ last run.2 = Some (EvLog (LogEmptyPage 2)).
Proof.
  intros run.
  destruct (streak_of_two_ends_page_loop Reference.lib quiet_site tab_register
              (py "de") register_action [] some_view 0%Q (seq 0 7) (mkState [] ∅ 0 0) [])
    as (Hlog & _); [cbn; lia|cbn; lia|].
  fold run in Hlog.
  split; [vm_compute; reflexivity|].
  assert (∃ before after, run.2 = before ++ EvLog (LogEmptyPage 2) :: after)
    as (before & after & Heq).
  { exists (removelast run.2), []. vm_compute. reflexivity. }
  destruct (Hlog before _ 2 after Heq eq_refl) as (_ & Hend).
  destruct Hend as (-> & _); [done|]. rewrite Heq. apply last_snoc.
Defined.

(* ================================================================== *)
(** * The view metadata *)
(* ================================================================== *)

(** The bare page of a category, which the crawl reads when the view
    metadata it was given is incomplete (line 821). *)
Definition boot_url (tab : TabDef) (lang : str) : str :=
  BASE ++ path tab ++ py "?language=" ++ lang.

(** [a or b] where [b] is a string. *)
Definition or_else (a : option str) (b : str) : str :=
  if truthy a then str_of a else b.

(** [info.get(k)] *)
Definition info_get (info : gmap str str) (k : string) : option str := info !! py k.

Section ViewInfo.
Context `{L : Lib} (W : World).

(** [resolve_view_info], outcome by outcome. *)
Lemma resolve_view_info_eq (tab : TabDef) (lang : str) (view_info : gmap str str)
    (h : list event) :
  resolve_view_info W tab lang view_info h =
  let finish v t :=
    if negb (nonempty (view_dom_id v)) then
      (Raise (RuntimeError (py "Konnte view_dom_id nicht ermitteln.")), t)
    else if negb (nonempty (view_display_id v)) then
      (Raise (RuntimeError (py "Konnte view_display_id nicht ermitteln.")), t)
    else (Ok v, t ++ [EvLog (LogDebugView (view_name v) (view_display_id v) (view_dom_id v))]) in
  if truthy (info_get view_info "view_dom_id") && truthy (info_get view_info "view_display_id")
  then
    finish (mkView (or_else (info_get view_info "view_name") (py "solr_searching"))
                   (str_of (info_get view_info "view_display_id"))
                   (str_of (info_get view_info "view_dom_id"))
                   (info_get view_info "theme") (info_get view_info "theme_token")) []
  else
    match http_get W h (boot_url tab lang) with
    | None => (Raise FetchError, [EvGet (boot_url tab lang) None])
    | Some boot =>
        let boot_info := parse_drupal_view_info boot in
        finish (mkView (or_else (info_get view_info "view_name") (py "solr_searching"))
                       (or_else (info_get view_info "view_display_id")
                                (or_else (info_get boot_info "view_display_id") []))
                       (str_of (py_or (info_get view_info "view_dom_id")
                                      (info_get boot_info "view_dom_id")))
                       (py_or (info_get view_info "theme") (info_get boot_info "theme"))
                       (py_or (info_get view_info "theme_token")
                              (info_get boot_info "theme_token")))
               [EvGet (boot_url tab lang) (Some boot)]
    end.
Proof.
  unfold resolve_view_info, info_get. fold (boot_url tab lang).
  generalize (view_info !! py "view_name") (view_info !! py "view_display_id")
             (view_info !! py "view_dom_id") (view_info !! py "theme")
             (view_info !! py "theme_token").
  intros name display_id dom_id th token.
  assert (Hor : ∀ a b, truthy (py_or a (Some b)) = truthy a || nonempty b).
  { intros a b. unfold py_or. by destruct (truthy a) eqn:E; cbn; rewrite ?E. }
  assert (Hstr : ∀ a b, str_of (py_or a (Some b)) = or_else a b).
  { intros a b. unfold py_or, or_else. by destruct (truthy a). }
  assert (Hstr' : ∀ a b c, str_of (py_or (py_or a b) (Some c)) = or_else a (or_else b c)).
  { intros a b c. unfold py_or, or_else. destruct (truthy a) eqn:E; [by rewrite E|].
    by destruct (truthy b). }
  assert (Hname : ∀ b, py_or (py_or name (Some (py "solr_searching"))) b
                       = py_or name (Some (py "solr_searching"))).
  { intros b. unfold py_or. by destruct (truthy name) eqn:E; [rewrite E|]. }
  assert (Hdisp : ∀ b, py_or (py_or display_id (Some [])) b = py_or display_id b).
  { intros b. unfold py_or. by destruct (truthy display_id) eqn:E; [rewrite E|]. }
  rewrite Hor. cbn [nonempty]. rewrite orb_false_r, <- negb_andb.
  unfold mbind, M_bind.
  destruct (truthy dom_id && truthy display_id) eqn:Eb; cbn [negb].
  - apply andb_true_iff in Eb as [Ed Ei]. unfold ret at 1. rewrite !Hstr.
    cbn [view_dom_id view_display_id view_name].
    assert (or_else display_id [] = str_of display_id) as -> by (unfold or_else; by rewrite Ei).
    destruct (nonempty (str_of dom_id)); cbn [negb]; [|done].
    destruct (nonempty (str_of display_id)); cbn [negb]; [|done].
    unfold log_cb, ret. cbn. done.
  - unfold fetch_html. destruct (http_get W h (boot_url tab lang)) as [boot|]; [|done].
    unfold ret at 1. rewrite !Hname, Hdisp, Hstr', !Hstr.
    cbn [view_dom_id view_display_id view_name].
    set (v1 := or_else display_id _). set (v2 := str_of (py_or dom_id _)).
    destruct (nonempty v2); cbn [negb]; [|unfold raise; by rewrite app_nil_r].
    destruct (nonempty v1); cbn [negb]; [|unfold raise; by rewrite app_nil_r].
    unfold log_cb, ret. cbn. done.
Qed.

Lemma nonempty_str_of (a : option str) : nonempty (str_of a) = truthy a.
Proof. by destruct a. Qed.

Lemma or_else_nonempty (a : option str) (b : str) :
  nonempty (or_else a b) = truthy a || nonempty b.
Proof. unfold or_else. destruct (truthy a) eqn:E; [|done]. by rewrite nonempty_str_of. Qed.

Lemma truthy_py_or (a b : option str) : truthy (py_or a b) = truthy a || truthy b.
Proof. unfold py_or. by destruct (truthy a) eqn:E; rewrite ?E. Qed.

(** Resolving the metadata sends at most one request, the GET of the bare
    page, and searches nothing. *)
Lemma resolve_view_info_requests (tab : TabDef) (lang : str) (view_info : gmap str str)
    (h : list event) r t :
  resolve_view_info W tab lang view_info h = (r, t) →
  (gets t = [] ∨ gets t = [boot_url tab lang]) ∧ posts t = [] ∧ polls t = [].
Proof.
  rewrite resolve_view_info_eq. cbv zeta.
  destruct (truthy _ && truthy _).
  - repeat match goal with |- context [if ?b then _ else _] => destruct b end;
      intros [<- <-]%pair_equal_spec; cbn; auto.
  - destruct (http_get W h (boot_url tab lang)) as [boot|].
    + repeat match goal with |- context [if ?b then _ else _] => destruct b end;
        intros [<- <-]%pair_equal_spec; cbn; auto.
    + intros [<- <-]%pair_equal_spec; cbn; auto.
Qed.

End ViewInfo.

(** X3.  When the view metadata resolves, both identifiers are non-empty and
    every non-empty value the caller gave is used as it is.  The name of
    the view is the caller's or, failing that, "solr_searching": it is never
    read from the bare page.  With both identifiers given, no request is
    made; otherwise the bare page of the category is read once, and only the
    values the caller left out are taken from it. *)
Theorem view_metadata_resolved (L : Lib) (W : World) (tab : TabDef) (lang : str)
    (view_info : gmap str str) (h : list event) (v : ViewInfo) (t : list event) :
  resolve_view_info W tab lang view_info h = (Ok v, t) →
  let given := info_get view_info in
  let debug := EvLog (LogDebugView (view_name v) (view_display_id v) (view_dom_id v)) in
  view_name v = or_else (given "view_name"%string) (py "solr_searching") ∧
  view_dom_id v ≠ [] ∧ view_display_id v ≠ [] ∧
  (truthy (given "view_dom_id"%string) = true →
     view_dom_id v = str_of (given "view_dom_id"%string)) ∧
  (truthy (given "view_display_id"%string) = true →
     view_display_id v = str_of (given "view_display_id"%string)) ∧
  (truthy (given "theme"%string) = true → theme v = given "theme"%string) ∧
  (truthy (given "theme_token"%string) = true →
     theme_token v = given "theme_token"%string) ∧
  if truthy (given "view_dom_id"%string) && truthy (given "view_display_id"%string)
  then t = [debug] ∧ theme v = given "theme"%string ∧
       theme_token v = given "theme_token"%string
  else ∃ boot, http_get W h (boot_url tab lang) = Some boot ∧
         t = [EvGet (boot_url tab lang) (Some boot); debug] ∧
         let found := info_get (parse_drupal_view_info boot) in
         (truthy (given "view_dom_id"%string) = false →
            view_dom_id v = str_of (found "view_dom_id"%string)) ∧
         (truthy (given "view_display_id"%string) = false →
            view_display_id v = str_of (found "view_display_id"%string)) ∧
         (truthy (given "theme"%string) = false → theme v = found "theme"%string) ∧
         (truthy (given "theme_token"%string) = false →
            theme_token v = found "theme_token"%string).
Proof.
  rewrite resolve_view_info_eq. cbv zeta.
  destruct (truthy (info_get view_info "view_dom_id")) eqn:Ed;
    destruct (truthy (info_get view_info "view_display_id")) eqn:Ei; cbn [andb].
  1: { cbn [view_dom_id view_display_id]. rewrite !nonempty_str_of, Ed, Ei. cbn [negb].
       intros [[= <-] <-]%pair_equal_spec. cbn.
       rewrite <- !nonempty_true, !nonempty_str_of. done. }
  all: destruct (http_get W h (boot_url tab lang)) as [boot|]; [|done];
    cbn [view_dom_id view_display_id];
    destruct (nonempty (str_of _)) eqn:Edom; cbn [negb]; [|done];
    destruct (nonempty (or_else _ _)) eqn:Edisp; cbn [negb]; [|done];
    intros [[= <-] <-]%pair_equal_spec; cbn;
    rewrite <- !nonempty_true, Edom, Edisp;
    unfold py_or, or_else; rewrite ?Ed, ?Ei;
    (do 3 (split; [done|]));
    (split; [done|]); (split; [done|]);
    (split; [by intros ->|]); (split; [by intros ->|]);
    exists boot; (split; [done|]); (split; [done|]);
    (split; [try done|]); (split; [try done|]);
    try (split; by intros ->).
  - intros _. unfold or_else in Edisp |- *. rewrite Ei in Edisp.
    destruct (truthy (info_get (parse_drupal_view_info boot) "view_display_id")); [done|].
    done.
  - intros _. unfold or_else in Edisp |- *. rewrite Ei in Edisp.
    destruct (truthy (info_get (parse_drupal_view_info boot) "view_display_id")); [done|].
    done.
Qed.

Lemma view_metadata_resolved_witness :
  ∃ v, @resolve_view_info Reference.lib dead_site tab_register (py "de") known_view []
       = (Ok v, [EvLog (LogDebugView (py "solr_searching") (py "page")
                                     (py "0123456789abcdef0123456789abcdef"))]) ∧
       view_name v = py "solr_searching".
Proof.
  destruct (@resolve_view_info Reference.lib dead_site tab_register (py "de") known_view [])
    as [[v|e] t] eqn:E; [|vm_compute in E; discriminate E].
  pose proof (view_metadata_resolved Reference.lib dead_site tab_register (py "de")
                known_view [] v t E) as H.
  cbv zeta in H. destruct H as (Hname & _).
  exists v. split; [|rewrite Hname; reflexivity].
  vm_compute in E. injection E as <- <-. reflexivity.
Defined.

(** X4.  When the view metadata does not resolve, the crawl fails with the
    same error before any page is searched and without any POST.  The
    caller had then left out an identifier, and either the bare page could
    not be read, or it was read and the identifier of the DOM element is
    missing from both sources, or that one is known and the identifier of
    the display is missing from both. *)
Theorem unresolved_view_aborts_crawl (L : Lib) (W : World) (tab : TabDef)
    (lang action_url : str) (exposed_items : list (str * str))
    (view_info : gmap str str) (max_pages : Z) (delay_s : Q) (h : list event)
    (e : exn) (t : list event) :
  resolve_view_info W tab lang view_info h = (Raise e, t) →
  let given := info_get view_info in
  crawl_tab_links W tab lang action_url exposed_items view_info max_pages delay_s h
    = (Raise e, t) ∧
  searches t = [] ∧ posts t = [] ∧
  truthy (given "view_dom_id"%string) && truthy (given "view_display_id"%string) = false ∧
  ((e = FetchError ∧ t = [EvGet (boot_url tab lang) None])
   ∨ ∃ boot, t = [EvGet (boot_url tab lang) (Some boot)] ∧
       let found := info_get (parse_drupal_view_info boot) in
       (e = RuntimeError (py "Konnte view_dom_id nicht ermitteln.") ∧
        truthy (given "view_dom_id"%string) = false ∧
        truthy (found "view_dom_id"%string) = false)
       ∨ (e = RuntimeError (py "Konnte view_display_id nicht ermitteln.") ∧
          truthy (given "view_dom_id"%string) || truthy (found "view_dom_id"%string) = true ∧
          truthy (given "view_display_id"%string) = false ∧
          truthy (found "view_display_id"%string) = false)).
Proof.
  intros Hres. cbv zeta.
  split; [by rewrite crawl_tab_links_eq, Hres|].
  destruct (resolve_view_info_obs _ _ _ _ _ _ _ Hres) as [Hs _].
  destruct (resolve_view_info_requests _ _ _ _ _ _ _ Hres) as (_ & Hp & _).
  split; [done|]. split; [done|].
  revert Hres. rewrite resolve_view_info_eq. cbv zeta.
  destruct (truthy (info_get view_info "view_dom_id")) eqn:Ed;
    destruct (truthy (info_get view_info "view_display_id")) eqn:Ei; cbn [andb].
  1: { cbn [view_dom_id view_display_id]. by rewrite !nonempty_str_of, Ed, Ei. }
  all: destruct (http_get W h (boot_url tab lang)) as [boot|];
    [|intros [[= <-] <-]%pair_equal_spec; split; [done|]; by left].
  all: cbn [view_dom_id view_display_id];
    rewrite nonempty_str_of, truthy_py_or, or_else_nonempty, or_else_nonempty, ?Ed, ?Ei;
    cbn [orb nonempty]; rewrite ?orb_false_r;
    destruct (truthy (info_get (parse_drupal_view_info boot) "view_dom_id")) eqn:Ed';
    destruct (truthy (info_get (parse_drupal_view_info boot) "view_display_id")) eqn:Ei';
    cbn [negb]; intros [[= <-] <-]%pair_equal_spec; (split; [done|]);
    right; exists boot; (split; [done|]); first [by left | by right].
Qed.

Lemma unresolved_view_aborts_crawl_witness :
  @crawl_tab_links Reference.lib dead_site tab_register (py "de") register_action [] ∅ 7 0 []
  = (Raise FetchError,
     [EvGet (py "https://www.portafontium.eu/searching/register?language=de") None]).
Proof.
  pose proof (unresolved_view_aborts_crawl Reference.lib dead_site tab_register (py "de")
                register_action [] ∅ 7%Z 0%Q [] FetchError
                [EvGet (py "https://www.portafontium.eu/searching/register?language=de") None])
    as H.
  apply H. vm_compute. reflexivity.
Defined.

(** X5.  With a page budget of zero or less the loop body never runs: once
    the view metadata has resolved, the crawl returns the empty list and
    does nothing more, for every category. *)
Theorem empty_budget_searches_nothing (L : Lib) (W : World) (tab : TabDef)
    (lang action_url : str) (exposed_items : list (str * str))
    (view_info : gmap str str) (max_pages : Z) (delay_s : Q) (h : list event)
    (v : ViewInfo) (t0 : list event) :
  (max_pages ≤ 0)%Z →
  resolve_view_info W tab lang view_info h = (Ok v, t0) →
  crawl_tab_links W tab lang action_url exposed_items view_info max_pages delay_s h
    = (Ok [], t0).
Proof.
  intros Hmax Hres. rewrite crawl_tab_links_eq, Hres.
  assert (Z.to_nat max_pages = 0) as -> by lia. cbn [seq crawl_pages].
  unfold mret, M_ret, ret. cbn [all_links].
  destruct (is_periodical tab); cbn; by rewrite ?app_nil_r.
Qed.

Lemma empty_budget_searches_nothing_witness :
  @crawl_tab_links Reference.lib late_news_site tab_periodical (py "de") register_action []
                   known_view (-3) 0 []
  = (Ok [], [EvLog (LogDebugView (py "solr_searching") (py "page")
                                 (py "0123456789abcdef0123456789abcdef"))]).
Proof.
  apply (empty_budget_searches_nothing Reference.lib late_news_site tab_periodical (py "de")
           register_action [] known_view (-3)%Z 0%Q [] some_view); [lia|].
  vm_compute. reflexivity.
Defined.

(** X6.  What a crawl of a category other than the periodical one sends:
    at most one GET of the bare page, then for each page searched one GET of
    its visible URL, in the order of the pages; its POSTs all go to the
    asynchronous endpoint, and there are no more of them than pages
    searched.  The pages searched are the first ones of the budget, so a
    budget of [max_pages] pages bounds the requests by [1 + 2 * max_pages]. *)
Theorem crawl_request_budget (L : Lib) (W : World) (tab : TabDef)
    (lang action_url : str) (exposed_items : list (str * str))
    (view_info : gmap str str) (max_pages : Z) (delay_s : Q) (h : list event) :
  is_periodical tab = false →
  let tr := (crawl_tab_links W tab lang action_url exposed_items view_info
                             max_pages delay_s h).2 in
  (∃ boots, (boots = [] ∨ boots = [boot_url tab lang]) ∧
     gets tr = boots ++ List.map (build_visible_url action_url lang exposed_items)
                                 (searches tr)) ∧
  searches tr `prefix_of` seq 0 (Z.to_nat max_pages) ∧
  Forall (eq ajax_url) (posts tr) ∧
  length (posts tr) ≤ length (searches tr) ∧
  length (gets tr) + length (posts tr) ≤ 1 + 2 * Z.to_nat max_pages.
Proof.
  intros Hper. cbv zeta. rewrite crawl_tab_links_eq, Hper.
  destruct (resolve_view_info W tab lang view_info h) as [[v|e] t0] eqn:Ev;
    destruct (resolve_view_info_requests _ _ _ _ _ _ _ Ev) as (Hg0 & Hp0 & _);
    destruct (resolve_view_info_obs _ _ _ _ _ _ _ Ev) as [Hs0 _].
  2: { cbn [snd]. rewrite Hs0, Hp0. split.
       - exists (gets t0). by rewrite app_nil_r.
       - split; [apply prefix_nil|]. split; [done|]. split; [done|].
         destruct Hg0 as [-> | ->]; cbn; lia. }
  destruct (crawl_pages _ _ _ _ _ _ _ _ _ _) as [r1 t1] eqn:Ep.
  destruct (crawl_pages_requests _ _ _ _ _ _ _ _ _ _ _ _ Ep) as (_ & Hg & Hpo & Hlen & _).
  pose proof (crawl_pages_searches _ _ _ _ _ _ _ _ _ _ _ _ Ep) as Hpre.
  assert (Hbound : length (searches t1) ≤ Z.to_nat max_pages).
  { apply prefix_length in Hpre. by rewrite length_seq in Hpre. }
  assert (Htr : ∃ tr, (match r1 with
                       | Ok st => (Ok (final_links (all_links st)), t0 ++ t1)
                       | Raise e => (Raise e, t0 ++ t1)
                       end).2 = tr ∧ tr = t0 ++ t1).
  { destruct r1; by eexists. }
  destruct Htr as (tr & -> & ->).
  rewrite searches_app, gets_app, posts_app, Hs0, Hp0, Hg. cbn [app].
  split; [by exists (gets t0)|]. split; [done|]. split; [done|]. split; [done|].
  rewrite length_app, length_map. destruct Hg0 as [-> | ->]; cbn; lia.
Qed.

Lemma crawl_request_budget_witness :
  gets late_news_run.2 = List.map register_page [0; 1; 2; 3; 4; 5; 6] ∧
  posts late_news_run.2 = [py "https://www.portafontium.eu/views/ajax"].
Proof.
  pose proof (crawl_request_budget Reference.lib late_news_site tab_register (py "de")
                register_action [] known_view 7%Z 0%Q [] eq_refl) as H.
  cbv zeta in H. destruct H as ((boots & _ & Hgets) & _ & Hposts & _).
  split; [vm_compute; reflexivity|].
  fold late_news_run in Hposts.
  assert (length (posts late_news_run.2) = 1) as Hlen by (vm_compute; reflexivity).
  destruct (posts late_news_run.2) as [|p [|? ?]]; [done| |done].
  apply Forall_cons in Hposts as [<- _]. reflexivity.
Defined.

(* ================================================================== *)
(** * More about the periodical expansion *)
(* ================================================================== *)




Section ExpansionRequests.
Context `{L : Lib} (W : World).
Variable delay_s : Q.




End ExpansionRequests.



(* ================================================================== *)
(** * The bookkeeping of the page loop *)
(* ================================================================== *)

Lemma sum_list_append (l1 l2 : list nat) :
  sum_list (l1 ++ l2) = sum_list l1 + sum_list l2.
Proof. induction l1 as [|n l1 IH]; cbn; lia. Qed.

(** The page loop adds to [all_links] as many links as its pages report as
    new. *)
Lemma crawl_pages_gain `{L : Lib} W tab lang action_url exposed_items v delay_s pages :
  ∀ st h st' tr,
  crawl_pages W tab lang action_url exposed_items v delay_s pages st h = (Ok st', tr) →
  length (all_links st') = length (all_links st) + sum_list (new_counts tr).
Proof.
  induction pages as [|page rest IH]; intros st h st' tr Hrun.
  { apply pair_equal_spec in Hrun as [[= <-] <-]. cbn. lia. }
  rewrite crawl_pages_cons in Hrun.
  destruct (crawl_page _ _ _ _ _ _ _ _ _ _) as [r1 t] eqn:E1.
  destruct (crawl_page_inv _ _ _ _ _ _ _ _ _ _ _ _ E1) as
    [(_ & -> & ->)|[(_ & e' & tf & Hf & -> & ->)|(_ & links & tf & Hf & -> & ->)]].
  - apply pair_equal_spec in Hrun as [[= <-] <-]. cbn. lia.
  - done.
  - destruct (fetch_page_links_obs _ _ _ _ _ _ _ _ _ _ Hf) as (_ & Hc & _).
    destruct (accounted_obs tab delay_s st links) as (_ & _ & Hc' & Hall & _).
    set (pre := page_prefix lang action_url exposed_items page) in *.
    assert (Hcount : sum_list (new_counts (pre ++ tf ++ (accounted delay_s st links).2))
                     = length (all_links (state_of (accounted delay_s st links).1))
                       - length (all_links st)).
    { rewrite !new_counts_app, Hc, Hc', Hall, length_app. cbn. lia. }
    assert (Hgrow : length (all_links st)
                    ≤ length (all_links (state_of (accounted delay_s st links).1))).
    { rewrite Hall, length_app. lia. }
    destruct (accounted delay_s st links).1 as [st1|st1]; cbn [state_of] in *.
    + destruct (crawl_pages _ _ _ _ _ _ _ rest st1 _) as [r' tr'] eqn:E2.
      apply pair_equal_spec in Hrun as [-> <-].
      rewrite (IH _ _ _ _ E2), new_counts_app, sum_list_append. lia.
    + apply pair_equal_spec in Hrun as [[= <-] <-]. lia.
Qed.

(** X9.  The page loop keeps its two records in step: when [seen] holds
    exactly the links collected so far and these are pairwise different, as
    at the start of a crawl, the same is true when the loop ends.  What was
    collected before stays in place at the head of the list, and the list
    grows by as many links as the pages report as new. *)
Theorem page_loop_keeps_records_in_step (L : Lib) (W : World) (tab : TabDef)
    (lang action_url : str) (exposed_items : list (str * str)) (v : ViewInfo)
    (delay_s : Q) (pages : list nat) (st st' : CrawlState) (h tr : list event) :
  crawl_pages W tab lang action_url exposed_items v delay_s pages st h = (Ok st', tr) →
  (∀ x, x ∈ seen st ↔ x ∈ all_links st) →
  NoDup (all_links st) →
  (∀ x, x ∈ seen st' ↔ x ∈ all_links st') ∧
  NoDup (all_links st') ∧
  all_links st `prefix_of` all_links st' ∧
  length (all_links st') = length (all_links st) + sum_list (new_counts tr).
Proof.
  intros Hrun Hseen Hnd.
  destruct (crawl_pages_links _ _ _ _ _ _ _ _ _ _ _ _ Hrun) as [Hall Hseen'].
  split.
  { intros x. rewrite Hseen', Hall, elem_of_union, elem_of_app, elem_of_new_items,
      elem_of_list_to_set, Hseen.
    destruct (decide (x ∈ all_links st)); tauto. }
  split.
  { rewrite Hall. apply NoDup_app_new_items; [done|]. intros x. by rewrite Hseen. }
  split; [rewrite Hall; by apply prefix_app_r|].
  by eapply crawl_pages_gain.
Qed.

(** A run that does not raise has a result. *)
Definition is_ok {A} (r : result A) : bool :=
  match r with Ok _ => true | Raise _ => false end.

Lemma run_result {A} (run : result A * list event) :
  is_ok run.1 = true → ∃ a, run = (Ok a, run.2).
Proof. destruct run as [[a|e] t]; [by exists a|done]. Qed.

Lemma page_loop_keeps_records_in_step_witness :
  ∃ st' tr,
    @crawl_pages Reference.lib late_news_site tab_register (py "de") register_action []
                 some_view 0 (seq 0 7) (mkState [] ∅ 0 0) [] = (Ok st', tr) ∧
    NoDup (all_links st') ∧ length (all_links st') = 5.
Proof.
  assert (Hseen : ∀ x : str, x ∈ seen (mkState [] ∅ 0 0) ↔ x ∈ all_links (mkState [] ∅ 0 0))
    by (intros x; cbn; set_solver).
  assert (Hnd : NoDup (all_links (mkState [] ∅ 0 0))) by constructor.
  assert (Hok : is_ok (@crawl_pages Reference.lib late_news_site tab_register (py "de")
                         register_action [] some_view 0 (seq 0 7) (mkState [] ∅ 0 0) []).1
                = true) by (vm_compute; reflexivity).
  assert (Hcounts : sum_list (new_counts
                      (@crawl_pages Reference.lib late_news_site tab_register (py "de")
                         register_action [] some_view 0 (seq 0 7) (mkState [] ∅ 0 0) []).2) = 5)
    by (vm_compute; reflexivity).
  destruct (run_result _ Hok) as [st' E].
  exists st', (@crawl_pages Reference.lib late_news_site tab_register (py "de")
                 register_action [] some_view 0 (seq 0 7) (mkState [] ∅ 0 0) []).2.
  split; [exact E|].
  destruct (page_loop_keeps_records_in_step Reference.lib late_news_site tab_register (py "de")
              register_action [] some_view 0%Q (seq 0 7) (mkState [] ∅ 0 0) st' [] _ E Hseen Hnd)
    as (_ & Hnd' & _ & Hlen).
  split; [exact Hnd'|]. rewrite Hlen. exact Hcounts.
Defined.

(* ================================================================== *)
(** * The answer of the asynchronous endpoint *)
(* ================================================================== *)

Lemma html_parts_marked (cmds : json) :
  Forall (λ part, contains (py "<") part = true) (html_parts cmds).
Proof.
  destruct cmds as [|items| |]; try constructor.
  cbn [html_parts]. apply Forall_flat_map, Forall_forall. intros cmd _.
  destruct cmd as [| |fields|]; try constructor.
  apply Forall_flat_map, Forall_forall. intros k _.
  destruct (dict_get fields k) as [[part| | |]|]; try constructor.
  destruct (contains (py "<") part) eqn:E; by repeat constructor.
Qed.

(** X10.  How the answer of the asynchronous endpoint is read.  An answer
    that is not JSON is taken as the markup itself.  From a JSON answer only
    the "data" and "markup" strings of the objects of a top-level list are
    taken, and only those that contain "<"; a JSON answer of any other
    shape gives the empty text.  When nothing is taken and the HTML parser
    finds no anchor in the empty text, the page has no link, whatever the
    category. *)
Theorem ajax_answer_decoding (L : Lib) (text : str) :
  (json_loads text = None → ajax_fragment text = text) ∧
  (∀ cmds, json_loads text = Some cmds →
     ajax_fragment text = join [10%N] (html_parts cmds) ∧
     Forall (λ part, contains (py "<") part = true) (html_parts cmds) ∧
     ((∀ items, cmds ≠ JList items) → ajax_fragment text = []) ∧
     (html_parts cmds = [] →
      (∀ hrefs, anchor_hrefs [] = Some hrefs → hrefs = []) →
      ∀ tab, extract_links_from_html tab (ajax_fragment text) = [])).
Proof.
  unfold ajax_fragment. split; [by intros ->|].
  intros cmds ->. split; [done|]. split; [apply html_parts_marked|]. split.
  - intros Hshape. destruct cmds as [|items| |]; try done. by destruct (Hshape items).
  - intros -> Hempty tab. cbn [join]. unfold extract_links_from_html.
    cbn [extract_iipimage_ids_anywhere findall_iipimage add_unseen snd nonempty andb].
    rewrite andb_false_r. cbn [List.map add_unseen snd].
    destruct (anchor_hrefs []) as [hrefs|] eqn:Ea.
    + rewrite (Hempty hrefs eq_refl). cbn. by destruct (is_periodical tab).
    + by destruct (is_periodical tab).
Qed.

(** A library whose answers are JSON: the list of one object with an empty
    "data" string. *)
Definition json_lib : Lib :=
  Build_Lib Reference.urlparse Reference.urlunparse Reference.urljoin Reference.parse_qsl
            Reference.urlencode Reference.unicode_digit
            (fun html => Some (Reference.anchor_hrefs_of html))
            (fun _ => Some (JList [JDict [(py "data", JStr [])]; JOther]))
            (fun _ => ∅).

Lemma ajax_answer_decoding_witness :
  @extract_links_from_html json_lib tab_register
     (@ajax_fragment json_lib (py "[{'data': ''}, 1]")) = [].
Proof.
  destruct (ajax_answer_decoding json_lib (py "[{'data': ''}, 1]")) as [_ H].
  destruct (H (JList [JDict [(py "data", JStr [])]; JOther]) eq_refl) as (_ & _ & _ & Hnone).
  apply Hnone; [reflexivity|]. intros hrefs [= <-]. reflexivity.
Defined.

(* ================================================================== *)
(** * Labels of the search forms (lines 199-200, 224-350) *)
(* ================================================================== *)

(** Text with characters beyond ASCII, written in UTF-8. *)
Definition u8 (s : string) : str := Reference.utf8_decode (py s).
Arguments u8 : simpl never.

(** [re.sub(r"\s+", " ", s)]: every maximal run of white space becomes one
    space.  [in_run] tells whether the character before was white space.
    The class [\s] of a [str] pattern holds the characters of
    [str.isspace()]. *)
Fixpoint collapse_spaces (in_run : bool) (s : str) : str :=
  match s with
  | [] => []
  | c :: s' =>
      if isspace c
      then (if in_run then collapse_spaces true s' else 32%N :: collapse_spaces true s')
      else c :: collapse_spaces false s'
  end.

(** Line 200; the callers pass a string ([s or ""] is [s]). *)
Definition _clean_label (s : str) : str := strip (collapse_spaces false s).

(** [s.rstrip()] *)
Definition rstrip (s : str) : str := rev (lstrip (rev s)).

(** Every white space of [s] is a space that stands alone; [after_space]
    tells whether the character before was white space. *)
Fixpoint single_spaced (after_space : bool) (s : str) : bool :=
  match s with
  | [] => true
  | c :: s' =>
      if isspace c then (c =? 32)%N && negb after_space && single_spaced true s'
      else single_spaced false s'
  end.

(** A label in its clean form: no white space at either end, and between
    its words single spaces only. *)
Definition is_clean (s : str) : bool :=
  single_spaced true s &&
  match last s with Some c => negb (isspace c) | None => true end.

Lemma single_spaced_collapse s : ∀ b, single_spaced b (collapse_spaces b s) = true.
Proof.
  induction s as [|c s IH]; intros b; [done|]. cbn [collapse_spaces].
  destruct (isspace c) eqn:Ec.
  - destruct b; [apply IH|]. cbn [single_spaced].
    assert (isspace 32 = true) as -> by reflexivity. by rewrite IH.
  - cbn [single_spaced]. by rewrite Ec.
Qed.

Lemma collapse_single_spaced s : ∀ b, single_spaced b s = true → collapse_spaces b s = s.
Proof.
  induction s as [|c s IH]; intros b H; [done|]. cbn [collapse_spaces single_spaced] in *.
  destruct (isspace c) eqn:Ec.
  - apply andb_true_iff in H as [H Hs]. apply andb_true_iff in H as [Hc Hb].
    apply N.eqb_eq in Hc as ->. destruct b; [done|]. by rewrite IH.
  - by rewrite IH.
Qed.

Lemma single_spaced_weaken s b : single_spaced true s = true → single_spaced b s = true.
Proof.
  destruct s as [|c s]; [done|]. cbn. destruct (isspace c); [|done].
  by rewrite andb_false_r.
Qed.

Lemma single_spaced_lstrip s : ∀ b, single_spaced b s = true → single_spaced true (lstrip s) = true.
Proof.
  induction s as [|c s IH]; intros b H; [done|]. cbn [lstrip].
  destruct (isspace c) eqn:Ec.
  - cbn [single_spaced] in H. rewrite Ec in H.
    apply andb_true_iff in H as [_ H]. by apply (IH true).
  - cbn [single_spaced] in *. by rewrite Ec in *.
Qed.

Lemma single_spaced_app s t : ∀ b,
  single_spaced b (s ++ t) = true → single_spaced b s = true.
Proof.
  induction s as [|c s IH]; intros b H; [done|]. cbn [app single_spaced] in *.
  destruct (isspace c).
  - apply andb_true_iff in H as [H Hs]. rewrite H. by apply IH.
  - by apply IH.
Qed.

(** [lstrip] drops leading white space and nothing else. *)
Lemma lstrip_spec s :
  ∃ ws, s = ws ++ lstrip s ∧ Forall (λ c, isspace c = true) ws ∧
        match lstrip s with c :: _ => isspace c = false | [] => True end.
Proof.
  induction s as [|c s (ws & Hs & Hws & Hhead)]; [by exists []|]. cbn [lstrip].
  destruct (isspace c) eqn:Ec.
  - exists (c :: ws). split; [cbn; by f_equal|]. split; [by constructor|done].
  - by exists [].
Qed.

Lemma lstrip_id s :
  match s with c :: _ => isspace c = false | [] => True end → lstrip s = s.
Proof. destruct s as [|c s]; [done|]. cbn. by intros ->. Qed.

Lemma rstrip_spec s :
  ∃ ws, s = rstrip s ++ ws ∧ Forall (λ c, isspace c = true) ws ∧
        match last (rstrip s) with Some c => isspace c = false | None => True end.
Proof.
  unfold rstrip. destruct (lstrip_spec (rev s)) as (ws & Hs & Hws & Hhead).
  exists (rev ws). split.
  - rewrite <- rev_app_distr, <- Hs. by rewrite rev_involutive.
  - split; [by apply Forall_rev|].
    destruct (lstrip (rev s)) as [|c r]; [done|].
    cbn [rev]. by rewrite last_snoc.
Qed.

Lemma rstrip_id s :
  match last s with Some c => isspace c = false | None => True end → rstrip s = s.
Proof.
  intros H. unfold rstrip. rewrite lstrip_id; [apply rev_involutive|].
  destruct s as [|c s] using rev_ind; [done|].
  rewrite rev_app_distr. cbn. by rewrite last_snoc in H.
Qed.

Lemma strip_rstrip_lstrip s : strip s = rstrip (lstrip s).
Proof. reflexivity. Qed.

Lemma is_clean_spec s :
  is_clean s = true ↔
  single_spaced true s = true ∧
  match last s with Some c => isspace c = false | None => True end.
Proof.
  unfold is_clean. rewrite andb_true_iff.
  destruct (last s) as [c|]; [|tauto]. by rewrite negb_true_iff.
Qed.

Lemma single_spaced_head s :
  single_spaced true s = true → match s with c :: _ => isspace c = false | [] => True end.
Proof.
  destruct s as [|c s]; [done|]. cbn. destruct (isspace c); [|done].
  by rewrite andb_false_r.
Qed.

Lemma strip_clean s : is_clean s = true → strip s = s.
Proof.
  intros [Hs Hl]%is_clean_spec. rewrite strip_rstrip_lstrip.
  rewrite (lstrip_id s) by by apply single_spaced_head. by apply rstrip_id.
Qed.

Lemma is_clean_clean_label s : is_clean (_clean_label s) = true.
Proof.
  unfold _clean_label. rewrite strip_rstrip_lstrip. apply is_clean_spec.
  set (t := lstrip (collapse_spaces false s)).
  assert (Ht : single_spaced true t = true)
    by (eapply single_spaced_lstrip, single_spaced_collapse).
  destruct (rstrip_spec t) as (ws & Heq & _ & Hlast). split; [|done].
  rewrite Heq in Ht. by apply single_spaced_app in Ht.
Qed.

Lemma clean_label_fixed s : is_clean s = true → _clean_label s = s.
Proof.
  intros H. unfold _clean_label. rewrite collapse_single_spaced; [by apply strip_clean|].
  apply single_spaced_weaken. by apply is_clean_spec in H as [H _].
Qed.

Lemma clean_label_idem s : _clean_label (_clean_label s) = _clean_label s.
Proof. apply clean_label_fixed, is_clean_clean_label. Qed.

(** X11.  [_clean_label] puts a label into its clean form: the result has
    no white space at either end and only single spaces inside, whatever the
    white space of the input was (tabs, line breaks, no-break spaces).  A
    label that is clean already is returned unchanged, so cleaning twice is
    cleaning once; in particular a label without white space is left as it
    is, and a label of white space only becomes the empty label. *)
Theorem clean_label_normal_form :
  (∀ s, is_clean (_clean_label s) = true) ∧
  (∀ s, _clean_label s = s ↔ is_clean s = true) ∧
  (∀ s, _clean_label (_clean_label s) = _clean_label s) ∧
  (∀ s, Forall (λ c, isspace c = false) s → _clean_label s = s) ∧
  (∀ s, Forall (λ c, isspace c = true) s → _clean_label s = []).
Proof.
  split; [apply is_clean_clean_label|]. split.
  { intros s. split; [intros <-; apply is_clean_clean_label|apply clean_label_fixed]. }
  split; [apply clean_label_idem|]. split.
  - intros s Hs. apply clean_label_fixed, is_clean_spec. split.
    + assert (∀ b, single_spaced b s = true) as Hall; [|apply Hall].
      induction Hs as [|c s Hc _ IH]; intros b; [done|]. cbn. by rewrite Hc.
    + destruct s as [|c s] using rev_ind; [done|]. rewrite last_snoc.
      by apply Forall_app in Hs as [_ [Hc _]%Forall_cons].
  - intros s Hs. unfold _clean_label.
    assert (Hrun : collapse_spaces true s = []).
    { induction Hs as [|c s Hc _ IH]; [done|]. cbn. by rewrite Hc. }
    destruct Hs as [|c s Hc Hs]; [done|]. cbn [collapse_spaces] in *.
    rewrite Hc in *. by rewrite Hrun.
Qed.

(** [PF_TEXT_DE] (lines 224-248), in the order of the source.  The key
    "Bis Jahr" is written twice there, with the same value both times. *)
Definition PF_TEXT_DE : list (str * str) :=
  [ (u8 "Místo", py "Ort");
    (py "Misto", py "Ort");
    (py "Od roku", py "Von Jahr");
    (py "Do roku", py "Bis Jahr");
    (py "Von Jahr", py "Von Jahr");
    (py "Bis Jahr", py "Bis Jahr");
    (py "Seit Jahr", py "Von Jahr");
    (py "Bis Jahr", py "Bis Jahr");
    (py "Nadpis", py "Titel");
    (py "Titulek", py "Titel");
    (py "Text", py "Text");
    (py "Archiv", py "Archiv");
    (py "Typ", py "Typ");
    (py "Jazyk", py "Sprache");
    (py "Kroniky", py "Chroniken");
    (py "Signatur", py "Signatur");
    (py "Verlagsort", py "Erscheinungsort");
    (py "v seznamu", py "In Liste");
    (u8 "na mapě", py "Auf Karte") ].

(** [PF_OPTION_DE] (lines 250-275). *)
Definition PF_OPTION_DE : list (str * str) :=
  [ (u8 "Obecní kronika", py "Gemeindechronik");
    (u8 "Školní kronika", py "Schulchronik");
    (u8 "Cirkevní kronika", py "Kirchenchronik");
    (u8 "Církevní kronika", py "Kirchenchronik");
    (u8 "Jiné kroniky", py "Andere Chroniken");
    (py "Fotografie", py "Fotografien");
    (u8 "Všechny kroniky", py "Alle Chroniken");
    (u8 "Pouze s obrázky", py "Nur mit Bildern");
    (py "Periodikum", py "Periodikum");
    (py "Kur_listce, Adressbuch", py "Kurliste / Adressbuch");
    (u8 "Kur_listce, adresář", py "Kurliste / Adressbuch");
    (py "Kurliste, Adressbuch", py "Kurliste / Adressbuch");
    (py "CZ", py "Tschechisch (CZ)");
    (py "DE", py "Deutsch (DE)");
    (py "- Alle -", py "- Alle -");
    (u8 "- Vše -", py "- Alle -") ].

(** [d.get(k, dflt)] *)
Definition get_or (d : list (str * str)) (k dflt : str) : str :=
  match assoc k d with Some x => x | None => dflt end.

(** Lines 278-288 *)
Definition _pf_translate_de (text : str) : str :=
  let t := _clean_label text in
  if negb (nonempty t) then t
  else match assoc t PF_TEXT_DE with
       | Some x => x
       | None =>
           match assoc t PF_OPTION_DE with
           | Some x => x
           | None => t
           end
       end.

(** The terms the two tables know, and the terms they give. *)
Definition known_terms : list str := List.map fst (PF_TEXT_DE ++ PF_OPTION_DE).
Definition german_terms : list str := List.map snd (PF_TEXT_DE ++ PF_OPTION_DE).

Lemma assoc_Some k l x : assoc k l = Some x → (k, x) ∈ l.
Proof.
  induction l as [|[k' x'] l IH]; [done|]. cbn.
  destruct (decide (k' = k)) as [->|_].
  - intros [= ->]. left.
  - intros H. right. by apply IH.
Qed.

Lemma assoc_None k l : assoc k l = None → k ∉ List.map fst l.
Proof.
  induction l as [|[k' x'] l IH]; [intros _; apply not_elem_of_nil|]. cbn.
  destruct (decide (k' = k)) as [->|Hne]; [done|].
  intros H. apply not_elem_of_cons. split; [done|by apply IH].
Qed.

Lemma assoc_app k l1 l2 :
  assoc k (l1 ++ l2) = match assoc k l1 with Some x => Some x | None => assoc k l2 end.
Proof.
  induction l1 as [|[k' x'] l1 IH]; [done|]. cbn. by destruct (decide (k' = k)).
Qed.

(** [_pf_translate_de] by the two tables taken as one. *)
Lemma pf_translate_de_eq text :
  _pf_translate_de text =
  get_or (PF_TEXT_DE ++ PF_OPTION_DE) (_clean_label text) (_clean_label text).
Proof.
  unfold _pf_translate_de, get_or. cbv zeta. rewrite assoc_app.
  destruct (_clean_label text) as [|c t] eqn:E; [done|]. cbn [nonempty negb].
  by destruct (assoc (c :: t) PF_TEXT_DE).
Qed.

(** Every term the tables give is clean, is not empty, and is either kept by
    the tables or unknown to them. *)
Lemma german_terms_stable :
  Forall (λ x, is_clean x = true ∧ x ≠ [] ∧ _pf_translate_de x = x) german_terms.
Proof.
  apply Forall_forall. intros x Hx.
  assert (Hb : forallb (λ x, is_clean x && nonempty x
                             && bool_decide (_pf_translate_de x = x)) german_terms = true)
    by (vm_compute; reflexivity).
  rewrite forallb_forall in Hb. apply list_elem_of_In in Hx. specialize (Hb x Hx).
  apply andb_true_iff in Hb as [Hb H3]. apply andb_true_iff in Hb as [H1 H2].
  split; [done|]. split; [by destruct x|]. by apply bool_decide_eq_true in H3.
Qed.

(** No term stands in both tables. *)
Lemma tables_disjoint k x : assoc k PF_OPTION_DE = Some x → assoc k PF_TEXT_DE = None.
Proof.
  intros H. apply assoc_Some in H.
  assert (Hb : forallb (λ kx, bool_decide (assoc kx.1 PF_TEXT_DE = None)) PF_OPTION_DE = true)
    by (vm_compute; reflexivity).
  rewrite forallb_forall in Hb. apply list_elem_of_In in H.
  by apply Hb, bool_decide_eq_true in H.
Qed.

(** What [_pf_translate_de] returns is clean, and translating it again
    gives it back. *)
Lemma pf_translate_de_fixed text :
  is_clean (_pf_translate_de text) = true ∧
  _pf_translate_de (_pf_translate_de text) = _pf_translate_de text.
Proof.
  pose proof german_terms_stable as Hg. rewrite Forall_forall in Hg.
  rewrite (pf_translate_de_eq text). unfold get_or.
  destruct (assoc _ _) as [x|] eqn:E.
  - apply assoc_Some in E. apply (list_elem_of_fmap_2 snd) in E.
    by destruct (Hg _ E) as (? & _ & ?).
  - split; [apply is_clean_clean_label|].
    rewrite pf_translate_de_eq, clean_label_idem. unfold get_or. by rewrite E.
Qed.

Lemma pf_translate_de_idle text : is_clean (_pf_translate_de text) = true.
Proof. apply pf_translate_de_fixed. Qed.

Lemma pf_translate_de_twice text :
  _pf_translate_de (_pf_translate_de text) = _pf_translate_de text.
Proof. apply pf_translate_de_fixed. Qed.

(** X12.  The German wording of a text is found by its clean form, so white
    space around and inside the text makes no difference.  A text the tables
    do not know comes back in its clean form; a text they know comes back as
    one of their German terms.  Either way the result is clean, it is empty
    only when the text was blank, and translating it once more changes
    nothing. *)
Theorem pf_translate_de_settles (text : str) :
  _pf_translate_de (_clean_label text) = _pf_translate_de text ∧
  (_clean_label text ∉ known_terms → _pf_translate_de text = _clean_label text) ∧
  (_clean_label text ∈ known_terms → _pf_translate_de text ∈ german_terms) ∧
  is_clean (_pf_translate_de text) = true ∧
  (_pf_translate_de text = [] ↔ _clean_label text = []) ∧
  _pf_translate_de (_pf_translate_de text) = _pf_translate_de text.
Proof.
  pose proof german_terms_stable as Hg. rewrite Forall_forall in Hg.
  assert (Hcases : (_pf_translate_de text = _clean_label text ∧
                    _clean_label text ∉ known_terms) ∨
                   (_pf_translate_de text ∈ german_terms ∧
                    _clean_label text ∈ known_terms)).
  { rewrite pf_translate_de_eq. unfold get_or, known_terms, german_terms.
    destruct (assoc _ _) as [x|] eqn:E.
    - right. apply assoc_Some in E. split.
      + by apply (list_elem_of_fmap_2 snd _ _ E).
      + by apply (list_elem_of_fmap_2 fst _ _ E).
    - left. split; [done|]. by apply assoc_None. }
  assert (Hclean : _pf_translate_de (_clean_label text) = _pf_translate_de text).
  { rewrite !pf_translate_de_eq. by rewrite clean_label_idem. }
  split; [done|].
  split; [intros Hn; by destruct Hcases as [[? _]|[_ ?]]|].
  split; [intros Hk; by destruct Hcases as [[_ ?]|[? _]]|].
  destruct Hcases as [[Heq _]|[Hin _]].
  - rewrite Heq. split; [apply is_clean_clean_label|]. split; [done|].
    by rewrite Hclean.
  - destruct (Hg _ Hin) as (Hc & Hne & Hfix). split; [done|]. split; [|done].
    split; [done|]. intros Hempty. exfalso.
    unfold _pf_translate_de in Hne. cbv zeta in Hne. by rewrite Hempty in Hne.
Qed.

(** [any(k in n for k in keys)] *)
Definition any_in (keys : list str) (n : str) : bool :=
  existsb (λ k, contains k n) keys.

Section Labels.
(** [s.lower()] on arbitrary text is the library's. *)
Variable str_lower : str → str.

(** Lines 291-328 *)
Definition _pf_label_from_name_de (name current_label : str) : str :=
  let n := str_lower name in
  let cur := _clean_label current_label in
  if any_in [py "okoli"; u8 "okolí"; py "vicinity"; py "radius"; py "distance";
             py "umkreis"] n
  then py "Umkreis"
  else if negb (nonempty cur) || bool_decide (str_lower cur = n) then
    if any_in [py "archiv"; py "archive"] n then py "Archiv"
    else if any_in [py "title"; py "titel"; py "nadpis"] n then py "Titel"
    else if any_in [py "misto"; u8 "místo"; py "place"; py "ort"; py "lokal";
                    py "location"] n then py "Ort"
    else if any_in [py "text"; py "fulltext"; py "query"; py "q"] n then py "Text"
    else if any_in [py "od_roku"; py "from"; py "seit"; py "von"; py "_from"] n
         then py "Von Jahr"
    else if any_in [py "do_roku"; py "to"; py "bis"; py "_to"] n then py "Bis Jahr"
    else if any_in [py "typ"; py "type"] n then py "Typ"
    else if any_in [py "jazyk"; py "language"; py "sprache"] n then py "Sprache"
    else if any_in [py "signatur"; py "signature"] n then py "Signatur"
    else if any_in [py "verlagsort"; py "publisher"; py "place_of_pub"] n
         then py "Erscheinungsort"
    else if any_in [py "kronik"; py "chronicle"] n then py "Chroniken"
    else if nonempty cur then cur else name
  else if nonempty cur then cur else name.

End Labels.

(** [WidgetSpec] (lines 189-196) *)
Module WidgetSpec.
Record t := mk {
  kind : str;
  name : str;
  label : str;
  options : list (str * str);
  default : option str;
  defaults_multi : option (list str)
}.
End WidgetSpec.

(** Lines 331-350.  The function updates the widget it was given and
    returns it; its one caller (line 584) keeps the result only. *)
Definition localize_widget_for_lang (str_lower : str → str) (lang : str)
    (ws : WidgetSpec.t) : WidgetSpec.t :=
  if negb (bool_decide (lang = py "de")) then ws
  else
    let label1 := _pf_translate_de (WidgetSpec.label ws) in
    let label2 := _pf_label_from_name_de str_lower (WidgetSpec.name ws) label1 in
    let options' :=
      if nonempty (WidgetSpec.options ws) then
        List.map (λ '(lab, val),
                    let lab2 := _pf_translate_de lab in
                    (get_or PF_OPTION_DE (_clean_label lab) lab2, val))
                 (WidgetSpec.options ws)
      else WidgetSpec.options ws in
    WidgetSpec.mk (WidgetSpec.kind ws) (WidgetSpec.name ws) label2 options'
                  (WidgetSpec.default ws) (WidgetSpec.defaults_multi ws).

Lemma contains_inv sub s : contains sub s = true → ∃ a b, s = a ++ sub ++ b.
Proof.
  induction s as [|c s IH]; cbn [contains].
  - rewrite orb_false_r. intros [r ->]%startswith_inv. by exists [], r.
  - intros [[r ->]%startswith_inv|H]%orb_true_iff; [by exists [], r|].
    destruct (IH H) as (a & b & ->). by exists (c :: a), b.
Qed.

(** [a in b] and [b in c] give [a in c]. *)
Lemma contains_trans a b c :
  contains a b = true → contains b c = true → contains a c = true.
Proof.
  intros (a1 & a2 & ->)%contains_inv (b1 & b2 & ->)%contains_inv.
  replace (b1 ++ (a1 ++ a ++ a2) ++ b2) with ((b1 ++ a1) ++ a ++ (a2 ++ b2))
    by (by rewrite <- !app_assoc).
  apply contains_app.
Qed.

Lemma any_in_true keys n : any_in keys n = true ↔ ∃ k, k ∈ keys ∧ contains k n = true.
Proof.
  unfold any_in. rewrite existsb_exists.
  split; intros (k & Hk & Hc); exists k; split; try done; by apply list_elem_of_In.
Qed.

(** A key of [keys] that holds a key of [keys'] makes the test of [keys']
    succeed wherever its own test does. *)
Lemma any_in_covered keys' k n :
  any_in keys' k = true → contains k n = true → any_in keys' n = true.
Proof.
  rewrite !any_in_true. intros (k' & Hk' & Hc) Hn. exists k'. split; [done|].
  by eapply contains_trans.
Qed.

(** The label made from a name is empty only when there is nothing to make
    it from. *)
Lemma pf_label_from_name_de_empty (str_lower : str → str) (name current_label : str) :
  _pf_label_from_name_de str_lower name current_label = [] →
  _clean_label current_label = [] ∧ name = [].
Proof.
  unfold _pf_label_from_name_de. cbv zeta.
  repeat match goal with
         | |- context [if any_in ?ks ?n then _ else _] => destruct (any_in ks n)
         end; try done;
    destruct (negb _ || _); try done;
    repeat match goal with
           | |- context [if any_in ?ks ?n then _ else _] => destruct (any_in ks n)
           end; try done;
    by destruct (_clean_label current_label).
Qed.

Local Ltac other_label :=
  let H := fresh in intros H; vm_compute in H; discriminate H.

(** X13.  The label made from the name of a field.  A name that holds one
    of the six words for a radius gives "Umkreis", whatever label the page
    showed.  Otherwise a label that is not blank and is not the name in
    another case is kept, in its clean form.  The result is empty only when
    the label is blank and the name is empty. *)
Theorem pf_label_from_name_de_cases (str_lower : str → str) (name current_label : str) :
  let n := str_lower name in
  let cur := _clean_label current_label in
  let out := _pf_label_from_name_de str_lower name current_label in
  let radius := [py "okoli"; u8 "okolí"; py "vicinity"; py "radius"; py "distance";
                 py "umkreis"] in
  ((∃ k, k ∈ radius ∧ contains k n = true) → out = py "Umkreis") ∧
  ((∀ k, k ∈ radius → contains k n = false) → cur ≠ [] → str_lower cur ≠ n →
     out = cur) ∧
  (out = [] → cur = [] ∧ name = []).
Proof.
  cbv zeta. unfold _pf_label_from_name_de. cbv zeta.
  set (radius := [py "okoli"; _; _; _; _; _]).
  split; [|split].
  - intros H. apply any_in_true in H. by rewrite H.
  - intros Hno Hcur Hne.
    assert (any_in radius (str_lower name) = false) as ->.
    { apply not_true_is_false. intros (k & Hk & Hc)%any_in_true.
      by rewrite (Hno k Hk) in Hc. }
    destruct (_clean_label current_label) as [|c cur]; [done|].
    cbn [nonempty negb orb]. by rewrite bool_decide_eq_false_2.
  - apply pf_label_from_name_de_empty.
Qed.

(** X14.  Two of the words listed for "Erscheinungsort" never give it.  A
    name that holds "verlagsort" holds "ort", and a name that holds
    "place_of_pub" holds "place", and those are tested before: where the
    label is made from such a name the answer is "Umkreis", "Archiv",
    "Titel" or "Ort".  An answer "Erscheinungsort" is the label or the name
    handed through, or the name holds "publisher". *)
Theorem erscheinungsort_only_by_publisher (str_lower : str → str)
    (name current_label : str) :
  let n := str_lower name in
  let cur := _clean_label current_label in
  let out := _pf_label_from_name_de str_lower name current_label in
  (cur = [] ∨ str_lower cur = n →
   contains (py "verlagsort") n = true ∨ contains (py "place_of_pub") n = true →
   out ∈ [py "Umkreis"; py "Archiv"; py "Titel"; py "Ort"]) ∧
  (out = py "Erscheinungsort" →
   contains (py "publisher") n = true ∨ cur = py "Erscheinungsort" ∨
   (cur = [] ∧ name = py "Erscheinungsort")).
Proof.
  cbv zeta. unfold _pf_label_from_name_de. cbv zeta.
  set (places := [py "misto"; u8 "místo"; py "place"; py "ort"; py "lokal"; py "location"]).
  assert (Hcover : ∀ k, k = py "verlagsort" ∨ k = py "place_of_pub" →
                        contains k (str_lower name) = true →
                        any_in places (str_lower name) = true).
  { intros k Hk Hc. eapply any_in_covered; [|exact Hc].
    destruct Hk as [->| ->]; vm_compute; reflexivity. }
  split.
  - intros Hb Hkey.
    assert (negb (nonempty (_clean_label current_label))
            || bool_decide (str_lower (_clean_label current_label) = str_lower name)
            = true) as ->.
    { destruct Hb as [->|H]; [done|]. rewrite bool_decide_eq_true_2 by done.
      apply orb_true_r. }
    assert (any_in places (str_lower name) = true) as ->
      by (destruct Hkey as [Hk|Hk];
          [apply (Hcover (py "verlagsort"))|apply (Hcover (py "place_of_pub"))]; auto).
    repeat match goal with
           | |- context [if any_in ?ks ?n then _ else _] => destruct (any_in ks n)
           end; set_solver.
  - assert (Hpass : (if nonempty (_clean_label current_label)
                     then _clean_label current_label else name) = py "Erscheinungsort" →
                    contains (py "publisher") (str_lower name) = true ∨
                    _clean_label current_label = py "Erscheinungsort" ∨
                    (_clean_label current_label = [] ∧ name = py "Erscheinungsort")).
    { destruct (_clean_label current_label) as [|c cur]; cbn [nonempty]; auto. }
    destruct (any_in [py "okoli"; _; _; _; _; _] (str_lower name)); [other_label|].
    destruct (negb _ || _); [|exact Hpass].
    destruct (any_in [py "archiv"; _] (str_lower name)); [other_label|].
    destruct (any_in [py "title"; _; _] (str_lower name)); [other_label|].
    destruct (any_in places (str_lower name)) eqn:Eplaces; [other_label|].
    destruct (any_in [py "text"; _; _; _] (str_lower name)); [other_label|].
    destruct (any_in [py "od_roku"; _; _; _; _] (str_lower name)); [other_label|].
    destruct (any_in [py "do_roku"; _; _; _] (str_lower name)); [other_label|].
    destruct (any_in [py "typ"; _] (str_lower name)); [other_label|].
    destruct (any_in [py "jazyk"; _; _] (str_lower name)); [other_label|].
    destruct (any_in [py "signatur"; _] (str_lower name)); [other_label|].
    destruct (any_in [py "verlagsort"; _; _] (str_lower name)) eqn:Epub.
    2: { destruct (any_in [py "kronik"; _] (str_lower name)); [other_label|exact Hpass]. }
    intros _. left. apply any_in_true in Epub as (k & Hk & Hc).
    apply list_elem_of_In in Hk. cbn in Hk.
    destruct Hk as [<-|[<-|[<-|[]]]]; [|done|].
    + discriminate (Hcover (py "verlagsort") (or_introl eq_refl) Hc).
    + discriminate (Hcover (py "place_of_pub") (or_intror eq_refl) Hc).
Qed.

Lemma erscheinungsort_only_by_publisher_witness :
  _pf_label_from_name_de lower (py "field_Verlagsort") (py "  ")
  ∈ [py "Umkreis"; py "Archiv"; py "Titel"; py "Ort"].
Proof.
  apply (erscheinungsort_only_by_publisher lower (py "field_Verlagsort") (py "  ")).
  - left. vm_compute. reflexivity.
  - left. vm_compute. reflexivity.
Defined.

(** The second look into [PF_OPTION_DE] (line 346) finds what
    [_pf_translate_de] has found already. *)
Lemma option_override_redundant lab :
  get_or PF_OPTION_DE (_clean_label lab) (_pf_translate_de lab) = _pf_translate_de lab.
Proof.
  unfold get_or. destruct (assoc _ PF_OPTION_DE) as [x|] eqn:E; [|done].
  unfold _pf_translate_de. cbv zeta. rewrite (tables_disjoint _ _ E), E.
  destruct (_clean_label lab); [|done]. vm_compute in E. discriminate E.
Qed.

Lemma localize_name (str_lower : str → str) (lang : str) (ws : WidgetSpec.t) :
  WidgetSpec.name (localize_widget_for_lang str_lower lang ws) = WidgetSpec.name ws.
Proof. unfold localize_widget_for_lang. by destruct (negb _). Qed.

Lemma localize_options (str_lower : str → str) (ws : WidgetSpec.t) :
  WidgetSpec.options (localize_widget_for_lang str_lower (py "de") ws) =
  List.map (λ o, (_pf_translate_de o.1, o.2)) (WidgetSpec.options ws).
Proof.
  unfold localize_widget_for_lang. rewrite bool_decide_eq_true_2 by done.
  cbn [negb WidgetSpec.options].
  destruct (WidgetSpec.options ws) as [|o os] eqn:E; [done|]. cbn [nonempty].
  apply map_ext. intros [lab val]. cbn. by rewrite option_override_redundant.
Qed.

(** X15.  Fitting a widget to the language of the interface never touches
    what the form sends: the kind, the name, the values of the options and
    the defaults stay as they are, and for a language other than "de" the
    whole widget does.  For "de" every option is shown under the German
    wording of its label: the second look into the option table changes
    nothing, the labels come out clean, and fitting the options once more
    leaves them as they are. *)
Theorem localize_widget_keeps_values (str_lower : str → str) (lang : str)
    (ws : WidgetSpec.t) :
  let out := localize_widget_for_lang str_lower lang ws in
  (lang ≠ py "de" → out = ws) ∧
  WidgetSpec.kind out = WidgetSpec.kind ws ∧
  WidgetSpec.name out = WidgetSpec.name ws ∧
  WidgetSpec.default out = WidgetSpec.default ws ∧
  WidgetSpec.defaults_multi out = WidgetSpec.defaults_multi ws ∧
  List.map snd (WidgetSpec.options out) = List.map snd (WidgetSpec.options ws) ∧
  (lang = py "de" →
     WidgetSpec.label out
     = _pf_label_from_name_de str_lower (WidgetSpec.name ws)
         (_pf_translate_de (WidgetSpec.label ws)) ∧
     WidgetSpec.options out
     = List.map (λ o, (_pf_translate_de o.1, o.2)) (WidgetSpec.options ws) ∧
     Forall (λ o, is_clean o.1 = true) (WidgetSpec.options out) ∧
     WidgetSpec.options (localize_widget_for_lang str_lower lang out)
     = WidgetSpec.options out).
Proof.
  cbv zeta. destruct (decide (lang = py "de")) as [->|Hne].
  - rewrite !localize_options.
    split; [done|]. do 4 (split; [by unfold localize_widget_for_lang|]).
    split; [by rewrite List.map_map|].
    intros _. split; [by unfold localize_widget_for_lang|]. split; [done|]. split.
    + apply Forall_forall. intros o [o' [-> _]]%list_elem_of_fmap. cbn.
      apply (pf_translate_de_idle o'.1).
    + rewrite List.map_map. apply map_ext. intros o. cbn.
      by rewrite (pf_translate_de_twice o.1).
  - unfold localize_widget_for_lang. rewrite bool_decide_eq_false_2 by done.
    cbn [negb]. by repeat split.
Qed.

(* ================================================================== *)
(** * The name of the list file (lines 1361-1380) *)
(* ================================================================== *)

(** The nine characters of the class in line 1365: backslash, slash, colon,
    asterisk, question mark, double quote, less-than, greater-than, bar. *)
Definition forbidden (c : N) : bool :=
  bool_decide (c ∈ [92; 47; 58; 42; 63; 34; 60; 62; 124]%N).

(** [sanitize] (lines 1362-1366) *)
Definition sanitize (x : str) : str :=
  List.map (λ c, if forbidden c then 95%N else c) (collapse_spaces false (strip x)).

(** [s.replace(" ", "_")] *)
Definition spaces_to_underscores (s : str) : str :=
  List.map (λ c, if (c =? 32)%N then 95%N else c) s.

(** The local [fname] of [_build_json_path] (lines 1368-1379). *)
Definition fname (title_label year_from year_to : str) : str :=
  let title_label :=
    if nonempty (sanitize title_label) then sanitize title_label else py "Linkliste" in
  let span :=
    if nonempty year_from && nonempty year_to
    then sanitize year_from ++ py "-" ++ sanitize year_to
    else if nonempty year_from then sanitize year_from
    else if nonempty year_to then py "bis_" ++ sanitize year_to
    else py "ohne_Zeitraum" in
  spaces_to_underscores
    (sanitize (py "Linkliste " ++ title_label ++ py " " ++ span ++ py ".json")).

Section JsonPath.
(** [os.path.abspath] and [os.path.join] *)
Variables (abspath : str → str) (path_join : str → str → str).

Definition _build_json_path (folder title_label year_from year_to : str) : str :=
  abspath (path_join folder (fname title_label year_from year_to)).

End JsonPath.

(** A character a file name may hold: no white space, none of the forbidden
    characters. *)
Definition plain (c : N) : bool := negb (isspace c) && negb (forbidden c).

Lemma collapse_spaces_chars s : ∀ b,
  Forall (λ c, c = 32%N ∨ isspace c = false) (collapse_spaces b s).
Proof.
  induction s as [|c s IH]; intros b; [constructor|]. cbn [collapse_spaces].
  destruct (isspace c) eqn:Ec.
  - destruct b; [apply IH|]. apply List.Forall_cons; [by left|apply IH].
  - apply List.Forall_cons; [by right|apply IH].
Qed.

Lemma fname_chars_plain s :
  Forall (λ c, plain c = true) (spaces_to_underscores (sanitize s)).
Proof.
  unfold spaces_to_underscores, sanitize. rewrite List.map_map.
  apply Forall_map. eapply Forall_impl; [apply collapse_spaces_chars|].
  intros c [->|Hc]; cbn beta; [reflexivity|].
  destruct (forbidden c) eqn:Ef; [reflexivity|].
  destruct (c =? 32)%N eqn:E32; [reflexivity|].
  unfold plain. by rewrite Hc, Ef.
Qed.

(** A word after which the text goes on: the word is kept, whatever came
    before it. *)
Lemma collapse_spaces_word w s b :
  Forall (λ c, isspace c = false) w → w ≠ [] →
  collapse_spaces b (w ++ s) = w ++ collapse_spaces false s.
Proof.
  intros Hw. revert b. induction Hw as [|c w Hc Hw IH]; intros b Hne; [done|].
  cbn [app collapse_spaces]. rewrite Hc. f_equal.
  destruct w as [|c' w]; [done|]. by apply IH.
Qed.

(** A word at the end of the text is kept. *)
Lemma collapse_spaces_last_word s w : ∀ b,
  Forall (λ c, isspace c = false) w → w ≠ [] →
  collapse_spaces b (s ++ w) = collapse_spaces b s ++ w.
Proof.
  induction s as [|c s IH]; intros b Hw Hne.
  - cbn [app collapse_spaces]. rewrite <- (app_nil_r w) at 1.
    rewrite collapse_spaces_word by done. by rewrite app_nil_r.
  - cbn [app collapse_spaces]. destruct (isspace c).
    + destruct b; by rewrite IH.
    + by rewrite IH.
Qed.

(** [strip] leaves a text alone that has no white space at its ends. *)
Lemma strip_between w1 s w2 :
  Forall (λ c, isspace c = false) w1 → w1 ≠ [] →
  Forall (λ c, isspace c = false) w2 → w2 ≠ [] →
  strip (w1 ++ s ++ w2) = w1 ++ s ++ w2.
Proof.
  intros H1 N1 H2 N2. rewrite strip_rstrip_lstrip.
  rewrite lstrip_id.
  - apply rstrip_id. rewrite app_assoc.
    destruct w2 as [|c w2] using rev_ind; [done|]. rewrite app_assoc, last_snoc.
    by apply Forall_app in H2 as [_ [Hc _]%Forall_cons].
  - destruct H1 as [|c w1 Hc _]; [done|]. exact Hc.
Qed.

(** X16.  The name of the list file, whatever the title and the years are:
    it begins with "Linkliste_" and ends with ".json", and it holds no white
    space and none of the nine characters the code replaces (among them
    slash and backslash), so it never names a place outside the folder it is
    joined to.  With a blank title and no years it is "Linkliste_Linkliste_ohne_Zeitraum.json". *)
Theorem list_file_name_is_plain (title_label year_from year_to : str) :
  let name := fname title_label year_from year_to in
  startswith name (py "Linkliste_") = true ∧
  endswith name (py ".json") = true ∧
  Forall (λ c, isspace c = false ∧ forbidden c = false) name ∧
  (sanitize title_label = [] → year_from = [] → year_to = [] →
     name = py "Linkliste_Linkliste_ohne_Zeitraum.json").
Proof.
  cbv zeta. unfold fname. cbv zeta.
  set (title := if nonempty (sanitize title_label) then _ else _).
  set (span := if nonempty year_from && nonempty year_to then _ else _).
  assert (Hword : ∀ w : string,
            forallb (λ c, negb (isspace c)) (py w) = true →
            Forall (λ c, isspace c = false) (py w)).
  { intros w H. apply Forall_forall. intros c Hc%list_elem_of_In.
    rewrite forallb_forall in H. by apply negb_true_iff, H. }
  assert (Hshape : sanitize (py "Linkliste " ++ title ++ py " " ++ span ++ py ".json")
                   = py "Linkliste" ++
                     List.map (λ c, if forbidden c then 95%N else c)
                       (collapse_spaces false (py " " ++ title ++ py " " ++ span))
                     ++ py ".json").
  { unfold sanitize.
    replace (py "Linkliste " ++ title ++ py " " ++ span ++ py ".json")
      with (py "Linkliste" ++ (py " " ++ title ++ py " " ++ span) ++ py ".json")
      by (by rewrite <- !app_assoc).
    rewrite strip_between; [|by apply Hword|done|by apply Hword|done].
    rewrite collapse_spaces_word; [|by apply Hword|done].
    rewrite collapse_spaces_last_word; [|by apply Hword|done].
    rewrite !List.map_app. f_equal. }
  split; [|split; [|split]].
  - rewrite Hshape. unfold spaces_to_underscores. rewrite List.map_app.
    change (py " " ++ title ++ py " " ++ span) with (32%N :: title ++ py " " ++ span).
    cbn [collapse_spaces]. change (isspace 32) with true. cbv iota.
    cbn [List.map app]. change (forbidden 32) with false. cbv iota.
    change (32 =? 32)%N with true. cbv iota.
    match goal with
    | |- startswith (?a ++ 95%N :: ?r) _ = true =>
        change (a ++ 95%N :: r) with (a ++ [95%N] ++ r); rewrite app_assoc
    end.
    apply (startswith_app (py "Linkliste_")).
  - rewrite Hshape. unfold spaces_to_underscores, endswith.
    rewrite app_assoc, List.map_app, rev_app_distr.
    apply (startswith_app (rev (py ".json"))).
  - eapply Forall_impl; [apply fname_chars_plain|].
    intros c [Hs Hf]%andb_true_iff. by rewrite negb_true_iff in Hs, Hf.
  - intros Ht -> ->. subst title span. rewrite Ht. vm_compute. reflexivity.
Qed.

(* ================================================================== *)
(** * The widgets of a search form (lines 420-421, 436-491, 584) *)
(* ================================================================== *)

(** What [load_form_spec] reads of an [input] or [textarea] element. *)
Record InputTag := mkInput {
  in_name : option str;     (** [inp.get("name")] *)
  in_value : option str;    (** [inp.get("value")] *)
  in_checked : bool;        (** [inp.has_attr("checked")] *)
  in_label : str            (** [_element_label(form, inp)] *)
}.

(** What it reads of an [option] element, and of a [select] element. *)
Record OptionTag := mkOption {
  opt_text : str;           (** [opt.get_text(" ", strip=True)] *)
  opt_value : option str;   (** [opt.get("value")] *)
  opt_selected : bool       (** [opt.has_attr("selected")] *)
}.

Record SelectTag := mkSelect {
  sel_name : option str;            (** [sel.get("name")] *)
  sel_options : list OptionTag      (** [sel.select("option")] *)
}.

(** The two variables the closures of [load_form_spec] share: [widgets] and
    [seen_names] (lines 420-421). *)
Definition FormState : Type := list WidgetSpec.t * gset str.

(** [a or b] for two strings. *)
Definition str_or (a b : str) : str := if nonempty a then a else b.

(** The value a loop of the form [if x.has_attr(..): default = val] leaves
    in [default], which starts as [None]. *)
Definition last_marked {A} (marked : A → bool) (val : A → str) (l : list A) : option str :=
  fold_left (λ d x, if marked x then Some (val x) else d) l None.

(** Lines 436-451 *)
Definition add_radio_group (name group_label : str) (inputs : list InputTag)
    (st : FormState) : FormState :=
  if negb (nonempty name) || bool_decide (name ∈ st.2) then st
  else
    let val inp := or_else (in_value inp) [] in
    let opts := List.map (λ inp, (_clean_label (str_or (in_label inp) (val inp)), val inp))
                         inputs in
    let default := match last_marked in_checked val inputs with
                   | Some d => d
                   | None => pick_default_option opts
                   end in
    (st.1 ++ [WidgetSpec.mk (py "radio") name (str_or group_label name) opts
                            (Some default) None],
     {[name]} ∪ st.2).

(** Lines 453-465 *)
Definition add_checkbox_group (name group_label : str) (inputs : list InputTag)
    (st : FormState) : FormState :=
  if negb (nonempty name) || bool_decide (name ∈ st.2) then st
  else
    let val inp := or_else (in_value inp) (py "1") in
    let opts := List.map (λ inp, (_clean_label (str_or (in_label inp) name), val inp))
                         inputs in
    let defaults := List.map val (List.filter in_checked inputs) in
    (st.1 ++ [WidgetSpec.mk (py "checkbox") name (str_or group_label name) opts
                            None (Some defaults)],
     {[name]} ∪ st.2).

(** Lines 467-483 *)
Definition add_select (sel : SelectTag) (label : str) (st : FormState) : FormState :=
  let name := or_else (sel_name sel) [] in
  if negb (nonempty name) || bool_decide (name ∈ st.2) then st
  else
    let val opt := or_else (opt_value opt) [] in
    let opts := List.map (λ opt, (_clean_label (opt_text opt), val opt)) (sel_options sel) in
    let default := match last_marked opt_selected val (sel_options sel) with
                   | Some d => d
                   | None => pick_default_option opts
                   end in
    (st.1 ++ [WidgetSpec.mk (py "select") name (str_or label name) opts (Some default) None],
     {[name]} ∪ st.2).

(** Lines 485-491 *)
Definition add_text (inp : InputTag) (label : str) (st : FormState) : FormState :=
  let name := or_else (in_name inp) [] in
  if negb (nonempty name) || bool_decide (name ∈ st.2) then st
  else
    let default := or_else (in_value inp) [] in
    (st.1 ++ [WidgetSpec.mk (py "text") name (str_or label name) [] (Some default) None],
     {[name]} ∪ st.2).

(** The calls of the closures.  [load_form_spec] changes [widgets] and
    [seen_names] through these calls only (lines 493-579); which calls it
    makes is a matter of the page. *)
Inductive call :=
| AddRadioGroup (name group_label : str) (inputs : list InputTag)
| AddCheckboxGroup (name group_label : str) (inputs : list InputTag)
| AddSelect (sel : SelectTag) (label : str)
| AddText (inp : InputTag) (label : str).

Definition do_call (st : FormState) (c : call) : FormState :=
  match c with
  | AddRadioGroup name group_label inputs => add_radio_group name group_label inputs st
  | AddCheckboxGroup name group_label inputs => add_checkbox_group name group_label inputs st
  | AddSelect sel label => add_select sel label st
  | AddText inp label => add_text inp label st
  end.

(** The name a call is made for. *)
Definition call_name (c : call) : str :=
  match c with
  | AddRadioGroup name _ _ => name
  | AddCheckboxGroup name _ _ => name
  | AddSelect sel _ => or_else (sel_name sel) []
  | AddText inp _ => or_else (in_name inp) []
  end.

(** The state after the calls, from the empty one. *)
Definition form_state (calls : list call) : FormState := fold_left do_call calls ([], ∅).

(** The widgets [load_form_spec] returns (line 584). *)
Definition form_widgets (str_lower : str → str) (lang : str) (calls : list call)
    : list WidgetSpec.t :=
  List.map (localize_widget_for_lang str_lower lang) (form_state calls).1.

(** A widget as the interface expects it: a name and a label to show, and
    by kind: one default among the values offered (or the empty one where
    nothing is offered) for a radio group or a select, ticked values among
    the values offered for a checkbox group, a default and no options for a
    text field. *)
Definition well_formed (w : WidgetSpec.t) : bool :=
  nonempty (WidgetSpec.name w) && nonempty (WidgetSpec.label w) &&
  let values := List.map snd (WidgetSpec.options w) in
  if bool_decide (WidgetSpec.kind w = py "radio") || bool_decide (WidgetSpec.kind w = py "select")
  then match WidgetSpec.default w, WidgetSpec.defaults_multi w with
       | Some d, None => if nonempty values then bool_decide (d ∈ values)
                         else bool_decide (d = [])
       | _, _ => false
       end
  else if bool_decide (WidgetSpec.kind w = py "checkbox")
  then match WidgetSpec.default w, WidgetSpec.defaults_multi w with
       | None, Some ds => forallb (λ d, bool_decide (d ∈ values)) ds
       | _, _ => false
       end
  else bool_decide (WidgetSpec.kind w = py "text") &&
       match WidgetSpec.default w, WidgetSpec.defaults_multi w with
       | Some _, None => negb (nonempty values)
       | _, _ => false
       end.

Definition widget_names (ws : list WidgetSpec.t) : list str := List.map WidgetSpec.name ws.

Lemma first_value_elem test opts v :
  first_value test opts = Some v → v ∈ List.map snd opts.
Proof.
  induction opts as [|[lab val] opts IH]; [done|]. cbn.
  destruct (test lab val); [intros [= ->]; left|intros H; right; by apply IH].
Qed.

(** The default [pick_default_option] picks is one of the values. *)
Lemma pick_default_option_elem opts :
  opts ≠ [] → pick_default_option opts ∈ List.map snd opts.
Proof.
  destruct opts as [|[l0 v0] rest]; [done|]. intros _. rewrite pick_default_option_cons.
  repeat match goal with
         | |- context [first_value ?t ?o] =>
             let E := fresh "E" in
             destruct (first_value t o) eqn:E; [by apply first_value_elem in E|]
         end.
  left.
Qed.

Lemma last_marked_elem {A} (marked : A → bool) (val : A → str) (l : list A) d :
  last_marked marked val l = Some d → d ∈ List.map val l.
Proof.
  unfold last_marked.
  assert (H : ∀ d0, fold_left (λ d x, if marked x then Some (val x) else d) l d0 = Some d →
                    d0 = Some d ∨ d ∈ List.map val l).
  { induction l as [|x l IH]; intros d0; cbn; [by left|].
    intros [Hd|Hd]%IH; [|right; by right].
    destruct (marked x); [|by left]. injection Hd as <-. right. left. }
  intros [?|?]%H; done.
Qed.

(** The default of a radio group or a select. *)
Lemma choice_default_ok {A} (marked : A → bool) (val : A → str) (lab : A → str) (l : list A) :
  let opts := List.map (λ x, (lab x, val x)) l in
  let d := match last_marked marked val l with
           | Some d => d
           | None => pick_default_option opts
           end in
  let values := List.map snd opts in
  (if nonempty values then bool_decide (d ∈ values) else bool_decide (d = [])) = true.
Proof.
  cbv zeta. set (opts := List.map (λ x, (lab x, val x)) l).
  assert (Hvals : List.map snd opts = List.map val l)
    by (subst opts; by rewrite List.map_map).
  destruct l as [|x l]; [done|].
  assert (nonempty (List.map snd opts) = true) as -> by done.
  apply bool_decide_eq_true.
  destruct (last_marked marked val (x :: l)) as [d|] eqn:E.
  - rewrite Hvals. by apply last_marked_elem in E.
  - by apply pick_default_option_elem.
Qed.

Lemma str_or_nonempty a b : b ≠ [] → nonempty (str_or a b) = true.
Proof. unfold str_or. destruct a; [by destruct b|done]. Qed.

(** What holds of the shared variables between any two calls. *)
Definition form_ok (st : FormState) : Prop :=
  NoDup (widget_names st.1) ∧
  (∀ x, x ∈ st.2 ↔ x ∈ widget_names st.1) ∧
  Forall (λ w, well_formed w = true) st.1.

Lemma skip_or_new (name : str) (seen_names : gset str) :
  negb (nonempty name) || bool_decide (name ∈ seen_names) = false →
  name ≠ [] ∧ name ∉ seen_names.
Proof.
  intros [Hn Hs]%orb_false_iff. apply negb_false_iff in Hn.
  apply bool_decide_eq_false in Hs. by destruct name.
Qed.

(** A widget that is added under a new name keeps the state in order. *)
Lemma form_ok_add (st : FormState) (w : WidgetSpec.t) :
  form_ok st → WidgetSpec.name w ∉ st.2 → well_formed w = true →
  form_ok (st.1 ++ [w], {[WidgetSpec.name w]} ∪ st.2).
Proof.
  intros (Hnd & Hseen & Hwf) Hnew Hw. unfold form_ok, widget_names in *. cbn [fst snd].
  rewrite List.map_app. cbn [List.map]. split; [|split].
  - apply NoDup_app. split; [done|]. split; [|apply NoDup_singleton].
    intros x Hx ->%list_elem_of_singleton. by apply Hnew, Hseen.
  - intros x. rewrite elem_of_union, elem_of_singleton, elem_of_app, list_elem_of_singleton.
    rewrite Hseen. tauto.
  - apply Forall_app. split; [done|]. by apply List.Forall_cons.
Qed.

Lemma do_call_ok (st : FormState) (c : call) : form_ok st → form_ok (do_call st c).
Proof.
  intros Hok. destruct c as [name gl inputs|name gl inputs|sel label|inp label];
    cbn [do_call]; unfold add_radio_group, add_checkbox_group, add_select, add_text;
    cbv zeta.
  - destruct (negb _ || _) eqn:E; [done|]. apply skip_or_new in E as [Hne Hnew].
    apply (form_ok_add st (WidgetSpec.mk _ _ _ _ _ _)); [done|done|].
    unfold well_formed. cbn [WidgetSpec.name WidgetSpec.label WidgetSpec.kind
      WidgetSpec.options WidgetSpec.default WidgetSpec.defaults_multi].
    rewrite str_or_nonempty by done. rewrite <- nonempty_true in Hne. rewrite Hne.
    cbn [andb]. rewrite bool_decide_eq_true_2 by done. cbn [orb].
    apply (choice_default_ok in_checked (λ inp, or_else (in_value inp) [])
             (λ inp, _clean_label (str_or (in_label inp) (or_else (in_value inp) [])))).
  - destruct (negb _ || _) eqn:E; [done|]. apply skip_or_new in E as [Hne Hnew].
    apply (form_ok_add st (WidgetSpec.mk _ _ _ _ _ _)); [done|done|].
    unfold well_formed. cbn [WidgetSpec.name WidgetSpec.label WidgetSpec.kind
      WidgetSpec.options WidgetSpec.default WidgetSpec.defaults_multi].
    rewrite str_or_nonempty by done. rewrite <- nonempty_true in Hne. rewrite Hne.
    cbn [andb]. rewrite (bool_decide_eq_false_2 (py "checkbox" = py "radio")) by done.
    rewrite (bool_decide_eq_false_2 (py "checkbox" = py "select")) by done.
    rewrite bool_decide_eq_true_2 by done. cbn [orb].
    apply forallb_forall. intros d Hd. apply bool_decide_eq_true.
    rewrite List.map_map. cbn [snd]. apply list_elem_of_In.
    apply in_map_iff in Hd as (inp & <- & Hin%filter_In).
    apply in_map_iff. exists inp. by destruct Hin.
  - destruct (negb _ || _) eqn:E; [done|]. apply skip_or_new in E as [Hne Hnew].
    apply (form_ok_add st (WidgetSpec.mk _ _ _ _ _ _)); [done|done|].
    unfold well_formed. cbn [WidgetSpec.name WidgetSpec.label WidgetSpec.kind
      WidgetSpec.options WidgetSpec.default WidgetSpec.defaults_multi].
    rewrite str_or_nonempty by done. rewrite <- nonempty_true in Hne. rewrite Hne.
    cbn [andb]. rewrite (bool_decide_eq_true_2 (py "select" = py "select")) by done.
    rewrite orb_true_r.
    apply (choice_default_ok opt_selected (λ opt, or_else (opt_value opt) [])
             (λ opt, _clean_label (opt_text opt))).
  - destruct (negb _ || _) eqn:E; [done|]. apply skip_or_new in E as [Hne Hnew].
    apply (form_ok_add st (WidgetSpec.mk _ _ _ _ _ _)); [done|done|].
    unfold well_formed. cbn [WidgetSpec.name WidgetSpec.label WidgetSpec.kind
      WidgetSpec.options WidgetSpec.default WidgetSpec.defaults_multi].
    rewrite str_or_nonempty by done. rewrite <- nonempty_true in Hne. rewrite Hne.
    reflexivity.
Qed.

Lemma fold_do_call_ok (calls : list call) : ∀ st,
  form_ok st → form_ok (fold_left do_call calls st).
Proof.
  induction calls as [|c calls IH]; intros st Hok; [done|]. cbn. by apply IH, do_call_ok.
Qed.

Lemma form_state_ok (calls : list call) : form_ok (form_state calls).
Proof.
  apply fold_do_call_ok. split; [constructor|]. split; [set_solver|constructor].
Qed.

(** A call for a name that has a widget, or for no name, changes nothing. *)
Lemma do_call_known (st : FormState) (c : call) :
  call_name c = [] ∨ call_name c ∈ st.2 → do_call st c = st.
Proof.
  intros H.
  assert (negb (nonempty (call_name c)) || bool_decide (call_name c ∈ st.2) = true) as Hskip.
  { destruct H as [->|H]; [done|]. rewrite bool_decide_eq_true_2 by done. apply orb_true_r. }
  destruct c; cbn [do_call call_name] in *;
    unfold add_radio_group, add_checkbox_group, add_select, add_text; cbv zeta;
    by rewrite Hskip.
Qed.

(** A call for a new name adds one widget, of that name, at the end. *)
Lemma do_call_new (st : FormState) (c : call) :
  call_name c ≠ [] → call_name c ∉ st.2 →
  ∃ w, (do_call st c).1 = st.1 ++ [w] ∧ WidgetSpec.name w = call_name c.
Proof.
  intros Hne Hnew.
  assert (negb (nonempty (call_name c)) || bool_decide (call_name c ∈ st.2) = false) as Hadd.
  { rewrite bool_decide_eq_false_2 by done. rewrite orb_false_r.
    apply negb_false_iff. by apply nonempty_true. }
  destruct c; cbn [do_call call_name] in *;
    unfold add_radio_group, add_checkbox_group, add_select, add_text; cbv zeta;
    rewrite Hadd; by eexists.
Qed.

(** A widget that is well formed stays so when it is fitted to a language. *)
Lemma localize_well_formed (str_lower : str → str) (lang : str) (w : WidgetSpec.t) :
  well_formed w = true →
  well_formed (localize_widget_for_lang str_lower lang w) = true.
Proof.
  intros Hw. destruct (decide (lang = py "de")) as [->|Hne].
  2: { unfold localize_widget_for_lang. by rewrite bool_decide_eq_false_2. }
  assert (Hvalues : List.map snd (WidgetSpec.options
                      (localize_widget_for_lang str_lower (py "de") w))
                    = List.map snd (WidgetSpec.options w)).
  { rewrite localize_options, List.map_map. done. }
  unfold well_formed in *. rewrite Hvalues.
  change (WidgetSpec.name (localize_widget_for_lang str_lower (py "de") w))
    with (WidgetSpec.name w).
  change (WidgetSpec.kind (localize_widget_for_lang str_lower (py "de") w))
    with (WidgetSpec.kind w).
  change (WidgetSpec.default (localize_widget_for_lang str_lower (py "de") w))
    with (WidgetSpec.default w).
  change (WidgetSpec.defaults_multi (localize_widget_for_lang str_lower (py "de") w))
    with (WidgetSpec.defaults_multi w).
  apply andb_true_iff in Hw as [Hw Hshape]. apply andb_true_iff in Hw as [Hname _].
  rewrite Hname, Hshape. cbn [andb]. rewrite andb_true_r.
  change (WidgetSpec.label (localize_widget_for_lang str_lower (py "de") w))
    with (_pf_label_from_name_de str_lower (WidgetSpec.name w)
            (_pf_translate_de (WidgetSpec.label w))).
  apply nonempty_true. intros Hempty.
  apply pf_label_from_name_de_empty in Hempty as [_ Hempty].
  by rewrite Hempty in Hname.
Qed.

(** X17.  The widgets of a form, whatever the page has the closures called
    with, and in every language.  No two widgets have the same name, and no
    widget has an empty name: a call for a name that has a widget already,
    or for no name, changes nothing, and a call for a new name adds one
    widget at the end.  Every widget has a label to show.  A radio group or
    a select has one default, which is among the values it offers (the empty
    one when it offers nothing); the ticked values of a checkbox group are
    among the values it offers; a text field has a default and no options. *)
Theorem form_widgets_well_formed (str_lower : str → str) (lang : str) (calls : list call) :
  let ws := form_widgets str_lower lang calls in
  NoDup (widget_names ws) ∧
  Forall (λ w, well_formed w = true) ws ∧
  widget_names ws = widget_names (form_state calls).1 ∧
  ∀ c,
    (call_name c = [] ∨ call_name c ∈ widget_names ws →
       form_widgets str_lower lang (calls ++ [c]) = ws) ∧
    (call_name c ≠ [] → call_name c ∉ widget_names ws →
       ∃ w, form_widgets str_lower lang (calls ++ [c]) = ws ++ [w] ∧
            WidgetSpec.name w = call_name c).
Proof.
  cbv zeta. destruct (form_state_ok calls) as (Hnd & Hseen & Hwf).
  assert (Hnames : widget_names (form_widgets str_lower lang calls)
                   = widget_names (form_state calls).1).
  { unfold form_widgets, widget_names. rewrite List.map_map. apply map_ext.
    intros w. apply localize_name. }
  rewrite Hnames. split; [done|]. split.
  { unfold form_widgets. apply Forall_map. eapply Forall_impl; [exact Hwf|].
    intros w Hw. by apply localize_well_formed. }
  split; [done|]. intros c.
  assert (Hsnoc : form_state (calls ++ [c]) = do_call (form_state calls) c).
  { unfold form_state. by rewrite fold_left_app. }
  unfold form_widgets at 1 3. rewrite Hsnoc. split.
  - intros Hknown. rewrite do_call_known; [done|].
    destruct Hknown as [?|?]; [by left|right; by apply Hseen].
  - intros Hne Hnew.
    destruct (do_call_new (form_state calls) c Hne) as (w & -> & Hw).
    { intros Hin. by apply Hnew, Hseen. }
    exists (localize_widget_for_lang str_lower lang w). rewrite List.map_app.
    split; [done|]. by rewrite localize_name.
Qed.

(* ================================================================== *)
(** * The items of a search (lines 1308-1359) *)
(* ================================================================== *)

(** What [_collect_exposed_items] reads of a control of the window, by the
    kind it was stored with (lines 1207-1299). *)
Inductive control :=
| TextControl (text : str)
    (** [ed.text()] *)
| SelectControl (currentText : str) (currentData : option str)
    (** [cmb.currentText()], [cmb.currentData()] *)
| RadioControl (buttons : list (bool * option str))
    (** [b.isChecked()] and [b.property("pf_value")] of each button *)
| CheckboxControl (boxes : list (bool * option str))
    (** the same of each box *)
| OtherControl.
    (** the fields of the delay and of the page budget *)

(** What [_collect_exposed_items] returns. *)
Record Collected := mkCollected {
  exposed : list (str * str);
  title_label : str;
  year_from : str;
  year_to : str
}.

Definition from_keys : list str :=
  [py "from"; py "od_roku"; py "seit_jahr"; py "field_doc_dates_field_doc_dates_from"].

Definition to_keys : list str :=
  [py "to"; py "do_roku"; py "bis_jahr"; py "field_doc_dates_field_doc_dates_to"].

(** The entries of a select that stand for no choice (line 1340). *)
Definition no_choice : list str :=
  [py "- Alle -"; u8 "- Vše -"; py "- Alles -"; py "- Alle -"; py "All"].

(** The names of a select that gives the title (line 1339). *)
Definition title_names : list str := [py "title"; py "titel"; py "nadpis"].

(** The names under which the window keeps its own two fields. *)
Definition own_fields : list str := [py "__delay__"; py "__maxpages__"].

Section Collect.
(** [s.lower()] *)
Variable str_lower : str → str.

(** One turn of the loop of line 1321. *)
Definition collect_control (acc : Collected) (item : str * control) : Collected :=
  let name := item.1 in
  if bool_decide (name ∈ own_fields) then acc
  else
    match item.2 with
    | TextControl text =>
        let val := strip text in
        mkCollected (exposed acc ++ [(name, val)]) (title_label acc)
          (if bool_decide (name ∈ from_keys) && nonempty val then val else year_from acc)
          (if bool_decide (name ∈ to_keys) && nonempty val then val else year_to acc)
    | SelectControl currentText currentData =>
        let lab := strip currentText in
        let val := or_else currentData [] in
        mkCollected (exposed acc ++ [(name, val)])
          (if bool_decide (str_lower name ∈ title_names)
              && nonempty lab && negb (bool_decide (lab ∈ no_choice))
           then lab else title_label acc)
          (year_from acc) (year_to acc)
    | RadioControl buttons =>
        let chosen := match List.find fst buttons with
                      | Some b => or_else b.2 []
                      | None => []
                      end in
        mkCollected (exposed acc ++ [(name, chosen)]) (title_label acc)
                    (year_from acc) (year_to acc)
    | CheckboxControl boxes =>
        mkCollected
          (exposed acc ++ List.map (λ b, (name, or_else b.2 (py "1"))) (List.filter fst boxes))
          (title_label acc) (year_from acc) (year_to acc)
    | OtherControl => acc
    end.

(** Lines 1308-1359; [tab_title] is [self._tab_title(tabkey)], [controls]
    the items of the dictionary of the controls, in its order. *)
Definition _collect_exposed_items (lang tab_title : str) (controls : list (str * control))
    : Collected :=
  fold_left collect_control controls (mkCollected [(py "language", lang)] tab_title [] []).

(** The items one control gives. *)
Definition control_items (item : str * control) : list (str * str) :=
  if bool_decide (item.1 ∈ own_fields) then []
  else match item.2 with
       | TextControl text => [(item.1, strip text)]
       | SelectControl _ currentData => [(item.1, or_else currentData [])]
       | RadioControl buttons =>
           [(item.1, match List.find fst buttons with
                     | Some b => or_else b.2 []
                     | None => []
                     end)]
       | CheckboxControl boxes =>
           List.map (λ b, (item.1, or_else b.2 (py "1"))) (List.filter fst boxes)
       | OtherControl => []
       end.

Lemma collect_control_exposed acc item :
  exposed (collect_control acc item) = exposed acc ++ control_items item.
Proof.
  unfold collect_control, control_items. cbv zeta.
  destruct (bool_decide (item.1 ∈ own_fields)); [by rewrite app_nil_r|].
  destruct item.2; cbn [exposed]; by rewrite ?app_nil_r.
Qed.

Lemma fold_collect_exposed controls : ∀ acc,
  exposed (fold_left collect_control controls acc)
  = exposed acc ++ concat (List.map control_items controls).
Proof.
  induction controls as [|item controls IH]; intros acc; cbn; [by rewrite app_nil_r|].
  by rewrite IH, collect_control_exposed, <- app_assoc.
Qed.

(** A year is empty or the text of a field of the years, without the white
    space around it. *)
Definition year_of (keys : list str) (controls : list (str * control)) (y : str) : Prop :=
  y = [] ∨ ∃ name text, (name, TextControl text) ∈ controls ∧ name ∈ keys ∧
                        y = strip text ∧ y ≠ [].

Lemma year_of_mono keys controls item y :
  year_of keys controls y → year_of keys (controls ++ [item]) y.
Proof.
  intros [->|(name & text & Hin & Hk & Hy & Hne)]; [by left|right].
  exists name, text. split; [|done]. apply elem_of_app. by left.
Qed.

Lemma collect_years controls lang tab_title :
  let c := _collect_exposed_items lang tab_title controls in
  year_of from_keys controls (year_from c) ∧ year_of to_keys controls (year_to c) ∧
  (title_label c = tab_title ∨
   title_label c ≠ [] ∧ (title_label c ∉ no_choice) ∧
   ∃ name currentText currentData,
     (name, SelectControl currentText currentData) ∈ controls ∧
     str_lower name ∈ title_names ∧
     title_label c = strip currentText).
Proof.
  cbv zeta. unfold _collect_exposed_items.
  induction controls as [|item controls IH] using rev_ind.
  { cbn. split; [by left|]. split; [by left|by left]. }
  rewrite fold_left_app. cbn [fold_left].
  set (acc := fold_left collect_control controls _) in *.
  destruct IH as (Hf & Ht & Htitle).
  assert (Htitle' : title_label acc = tab_title ∨
            title_label acc ≠ [] ∧ (title_label acc ∉ no_choice) ∧
            ∃ name currentText currentData,
              (name, SelectControl currentText currentData) ∈ controls ++ [item] ∧
              str_lower name ∈ title_names ∧
              title_label acc = strip currentText).
  { destruct Htitle as [?|(? & ? & name & ct & cd & Hin & ? & ?)]; [by left|right].
    split; [done|]. split; [done|]. exists name, ct, cd. split; [|done].
    apply elem_of_app. by left. }
  apply (year_of_mono _ _ item) in Hf, Ht.
  unfold collect_control. cbv zeta.
  destruct (bool_decide (item.1 ∈ own_fields)); [done|].
  destruct item as [name [text|ct cd|buttons|boxes|]]; cbn [fst snd];
    cbn [year_from year_to title_label]; try done.
  - split; [|split; [|done]].
    + destruct (bool_decide (name ∈ from_keys)) eqn:Ek; cbn [andb]; [|done].
      destruct (nonempty (strip text)) eqn:En; [|done].
      right. exists name, text. split; [apply elem_of_app; right; by left|].
      split; [by apply bool_decide_eq_true in Ek|]. split; [done|by apply nonempty_true].
    + destruct (bool_decide (name ∈ to_keys)) eqn:Ek; cbn [andb]; [|done].
      destruct (nonempty (strip text)) eqn:En; [|done].
      right. exists name, text. split; [apply elem_of_app; right; by left|].
      split; [by apply bool_decide_eq_true in Ek|]. split; [done|by apply nonempty_true].
  - split; [done|]. split; [done|].
    destruct (bool_decide (str_lower name ∈ title_names)) eqn:Et; cbn [andb]; [|done].
    destruct (nonempty (strip ct)) eqn:En; cbn [andb]; [|done].
    destruct (bool_decide (strip ct ∈ no_choice)) eqn:Ec; cbn [negb]; [done|].
    right. split; [by apply nonempty_true|]. split; [by apply bool_decide_eq_false in Ec|].
    exists name, ct, cd. split; [apply elem_of_app; right; by left|].
    split; [by apply bool_decide_eq_true in Et|done].
Qed.

End Collect.

(** X18.  The items a search is started with.  The first is the language of
    the window; after it come the items of the controls in their order: one
    for a text field, a select or a radio group, one for each ticked box of
    a checkbox group, none for the two fields of the window itself.  As the
    language is among them, [build_visible_url] adds no second one, whatever
    language it is called with.  Each of the two years is empty or the text
    of a field of that year, without the white space around it, and the
    title is the one of the category unless a select named for the title
    shows a choice. *)
Theorem collected_items_carry_language (L : Lib) (str_lower : str → str)
    (lang tab_title : str) (controls : list (str * control)) :
  let c := _collect_exposed_items str_lower lang tab_title controls in
  exposed c = (py "language", lang) :: concat (List.map control_items controls) ∧
  Forall (λ kv, kv.1 ∈ List.map fst controls ∧ kv.1 ∉ own_fields)
         (concat (List.map control_items controls)) ∧
  (∀ action_url lang' page,
     build_visible_url action_url lang' (exposed c) page
     = action_url ++ (if contains (py "?") action_url then py "&" else py "?")
       ++ urlencode (exposed c ++ [(py "page", str_of_nat page)])) ∧
  year_of from_keys controls (year_from c) ∧
  year_of to_keys controls (year_to c) ∧
  (title_label c = tab_title ∨
   title_label c ≠ [] ∧ (title_label c ∉ no_choice) ∧
   ∃ name currentText currentData,
     (name, SelectControl currentText currentData) ∈ controls ∧
     str_lower name ∈ title_names ∧
     title_label c = strip currentText).
Proof.
  cbv zeta.
  assert (Hexp : exposed (_collect_exposed_items str_lower lang tab_title controls)
                 = (py "language", lang) :: concat (List.map control_items controls)).
  { unfold _collect_exposed_items. by rewrite fold_collect_exposed. }
  split; [done|]. split.
  { apply Forall_concat, Forall_map, Forall_forall. intros item Hitem.
    unfold control_items. case_bool_decide as Hown; [constructor|].
    assert (Hname : item.1 ∈ List.map fst controls) by (by apply list_elem_of_fmap_2).
    destruct item.2; repeat constructor; try done.
    apply Forall_map, Forall_forall. by intros. }
  split.
  { intros action_url lang' page. unfold build_visible_url. cbv zeta. rewrite Hexp.
    cbn [existsb fst]. rewrite bool_decide_eq_true_2 by done. cbn [orb app]. done. }
  apply collect_years.
Qed.

(* ================================================================== *)
(** * The worker of a crawl (lines 962-983) *)
(* ================================================================== *)

(** One entry of the list file (line 976): a dictionary, by its items. *)
Definition list_entry (outdir u : str) : list (str * str) :=
  [(py "url", u); (py "outdir", outdir); (py "pages", [])].

(** What the worker does besides the crawl, to the disk and to the window. *)
Inductive action :=
| Makedirs (dir : str)
    (** [os.makedirs(dir, exist_ok=True)] *)
| OpenForWriting (file : str)
    (** [open(file, "w", encoding="utf-8")] *)
| JsonDump (file : str) (items : list (list (str * str)))
    (** [json.dump(items, f, ensure_ascii=False, indent=2)] *)
| EmitDone (links : list str) (json_path : str)
    (** [self.done.emit(links, self.json_path)] *)
| EmitFailed (msg : str).
    (** [self.failed.emit(str(e))] *)

(** The disk: which of its three steps raises, and the text of the error. *)
Record Disk := mkDisk {
  makedirs_error : str → option str;
  open_error : str → option str;
  dump_error : str → list (list (str * str)) → option str
}.

Definition is_signal (a : action) : bool :=
  match a with EmitDone _ _ | EmitFailed _ => true | _ => false end.

Section Worker.
Context `{L : Lib} (W : World) (D : Disk).
(** [os.path.dirname], and [str(e)] of an exception of the crawl. *)
Variables (dirname : str → str) (exn_text : exn → str).
Variables (tab : TabDef) (lang action_url : str) (exposed_items : list (str * str))
          (view_info : gmap str str) (max_pages : Z) (delay_s : Q)
          (json_path outdir : str).

(** What the worker does once the crawl has returned [links]
    (lines 976-981). *)
Definition save_and_report (links : list str) : list action :=
  let items := List.map (λ u, list_entry outdir (strip_language_param u)) links in
  let dir := dirname json_path in
  match makedirs_error D dir with
  | Some msg => [Makedirs dir; EmitFailed msg]
  | None =>
      match open_error D json_path with
      | Some msg => [Makedirs dir; OpenForWriting json_path; EmitFailed msg]
      | None =>
          match dump_error D json_path items with
          | Some msg => [Makedirs dir; OpenForWriting json_path; JsonDump json_path items;
                         EmitFailed msg]
          | None => [Makedirs dir; OpenForWriting json_path; JsonDump json_path items;
                     EmitDone links json_path]
          end
      end
  end.

(** [CrawlWorker.run]: the events of the crawl, then what the worker does. *)
Definition run (h : list event) : list event * list action :=
  match crawl_tab_links W tab lang action_url exposed_items view_info max_pages delay_s h with
  | (Ok links, tr) => (tr, save_and_report links)
  | (Raise e, tr) => (tr, [EmitFailed (exn_text e)])
  end.

Lemma save_and_report_shape (links : list str) :
  ∃ before s, save_and_report links = before ++ [s] ∧ is_signal s = true ∧
              Forall (λ a, is_signal a = false) before ∧
              (∀ ls p, s = EmitDone ls p →
                 ls = links ∧ p = json_path ∧
                 before = [Makedirs (dirname json_path); OpenForWriting json_path;
                           JsonDump json_path
                             (List.map (λ u, list_entry outdir (strip_language_param u)) links)]).
Proof.
  unfold save_and_report. cbv zeta.
  destruct (makedirs_error D _) as [msg|].
  { exists [Makedirs (dirname json_path)], (EmitFailed msg).
    split; [done|]. split; [done|]. split; [by repeat constructor|done]. }
  destruct (open_error D _) as [msg|].
  { exists [Makedirs (dirname json_path); OpenForWriting json_path], (EmitFailed msg).
    split; [done|]. split; [done|]. split; [by repeat constructor|done]. }
  destruct (dump_error D _ _) as [msg|].
  - eexists [_; _; _], (EmitFailed msg).
    split; [done|]. split; [done|]. split; [by repeat constructor|done].
  - eexists [_; _; _], (EmitDone links json_path).
    split; [done|]. split; [done|]. split; [by repeat constructor|].
    by intros ls p [= <- <-].
Qed.

End Worker.

(** X19.  What the worker reports.  It makes no request of its own: the
    events of its run are those of the crawl.  It ends with one signal, and
    sends no other: "failed" when the crawl raised, and then it has not
    touched the disk; "done" only when the crawl returned its links and the
    folder was made, the file opened and the list written, in this order.
    The list written has one entry for each link returned, in their order,
    and "done" carries these links and the path of the file. *)
Theorem worker_reports_once (L : Lib) (W : World) (D : Disk) (dirname : str → str)
    (exn_text : exn → str) (tab : TabDef) (lang action_url : str)
    (exposed_items : list (str * str)) (view_info : gmap str str) (max_pages : Z)
    (delay_s : Q) (json_path outdir : str) (h : list event) :
  let crawl := crawl_tab_links W tab lang action_url exposed_items view_info
                               max_pages delay_s h in
  let out := run W D dirname exn_text tab lang action_url exposed_items view_info
                 max_pages delay_s json_path outdir h in
  out.1 = crawl.2 ∧
  (∃ before s, out.2 = before ++ [s] ∧ is_signal s = true ∧
               Forall (λ a, is_signal a = false) before) ∧
  (∀ e, crawl.1 = Raise e → out.2 = [EmitFailed (exn_text e)]) ∧
  (∀ links p, EmitDone links p ∈ out.2 →
     crawl.1 = Ok links ∧ p = json_path ∧
     out.2 = [Makedirs (dirname json_path); OpenForWriting json_path;
              JsonDump json_path
                (List.map (λ u, list_entry outdir (strip_language_param u)) links);
              EmitDone links json_path]).
Proof.
  cbv zeta. unfold run.
  destruct (crawl_tab_links _ _ _ _ _ _ _ _ _) as [[links|e] tr]; cbn [fst snd].
  - destruct (save_and_report_shape D dirname json_path outdir links)
      as (before & s & Heq & Hs & Hbefore & Hdone).
    split; [done|]. split; [by exists before, s|]. split; [done|].
    intros ls p Hin. rewrite Heq in Hin.
    apply elem_of_app in Hin as [Hin|Hin%list_elem_of_singleton].
    + rewrite Forall_forall in Hbefore. by apply Hbefore in Hin.
    + destruct (Hdone ls p) as (-> & -> & ->); [done|]. by rewrite Heq, <- Hin.
  - split; [done|]. split; [by exists [], (EmitFailed (exn_text e))|].
    split; [by intros e' [= ->]|].
    by intros links p [=]%list_elem_of_singleton.
Qed.

(* ================================================================== *)
(** * Reading the view metadata off a page (lines 158-183) *)
(* ================================================================== *)

(** The class [[a-zA-Z0-9_]]. *)
Definition ascii_word (c : N) : bool :=
  ((97 <=? c) && (c <=? 122) || (65 <=? c) && (c <=? 90) || (48 <=? c) && (c <=? 57)
   || (c =? 95))%N.

(** The class [[a-f0-9]]. *)
Definition hex_lower (c : N) : bool :=
  ((97 <=? c) && (c <=? 102) || (48 <=? c) && (c <=? 57))%N.

(** The class [[a-zA-Z0-9_\-]]. *)
Definition ascii_word_or_dash (c : N) : bool := ascii_word c || (c =? 45)%N.

(** The class of line 176 and 177: every character but the double quote. *)
Definition not_quote (c : N) : bool := negb (c =? 34)%N.

(** The longest run of characters of a class at the head of a text, and
    what follows it: what a greedy [[...]+] or [[...]*] takes first. *)
Fixpoint span (p : N → bool) (s : str) : str * str :=
  match s with
  | c :: s' => if p c then let (run, rest) := span p s' in (c :: run, rest) else ([], s)
  | [] => ([], [])
  end.

(** [re.search]: the match at the leftmost place where there is one.
    [m before s] is the match of the pattern at the place where the text
    [s] begins, [before] being the character in front of it. *)
Fixpoint search {A} (m : option N → str → option A) (before : option N) (s : str)
    : option A :=
  match m before s with
  | Some r => Some r
  | None =>
      match s with
      | [] => None
      | c :: s' => search m (Some c) s'
      end
  end.

Section ViewInfoPatterns.
(** [c.isalnum()]; the word characters of a pattern on text are these and
    the underscore. *)
Variable unicode_alnum : N → bool.

Definition is_word (c : N) : bool := ascii_word c || unicode_alnum c.

(** [\b] between the character [before] and the text [rest]. *)
Definition boundary (before : option N) (rest : str) : bool :=
  xorb (match before with Some c => is_word c | None => false end)
       (match rest with c :: _ => is_word c | [] => false end).

(** [\b<prefix>([a-zA-Z0-9_]+)\b] at one place (lines 161-162).  The group
    takes the longest run of the class; if no [\b] stands after that run, a
    shorter run ends between two characters of the class, where no [\b]
    stands either. *)
Definition match_class_id (prefix : str) (before : option N) (s : str) : option str :=
  if boundary before s then
    match strip_prefix prefix s with
    | Some rest =>
        let (run, after) := span ascii_word rest in
        if nonempty run && boundary (last run) after then Some run else None
    | None => None
    end
  else None.

(** [\bview-dom-id-([a-f0-9]{32})\b] at one place (line 163). *)
Definition match_dom_id (before : option N) (s : str) : option str :=
  if boundary before s then
    match strip_prefix (py "view-dom-id-") s with
    | Some rest =>
        let run := firstn 32 rest in
        if (length run =? 32) && forallb hex_lower run && boundary (last run) (skipn 32 rest)
        then Some run else None
    | None => None
    end
  else None.

End ViewInfoPatterns.

(** The pattern of line 171 at one place: the attribute [id] whose value is
    [views-exposed-form-([a-zA-Z0-9_]+)-([a-zA-Z0-9_\-]+)], in double quotes.
    The first group has no dash, so it is the longest run of its class and a
    dash follows it; the second is the longest run of its class and the
    closing quote follows it. *)
Definition match_form_id (before : option N) (s : str) : option (str * str) :=
  match strip_prefix (py "id=" ++ [34%N] ++ py "views-exposed-form-") s with
  | Some rest =>
      let (g1, r1) := span ascii_word rest in
      match strip_prefix (py "-") r1 with
      | Some r2 =>
          let (g2, r3) := span ascii_word_or_dash r2 in
          match strip_prefix [34%N] r3 with
          | Some _ => if nonempty g1 && nonempty g2 then Some (g1, g2) else None
          | None => None
          end
      | None => None
      end
  | None => None
  end.

(** The patterns of lines 176-177 at one place: the key in double quotes,
    [\s*:\s*], and in double quotes the group, the longest run of
    characters other than the double quote, which must not be empty. *)
Definition match_setting (key : str) (before : option N) (s : str) : option str :=
  match strip_prefix ([34%N] ++ key ++ [34%N]) s with
  | Some rest =>
      match strip_prefix (py ":") (lstrip rest) with
      | Some r1 =>
          match strip_prefix [34%N] (lstrip r1) with
          | Some r2 =>
              let (g, r3) := span not_quote r2 in
              match strip_prefix [34%N] r3 with
              | Some _ => if nonempty g then Some g else None
              | None => None
              end
          | None => None
          end
      | None => None
      end
  | None => None
  end.

(** [s.replace("-", "_")] *)
Definition dashes_to_underscores (s : str) : str :=
  List.map (λ c, if (c =? 45)%N then 95%N else c) s.

(** [info.setdefault(k, v)] *)
Definition setdefault (k v : str) (info : gmap str str) : gmap str str :=
  match info !! k with Some _ => info | None => <[k := v]> info end.

(** [if m: info[k] = m.group(1)] *)
Definition store (k : str) (m : option str) (info : gmap str str) : gmap str str :=
  match m with Some v => <[k := v]> info | None => info end.

(** Lines 158-183 *)
Definition parse_drupal_view_info_of (unicode_alnum : N → bool) (html : str)
    : gmap str str :=
  let m_name := search (match_class_id unicode_alnum (py "view-id-")) None html in
  let m_disp := search (match_class_id unicode_alnum (py "view-display-id-")) None html in
  let m_dom := search (match_dom_id unicode_alnum) None html in
  let info := store (py "view_dom_id") m_dom
                (store (py "view_display_id") m_disp
                   (store (py "view_name") m_name ∅)) in
  let m_form := search match_form_id None html in
  let info :=
    match m_form with
    | Some (g1, g2) =>
        setdefault (py "view_display_id") (dashes_to_underscores g2)
          (setdefault (py "view_name") g1 info)
    | None => info
    end in
  let m_theme := search (match_setting (py "theme")) None html in
  let m_token := search (match_setting (py "theme_token")) None html in
  store (py "theme_token") m_token (store (py "theme") m_theme info).

Lemma span_spec (p : N → bool) (s : str) :
  s = (span p s).1 ++ (span p s).2 ∧ Forall (λ c, p c = true) (span p s).1.
Proof.
  induction s as [|c s [IH1 IH2]]; [by split|]. cbn [span].
  destruct (p c) eqn:Ec; [|by split].
  destruct (span p s) as [run rest]. cbn [fst snd] in *.
  split; [by rewrite IH1 at 1|by constructor].
Qed.

Lemma search_found {A} (m : option N → str → option A) (s : str) : ∀ before r,
  search m before s = Some r → ∃ before' s', m before' s' = Some r.
Proof.
  induction s as [|c s IH]; intros before r; cbn [search].
  - destruct (m before []) eqn:E; [|done]. intros [= <-]. by eexists _, _.
  - destruct (m before (c :: s)) eqn:E; [intros [= <-]; by eexists _, _|]. apply IH.
Qed.

(** What a match of each pattern holds. *)
Lemma match_class_id_group ua prefix before s g :
  match_class_id ua prefix before s = Some g → g ≠ [] ∧ Forall (λ c, ascii_word c = true) g.
Proof.
  unfold match_class_id. destruct (boundary ua before s); [|done].
  destruct (strip_prefix prefix s) as [rest|]; [|done].
  destruct (span_spec ascii_word rest) as [_ Hrun].
  destruct (span ascii_word rest) as [run after]. cbn [fst] in Hrun.
  destruct (nonempty run) eqn:En; [|done]. destruct (boundary ua (last run) after); [|done].
  intros [= <-]. split; [by apply nonempty_true|done].
Qed.

Lemma match_dom_id_group ua before s g :
  match_dom_id ua before s = Some g → length g = 32 ∧ Forall (λ c, hex_lower c = true) g.
Proof.
  unfold match_dom_id. destruct (boundary ua before s); [|done].
  destruct (strip_prefix _ s) as [rest|]; [|done]. cbv zeta.
  destruct (length (firstn 32 rest) =? 32) eqn:El; [|done].
  destruct (forallb hex_lower (firstn 32 rest)) eqn:Eh; [|done].
  destruct (boundary ua _ _); [|done]. intros [= <-].
  split; [by apply Nat.eqb_eq|]. apply Forall_forall. intros c Hc%list_elem_of_In.
  rewrite forallb_forall in Eh. by apply Eh.
Qed.

Lemma match_form_id_groups before s g1 g2 :
  match_form_id before s = Some (g1, g2) →
  g1 ≠ [] ∧ Forall (λ c, ascii_word c = true) g1 ∧
  g2 ≠ [] ∧ Forall (λ c, ascii_word_or_dash c = true) g2.
Proof.
  unfold match_form_id. destruct (strip_prefix _ s) as [rest|]; [|done].
  destruct (span_spec ascii_word rest) as [_ H1].
  destruct (span ascii_word rest) as [r1 a1]. cbn [fst] in H1.
  destruct (strip_prefix _ a1) as [a1'|]; [|done].
  destruct (span_spec ascii_word_or_dash a1') as [_ H2].
  destruct (span ascii_word_or_dash a1') as [r2 a2]. cbn [fst] in H2.
  destruct (strip_prefix _ a2) as [a2'|]; [|done].
  destruct (nonempty r1) eqn:E1; [|done]. destruct (nonempty r2) eqn:E2; [|done].
  intros [= <- <-]. by rewrite <- !nonempty_true.
Qed.

Lemma match_setting_group key before s g :
  match_setting key before s = Some g → g ≠ [] ∧ Forall (λ c, not_quote c = true) g.
Proof.
  unfold match_setting. destruct (strip_prefix _ s) as [rest|]; [|done].
  destruct (strip_prefix _ (lstrip rest)) as [r1|]; [|done].
  destruct (strip_prefix _ (lstrip r1)) as [r2|]; [|done].
  destruct (span_spec not_quote r2) as [_ Hg].
  destruct (span not_quote r2) as [g' r3]. cbn [fst] in Hg.
  destruct (strip_prefix _ r3) as [r4|]; [|done].
  destruct (nonempty g') eqn:E; [|done]. intros [= <-]. by rewrite <- nonempty_true.
Qed.

Lemma lookup_store k m info k' :
  store k m info !! k' =
  if decide (k' = k) then match m with Some v => Some v | None => info !! k' end
  else info !! k'.
Proof.
  unfold store. destruct m as [v|]; [|by destruct (decide _)].
  destruct (decide (k' = k)) as [->|Hne]; [apply lookup_insert_eq|by apply lookup_insert_ne].
Qed.

Lemma lookup_setdefault k v info k' :
  setdefault k v info !! k' =
  if decide (k' = k) then match info !! k' with Some x => Some x | None => Some v end
  else info !! k'.
Proof.
  unfold setdefault. destruct (decide (k' = k)) as [->|Hne].
  - destruct (info !! k) as [x|] eqn:E; [done|apply lookup_insert_eq].
  - destruct (info !! k); [done|by apply lookup_insert_ne].
Qed.

(** The five keys of the metadata. *)
Definition view_info_keys : list str :=
  [py "view_name"; py "view_display_id"; py "view_dom_id"; py "theme"; py "theme_token"].

(** Tests on two keys that are written out. *)
Local Ltac key_cases :=
  repeat match goal with
         | |- context [decide (py ?a = py ?a)] =>
             rewrite (decide_True (P := py a = py a)) by reflexivity
         | |- context [decide (py ?a = py ?b)] =>
             rewrite (decide_False (P := py a = py b))
               by (let H := fresh in intros H; vm_compute in H; discriminate H)
         end.

(** What [parse_drupal_view_info] holds under each key, by the matches of
    the six patterns. *)
Lemma parse_drupal_view_info_lookup (unicode_alnum : N → bool) (html : str) (k : str) :
  parse_drupal_view_info_of unicode_alnum html !! k =
  let m_form := search match_form_id None html in
  if decide (k = py "view_name") then
    match search (match_class_id unicode_alnum (py "view-id-")) None html with
    | Some g => Some g
    | None => fst <$> m_form
    end
  else if decide (k = py "view_display_id") then
    match search (match_class_id unicode_alnum (py "view-display-id-")) None html with
    | Some g => Some g
    | None => (λ gs, dashes_to_underscores gs.2) <$> m_form
    end
  else if decide (k = py "view_dom_id") then search (match_dom_id unicode_alnum) None html
  else if decide (k = py "theme") then search (match_setting (py "theme")) None html
  else if decide (k = py "theme_token") then search (match_setting (py "theme_token")) None html
  else None.
Proof.
  unfold parse_drupal_view_info_of. cbv zeta.
  generalize (search (match_class_id unicode_alnum (py "view-id-")) None html)
             (search (match_class_id unicode_alnum (py "view-display-id-")) None html)
             (search (match_dom_id unicode_alnum) None html)
             (search match_form_id None html)
             (search (match_setting (py "theme")) None html)
             (search (match_setting (py "theme_token")) None html).
  intros m_name m_disp m_dom m_form m_theme m_token.
  destruct m_form as [[g1 g2]|];
    rewrite !lookup_store, ?lookup_setdefault, ?lookup_store, ?lookup_setdefault,
      ?lookup_store, ?lookup_empty.
  all: destruct (decide (k = py "view_name")) as [->|H1];
    [key_cases; by destruct m_name, m_disp, m_dom, m_theme, m_token|].
  all: destruct (decide (k = py "view_display_id")) as [->|H2];
    [key_cases; by destruct m_name, m_disp, m_dom, m_theme, m_token|].
  all: destruct (decide (k = py "view_dom_id")) as [->|H3];
    [key_cases; by destruct m_name, m_disp, m_dom, m_theme, m_token|].
  all: destruct (decide (k = py "theme")) as [->|H4];
    [key_cases; by destruct m_name, m_disp, m_dom, m_theme, m_token|].
  all: destruct (decide (k = py "theme_token")) as [->|H5];
    [key_cases; by destruct m_name, m_disp, m_dom, m_theme, m_token|].
  all: by destruct m_name, m_disp, m_dom, m_theme, m_token.
Qed.

Lemma dashes_to_underscores_word g :
  Forall (λ c, ascii_word_or_dash c = true) g →
  Forall (λ c, ascii_word c = true) (dashes_to_underscores g).
Proof.
  intros H. apply Forall_map. eapply Forall_impl; [exact H|]. intros c Hc. cbn beta.
  destruct (c =? 45)%N eqn:E; [reflexivity|]. unfold ascii_word_or_dash in Hc.
  by rewrite E, orb_false_r in Hc.
Qed.

(** The shape of the value under each key. *)
Lemma view_info_shapes (unicode_alnum : N → bool) (html : str) :
  let info := parse_drupal_view_info_of unicode_alnum html in
  (∀ v, info !! py "view_name" = Some v → v ≠ [] ∧ Forall (λ c, ascii_word c = true) v) ∧
  (∀ v, info !! py "view_display_id" = Some v →
        v ≠ [] ∧ Forall (λ c, ascii_word c = true) v) ∧
  (∀ v, info !! py "view_dom_id" = Some v →
        length v = 32 ∧ Forall (λ c, hex_lower c = true) v) ∧
  (∀ v, info !! py "theme" = Some v → v ≠ [] ∧ Forall (λ c, not_quote c = true) v) ∧
  (∀ v, info !! py "theme_token" = Some v → v ≠ [] ∧ Forall (λ c, not_quote c = true) v).
Proof.
  cbv zeta.
  assert (Hclass : ∀ prefix g,
            search (match_class_id unicode_alnum prefix) None html = Some g →
            g ≠ [] ∧ Forall (λ c, ascii_word c = true) g).
  { intros prefix g (b & s & Hm)%search_found. by eapply match_class_id_group. }
  assert (Hdom : ∀ g, search (match_dom_id unicode_alnum) None html = Some g →
                      length g = 32 ∧ Forall (λ c, hex_lower c = true) g).
  { intros g (b & s & Hm)%search_found. by eapply match_dom_id_group. }
  assert (Hset : ∀ key g, search (match_setting key) None html = Some g →
                          g ≠ [] ∧ Forall (λ c, not_quote c = true) g).
  { intros key g (b & s & Hm)%search_found. by eapply match_setting_group. }
  assert (Hform : ∀ gs, search match_form_id None html = Some gs →
            gs.1 ≠ [] ∧ Forall (λ c, ascii_word c = true) gs.1 ∧
            dashes_to_underscores gs.2 ≠ [] ∧
            Forall (λ c, ascii_word c = true) (dashes_to_underscores gs.2)).
  { intros [g1 g2] (b & s & Hm)%search_found.
    apply match_form_id_groups in Hm as (? & ? & ? & ?). cbn [fst snd].
    split; [done|]. split; [done|]. split; [by destruct g2|].
    by apply dashes_to_underscores_word. }
  assert (Hname : ∀ v, parse_drupal_view_info_of unicode_alnum html !! py "view_name" = Some v →
                       v ≠ [] ∧ Forall (λ c, ascii_word c = true) v).
  { intros v. rewrite parse_drupal_view_info_lookup. cbv zeta.
    rewrite decide_True by done.
    destruct (search (match_class_id _ _) None html) as [g|] eqn:E.
    - intros [= <-]. by eapply Hclass.
    - destruct (search match_form_id None html) as [gs|] eqn:Ef; [|done].
      intros [= <-]. by destruct (Hform gs eq_refl) as (? & ? & _). }
  assert (Hdisp : ∀ v, parse_drupal_view_info_of unicode_alnum html !! py "view_display_id"
                       = Some v → v ≠ [] ∧ Forall (λ c, ascii_word c = true) v).
  { intros v. rewrite parse_drupal_view_info_lookup. cbv zeta.
    rewrite decide_False by (intros H; vm_compute in H; discriminate H).
    rewrite decide_True by done.
    destruct (search (match_class_id _ _) None html) as [g|] eqn:E.
    - intros [= <-]. by eapply Hclass.
    - destruct (search match_form_id None html) as [gs|] eqn:Ef; [|done].
      intros [= <-]. by destruct (Hform gs eq_refl) as (_ & _ & ? & ?). }
  assert (Hd : ∀ v, parse_drupal_view_info_of unicode_alnum html !! py "view_dom_id" = Some v →
                    length v = 32 ∧ Forall (λ c, hex_lower c = true) v).
  { intros v. rewrite parse_drupal_view_info_lookup. cbv zeta.
    do 2 rewrite decide_False by (intros H; vm_compute in H; discriminate H).
    rewrite decide_True by done. apply Hdom. }
  assert (Hth : ∀ v, parse_drupal_view_info_of unicode_alnum html !! py "theme" = Some v →
                     v ≠ [] ∧ Forall (λ c, not_quote c = true) v).
  { intros v. rewrite parse_drupal_view_info_lookup. cbv zeta.
    do 3 rewrite decide_False by (intros H; vm_compute in H; discriminate H).
    rewrite decide_True by done. apply Hset. }
  assert (Htok : ∀ v, parse_drupal_view_info_of unicode_alnum html !! py "theme_token" = Some v →
                      v ≠ [] ∧ Forall (λ c, not_quote c = true) v).
  { intros v. rewrite parse_drupal_view_info_lookup. cbv zeta.
    do 4 rewrite decide_False by (intros H; vm_compute in H; discriminate H).
    rewrite decide_True by done. apply Hset. }
  done.
Qed.

(** X20.  What [parse_drupal_view_info] can return.  It holds no other key
    than the five of the metadata, and no empty value.  The name and the
    display of the view come from the class of the view and, only when the
    class does not give them, from the id of the form; both consist of
    letters, digits and underscores only (a dash of the form id becomes an
    underscore).  The DOM id is 32 characters long, each a digit or one of
    the letters a to f.  The theme and its token hold no double quote. *)
Theorem view_info_values (unicode_alnum : N → bool) (html : str) :
  let info := parse_drupal_view_info_of unicode_alnum html in
  let by_class prefix := search (match_class_id unicode_alnum (py prefix)) None html in
  let by_form := search match_form_id None html in
  (∀ k v, info !! k = Some v → k ∈ view_info_keys ∧ v ≠ []) ∧
  info !! py "view_name"
    = match by_class "view-id-"%string with Some g => Some g | None => fst <$> by_form end ∧
  info !! py "view_display_id"
    = match by_class "view-display-id-"%string with
      | Some g => Some g
      | None => (λ gs, dashes_to_underscores gs.2) <$> by_form
      end ∧
  (∀ v, info !! py "view_name" = Some v ∨ info !! py "view_display_id" = Some v →
        Forall (λ c, ascii_word c = true) v) ∧
  (∀ v, info !! py "view_dom_id" = Some v →
        length v = 32 ∧ Forall (λ c, hex_lower c = true) v) ∧
  (∀ v, info !! py "theme" = Some v ∨ info !! py "theme_token" = Some v →
        Forall (λ c, not_quote c = true) v).
Proof.
  cbv zeta.
  destruct (view_info_shapes unicode_alnum html) as (Hname & Hdisp & Hd & Hth & Htok).
  split.
  { intros k v Hk. pose proof Hk as Hk'. rewrite parse_drupal_view_info_lookup in Hk'.
    cbv zeta in Hk'. unfold view_info_keys.
    destruct (decide (k = py "view_name")) as [->|_];
      [split; [set_solver|by apply Hname]|].
    destruct (decide (k = py "view_display_id")) as [->|_];
      [split; [set_solver|by apply Hdisp]|].
    destruct (decide (k = py "view_dom_id")) as [->|_].
    { split; [set_solver|]. destruct (Hd v Hk) as [Hl _]. by destruct v. }
    destruct (decide (k = py "theme")) as [->|_]; [split; [set_solver|by apply Hth]|].
    destruct (decide (k = py "theme_token")) as [->|_]; [split; [set_solver|by apply Htok]|].
    done. }
  split.
  { rewrite parse_drupal_view_info_lookup. cbv zeta. by rewrite decide_True. }
  split.
  { rewrite parse_drupal_view_info_lookup. cbv zeta.
    rewrite decide_False by (intros H; vm_compute in H; discriminate H).
    by rewrite decide_True. }
  split; [intros v [H|H]; [by apply Hname|by apply Hdisp]|].
  split; [done|].
  intros v [H|H]; [by apply Hth|by apply Htok].
Qed.

(** A library that reads the metadata as [parse_drupal_view_info] does, and
    a site whose bare page of the registers shows a view. *)
Definition page_lib : Lib :=
  Build_Lib Reference.urlparse Reference.urlunparse Reference.urljoin Reference.parse_qsl
            Reference.urlencode Reference.unicode_digit
            (fun html => Some (Reference.anchor_hrefs_of html))
            (fun _ => None)
            (parse_drupal_view_info_of (fun c => Reference.is_alpha c || Reference.is_digit c)).

Definition view_page : str :=
  py "<div class='view view-id-solr_searching view-display-id-page view-dom-id-0123456789abcdef0123456789abcdef'>".

Definition view_site : World :=
  site [(py "https://www.portafontium.eu/searching/register?language=de", view_page)] [].

(** X21.  With the metadata read off the bare page by
    [parse_drupal_view_info], an identifier the caller left out and the
    crawl goes on with has the shape the patterns give it: the DOM id is 32
    characters long, each a digit or a letter from a to f, and the display
    id is made of letters, digits and underscores. *)
Theorem identifiers_read_off_the_page (L : Lib) (W : World) (unicode_alnum : N → bool)
    (tab : TabDef) (lang : str) (view_info : gmap str str) (h : list event)
    (v : ViewInfo) (t : list event) :
  (∀ html, parse_drupal_view_info html = parse_drupal_view_info_of unicode_alnum html) →
  resolve_view_info W tab lang view_info h = (Ok v, t) →
  (truthy (info_get view_info "view_dom_id") = false →
     length (view_dom_id v) = 32 ∧ Forall (λ c, hex_lower c = true) (view_dom_id v)) ∧
  (truthy (info_get view_info "view_display_id") = false →
     Forall (λ c, ascii_word c = true) (view_display_id v)).
Proof.
  intros Hparse. rewrite resolve_view_info_eq. cbv zeta.
  destruct (truthy (info_get view_info "view_dom_id")) eqn:Ed;
    destruct (truthy (info_get view_info "view_display_id")) eqn:Ei; cbn [andb].
  1: { intros _. by split. }
  all: destruct (http_get W h (boot_url tab lang)) as [boot|]; [|done];
    rewrite Hparse;
    destruct (view_info_shapes unicode_alnum boot) as (_ & Hdisp & Hdom & _);
    cbv zeta in Hdisp, Hdom; unfold info_get in *;
    cbn [view_dom_id view_display_id];
    destruct (nonempty (str_of _)) eqn:Edom; cbn [negb]; [|done];
    destruct (nonempty (or_else _ _)) eqn:Edisp; cbn [negb]; [|done];
    intros [[= <-] _]%pair_equal_spec; cbn [view_dom_id view_display_id];
    (split; [try done|try done]); intros _.
  - unfold or_else in Edisp |- *. rewrite Ei in Edisp |- *.
    destruct (parse_drupal_view_info_of unicode_alnum boot !! py "view_display_id")
      as [g|] eqn:Eg; [|done].
    destruct (truthy (Some g)); [by apply Hdisp|done].
  - unfold py_or in Edom |- *. rewrite Ed in Edom |- *.
    destruct (parse_drupal_view_info_of unicode_alnum boot !! py "view_dom_id")
      as [g|] eqn:Eg; [by apply Hdom|done].
  - unfold py_or in Edom |- *. rewrite Ed in Edom |- *.
    destruct (parse_drupal_view_info_of unicode_alnum boot !! py "view_dom_id")
      as [g|] eqn:Eg; [by apply Hdom|done].
  - unfold or_else in Edisp |- *. rewrite Ei in Edisp |- *.
    destruct (parse_drupal_view_info_of unicode_alnum boot !! py "view_display_id")
      as [g|] eqn:Eg; [|done].
    destruct (truthy (Some g)); [by apply Hdisp|done].
Qed.

Lemma identifiers_read_off_the_page_witness :
  ∃ v, (@resolve_view_info page_lib view_site tab_register (py "de") ∅ []).1 = Ok v ∧
       view_name v = py "solr_searching" ∧
       length (view_dom_id v) = 32 ∧
       Forall (λ c, ascii_word c = true) (view_display_id v).
Proof.
  assert (Hok : is_ok (@resolve_view_info page_lib view_site tab_register (py "de") ∅ []).1
                = true) by (vm_compute; reflexivity).
  assert (Hname : match (@resolve_view_info page_lib view_site tab_register (py "de") ∅ []).1
                  with Ok v => view_name v | Raise _ => [] end = py "solr_searching")
    by (vm_compute; reflexivity).
  destruct (run_result _ Hok) as [v E]. rewrite E in Hname. cbn [fst] in Hname.
  exists v. split; [by rewrite E|]. split; [exact Hname|].
  destruct (identifiers_read_off_the_page page_lib view_site
              (fun c => Reference.is_alpha c || Reference.is_digit c)
              tab_register (py "de") ∅ [] v _ (λ _, eq_refl) E) as [Hdom Hdisp].
  split; [by apply Hdom|by apply Hdisp].
Defined.

(* ================================================================== *)
(** * The texts of the window (lines 50-113, 1090-1091) *)
(* ================================================================== *)

(** [STR["de"]] and [STR["cs"]] *)
Definition STR_de : list (str * str) :=
  [ (py "app_title", u8 "PortaFontium – Link-Crawler");
    (py "lang_label", py "Sprache:");
    (py "save_folder", py "Speicherordner:");
    (py "choose_folder", u8 "Ordner wählen…");
    (py "start", py "Crawl starten");
    (py "stop", py "Stopp");
    (py "ready", py "Bereit.");
    (py "running", u8 "Crawl läuft…");
    (py "stopping", u8 "Stop angefordert…");
    (py "saved", u8 "✅ Gespeichert: {n} Einträge → {path}");
    (py "err_folder", u8 "Bitte einen Speicherordner auswählen.");
    (py "err_form", py "Formular konnte nicht geladen werden.");
    (py "err", py "Fehler: {msg}");
    (py "home", u8 "Zur Webseite – {tab}");
    (py "crawler_opts", py "Crawler");
    (py "delay", py "Delay (s):");
    (py "max_pages", py "Max Seiten:");
    (py "tab_register", py "Matriken");
    (py "tab_chronicle", py "Chroniken");
    (py "tab_charter", py "Urkunden");
    (py "tab_photo", py "Fotos");
    (py "tab_census", u8 "Volkszählung");
    (py "tab_map", py "Karten");
    (py "tab_periodical", py "Zeitungen");
    (py "tab_amtsbuch", u8 "Amtsbücher");
    (py "log_prefix", py "[{tab}] ") ].

Definition STR_cs : list (str * str) :=
  [ (py "app_title", u8 "PortaFontium – Link-Crawler");
    (py "lang_label", py "Jazyk:");
    (py "save_folder", u8 "Složka pro uložení:");
    (py "choose_folder", u8 "Vybrat…");
    (py "start", py "Spustit crawl");
    (py "stop", py "Stop");
    (py "ready", u8 "Připraveno.");
    (py "running", u8 "Crawl běží…");
    (py "stopping", u8 "Stop požadován…");
    (py "saved", u8 "✅ Uloženo: {n} položek → {path}");
    (py "err_folder", u8 "Vyber složku pro uložení.");
    (py "err_form", u8 "Formulář nelze načíst.");
    (py "err", py "Chyba: {msg}");
    (py "home", u8 "Na web – {tab}");
    (py "crawler_opts", py "Crawler");
    (py "delay", py "Delay (s):");
    (py "max_pages", u8 "Max stránek:");
    (py "tab_register", py "Matriky");
    (py "tab_chronicle", py "Kroniky");
    (py "tab_charter", py "Listiny");
    (py "tab_photo", py "Fotografie");
    (py "tab_census", u8 "Sčítání");
    (py "tab_map", py "Mapy");
    (py "tab_periodical", py "Periodika");
    (py "tab_amtsbuch", u8 "Úřední knihy");
    (py "log_prefix", py "[{tab}] ") ].

Definition STR : list (str * list (str * str)) := [(py "de", STR_de); (py "cs", STR_cs)].

(** [d.get(k)] *)
Fixpoint dict_lookup {A} (k : str) (d : list (str * A)) : option A :=
  match d with
  | [] => None
  | (k', x) :: rest => if decide (k' = k) then Some x else dict_lookup k rest
  end.

Section Texts.
(** [s.format] with the fields [kw], which raises when [s] names a field
    that [kw] does not have ([None]); the values of [kw] by their text. *)
Variable format : str → list (str * str) → option str.

(** Lines 111-113 *)
Definition tr (lang key : str) (kw : list (str * str)) : option str :=
  let s := get_or (default STR_de (dict_lookup lang STR)) key key in
  if nonempty kw then format s kw else Some s.

(** Lines 1090-1091 *)
Definition _tab_title (lang key : str) : option str := tr lang (py "tab_" ++ key) [].

End Texts.

(** The keys of a table. *)
Definition keys_of (table : list (str * str)) : list str := List.map fst table.

Lemma STR_table (lang : str) :
  default STR_de (dict_lookup lang STR) = if decide (lang = py "cs") then STR_cs else STR_de.
Proof.
  unfold STR. cbn [dict_lookup].
  destruct (decide (py "de" = lang)) as [<-|Hde].
  - rewrite decide_False by (intros H; vm_compute in H; discriminate H). done.
  - destruct (decide (py "cs" = lang)) as [<-|Hcs]; [by rewrite decide_True|].
    by rewrite decide_False.
Qed.

(** X22.  The texts of the window.  A language other than "cs" gives the
    German texts.  Without fields to fill in, [tr] returns the text of the
    key, and the key itself when the table does not have it; it does not
    fail.  The two tables have the same keys, so a text is missing in one
    language only if it is missing in the other.  Every category of [TABS]
    has a title in every language: a text that is not empty, and not the
    key shown in its place. *)
Theorem texts_in_every_language (format : str → list (str * str) → option str) :
  (∀ lang key kw, lang ≠ py "cs" → tr format lang key kw = tr format (py "de") key kw) ∧
  (∀ lang key, ∃ s, tr format lang key [] = Some s ∧
                    (key ∉ keys_of STR_de → s = key)) ∧
  (∀ key, key ∈ keys_of STR_de ↔ key ∈ keys_of STR_cs) ∧
  (∀ lang tab, tab ∈ TABS →
     ∃ title, _tab_title format lang (key tab) = Some title ∧
              title ≠ [] ∧ title ≠ py "tab_" ++ key tab).
Proof.
  assert (Hkeys : keys_of STR_de = keys_of STR_cs) by (vm_compute; reflexivity).
  split; [|split; [|split]].
  - intros lang key kw Hne. unfold tr. rewrite !STR_table.
    rewrite decide_False by done.
    by rewrite decide_False by (intros H; vm_compute in H; discriminate H).
  - intros lang key. unfold tr. cbv zeta. cbn [nonempty]. eexists. split; [done|].
    intros Hno. rewrite STR_table. unfold get_or.
    destruct (decide (lang = py "cs")).
    + destruct (assoc key STR_cs) as [x|] eqn:E; [|done].
      apply assoc_Some, (list_elem_of_fmap_2 fst) in E. unfold keys_of in Hno, Hkeys.
      rewrite Hkeys in Hno. done.
    + destruct (assoc key STR_de) as [x|] eqn:E; [|done].
      by apply assoc_Some, (list_elem_of_fmap_2 fst) in E.
  - intros key. by rewrite Hkeys.
  - intros lang tab Htab. unfold _tab_title, tr. cbv zeta. cbn [nonempty].
    eexists. split; [done|]. rewrite STR_table.
    assert (Hall : forallb (λ tab,
                      forallb (λ table,
                         let title := get_or table (py "tab_" ++ key tab) (py "tab_" ++ key tab) in
                         nonempty title && negb (bool_decide (title = py "tab_" ++ key tab)))
                      [STR_de; STR_cs]) TABS = true) by (vm_compute; reflexivity).
    rewrite forallb_forall in Hall. apply list_elem_of_In in Htab.
    specialize (Hall tab Htab). cbn [forallb] in Hall. rewrite andb_true_r in Hall.
    apply andb_true_iff in Hall as [Hde Hcs].
    destruct (decide (lang = py "cs")).
    + apply andb_true_iff in Hcs as [H1 H2]. apply negb_true_iff, bool_decide_eq_false in H2.
      split; [by apply nonempty_true|done].
    + apply andb_true_iff in Hde as [H1 H2]. apply negb_true_iff, bool_decide_eq_false in H2.
      split; [by apply nonempty_true|done].
Qed.
